(** * monolit-parser: content-addressed asset capture and change-gated DOM snapshots

    A shallow embedding of the capture script ([parser.js] and its later
    revision with the asset map and the in-page snapshot sampler).

    - The Node process is a record [Host] (files on disk, the asset map, the
      two append-only log streams, the console) threaded through a small
      state-and-exception monad [M]; [try]/[catch] is [try_catch].
    - An object that the code fills by assignment (the asset map, the
      attributes of a snapshot node) is kept as the list of its properties
      in the order in which JavaScript goes through them, [Dict].
    - What the environment decides is passed in explicitly: the wall clock
      read by [new Date()] / [Date.now()], the outcome of
      [await response.body()], and whether [fs.writeFileSync] succeeds.
    - [crypto.createHash('md5')], [path.extname] (POSIX), [String.includes],
      [String.trim], UTF-8 encoding and [Number.toString] are written out.
      [new URL(u).pathname] and [JSON.stringify] are fields of the class
      [Runtime]; every theorem holds for every instance of it. *)

From Stdlib Require Import ZArith List Strings.String Strings.Ascii Strings.Byte.
From Stdlib Require Import DecimalString Decimal DecimalPos DecimalZ Sorted Lia.
From stdpp Require Import base option gmap strings list fin_maps.
Import ListNotations.
Local Open Scope string_scope.
Local Open Scope Z_scope.

(* ===================================================================== *)
(** * JavaScript values *)
(* ===================================================================== *)

(** A JavaScript string handled in the page is a sequence of UTF-16 code
    units ([str.charCodeAt i]). Strings of the host side (URLs, header
    values, file names) are [string]s. *)
Abbreviation jsstring := (list Z).

Definition codes (s : string) : jsstring :=
  map (fun c => Z.of_N (N_of_ascii c)) (list_ascii_of_string s).

(** [ToInt32]: the wrap-around of the bit operators. *)
Definition ToInt32 (z : Z) : Z :=
  let m := z mod 2 ^ 32 in
  if m <? 2 ^ 31 then m else m - 2 ^ 32.

(** [Number.prototype.toString] on an integer below 1e21 (and the same
    conversion inside a template literal): decimal digits, with a leading
    minus sign for a negative number. *)
Definition Number_toString (z : Z) : string :=
  NilZero.string_of_int (Z.to_int z).

(** [haystack.includes(needle)] *)
Fixpoint includes (haystack needle : string) : bool :=
  String.prefix needle haystack ||
  match haystack with
  | EmptyString => false
  | String _ rest => includes rest needle
  end.

(** White space removed by [String.prototype.trim], among the code units
    below 256: TAB, LF, VT, FF, CR, SP and NBSP. *)
Definition is_white_space (c : ascii) : bool :=
  let n := N_of_ascii c in
  ((9 <=? n) && (n <=? 13) || (n =? 32) || (n =? 160))%N.

Fixpoint trim_start (s : string) : string :=
  match s with
  | String c rest => if is_white_space c then trim_start rest else s
  | EmptyString => EmptyString
  end.

Definition string_rev (s : string) : string :=
  string_of_list_ascii (rev (list_ascii_of_string s)).

Definition trim (s : string) : string :=
  string_rev (trim_start (string_rev (trim_start s))).

(** [Buffer.from(str, 'utf8')]: a surrogate pair becomes one four-byte
    sequence, a lone surrogate becomes U+FFFD. *)
Definition byte_of_Z (z : Z) : byte :=
  default x00 (Byte.of_N (Z.to_N (z mod 256))).

Definition Z_of_byte (b : byte) : Z := Z.of_N (Byte.to_N b).

Definition utf8_code_point (cp : Z) : list byte :=
  if cp <? 0x80 then [byte_of_Z cp]
  else if cp <? 0x800 then
    [byte_of_Z (Z.lor 0xC0 (Z.shiftr cp 6));
     byte_of_Z (Z.lor 0x80 (Z.land cp 0x3F))]
  else if cp <? 0x10000 then
    [byte_of_Z (Z.lor 0xE0 (Z.shiftr cp 12));
     byte_of_Z (Z.lor 0x80 (Z.land (Z.shiftr cp 6) 0x3F));
     byte_of_Z (Z.lor 0x80 (Z.land cp 0x3F))]
  else
    [byte_of_Z (Z.lor 0xF0 (Z.shiftr cp 18));
     byte_of_Z (Z.lor 0x80 (Z.land (Z.shiftr cp 12) 0x3F));
     byte_of_Z (Z.lor 0x80 (Z.land (Z.shiftr cp 6) 0x3F));
     byte_of_Z (Z.lor 0x80 (Z.land cp 0x3F))].

Definition is_high_surrogate (c : Z) : bool := (0xD800 <=? c) && (c <? 0xDC00).
Definition is_low_surrogate (c : Z) : bool := (0xDC00 <=? c) && (c <? 0xE000).

Fixpoint utf8 (s : jsstring) : list byte :=
  match s with
  | [] => []
  | c :: rest =>
      if is_high_surrogate c then
        match rest with
        | lo :: rest' =>
            if is_low_surrogate lo then
              utf8_code_point
                (0x10000 + Z.shiftl (c - 0xD800) 10 + (lo - 0xDC00)) ++ utf8 rest'
            else utf8_code_point 0xFFFD ++ utf8 rest
        | [] => utf8_code_point 0xFFFD
        end
      else if is_low_surrogate c then utf8_code_point 0xFFFD ++ utf8 rest
      else utf8_code_point c ++ utf8 rest
  end.

(* ===================================================================== *)
(** * crypto.createHash('md5') *)
(* ===================================================================== *)

Module MD5.

Definition w32 (z : Z) : Z := z mod 2 ^ 32.

Definition rotl32 (x c : Z) : Z :=
  w32 (Z.lor (Z.shiftl x c) (Z.shiftr x (32 - c))).

Definition not32 (x : Z) : Z := Z.lxor x 0xffffffff.

Definition shifts : list Z :=
  [7; 12; 17; 22; 7; 12; 17; 22; 7; 12; 17; 22; 7; 12; 17; 22;
   5; 9; 14; 20; 5; 9; 14; 20; 5; 9; 14; 20; 5; 9; 14; 20;
   4; 11; 16; 23; 4; 11; 16; 23; 4; 11; 16; 23; 4; 11; 16; 23;
   6; 10; 15; 21; 6; 10; 15; 21; 6; 10; 15; 21; 6; 10; 15; 21].

Definition sines : list Z :=
  [0xd76aa478; 0xe8c7b756; 0x242070db; 0xc1bdceee;
   0xf57c0faf; 0x4787c62a; 0xa8304613; 0xfd469501;
   0x698098d8; 0x8b44f7af; 0xffff5bb1; 0x895cd7be;
   0x6b901122; 0xfd987193; 0xa679438e; 0x49b40821;
   0xf61e2562; 0xc040b340; 0x265e5a51; 0xe9b6c7aa;
   0xd62f105d; 0x02441453; 0xd8a1e681; 0xe7d3fbc8;
   0x21e1cde6; 0xc33707d6; 0xf4d50d87; 0x455a14ed;
   0xa9e3e905; 0xfcefa3f8; 0x676f02d9; 0x8d2a4c8a;
   0xfffa3942; 0x8771f681; 0x6d9d6122; 0xfde5380c;
   0xa4beea44; 0x4bdecfa9; 0xf6bb4b60; 0xbebfbc70;
   0x289b7ec6; 0xeaa127fa; 0xd4ef3085; 0x04881d05;
   0xd9d4d039; 0xe6db99e5; 0x1fa27cf8; 0xc4ac5665;
   0xf4292244; 0x432aff97; 0xab9423a7; 0xfc93a039;
   0x655b59c3; 0x8f0ccc92; 0xffeff47d; 0x85845dd1;
   0x6fa87e4f; 0xfe2ce6e0; 0xa3014314; 0x4e0811a1;
   0xf7537e82; 0xbd3af235; 0x2ad7d2bb; 0xeb86d391].

(** The [n] low bytes of [z], least significant first. *)
Definition le_bytes (n : nat) (z : Z) : list Z :=
  map (fun i => Z.land (Z.shiftr z (8 * Z.of_nat i)) 0xff) (seq 0 n).

Fixpoint le_word (bs : list Z) : Z :=
  match bs with
  | [] => 0
  | b :: bs' => b + 256 * le_word bs'
  end.

Fixpoint chunks {A} (fuel k : nat) (l : list A) : list (list A) :=
  match fuel with
  | O => []
  | S fuel' =>
      match l with
      | [] => []
      | _ => firstn k l :: chunks fuel' k (skipn k l)
      end
  end.

Definition pad (msg : list Z) : list Z :=
  let len := Z.of_nat (List.length msg) in
  msg ++ [0x80] ++ repeat 0 (Z.to_nat ((55 - len) mod 64))
      ++ le_bytes 8 ((8 * len) mod 2 ^ 64).

Definition state : Type := Z * Z * Z * Z.

Definition round (M : list Z) (st : state) (i : nat) : state :=
  let '(A, B, C, D) := st in
  let iz := Z.of_nat i in
  let '(F, g) :=
    if iz <? 16 then (Z.lor (Z.land B C) (Z.land (not32 B) D), iz)
    else if iz <? 32 then
      (Z.lor (Z.land D B) (Z.land (not32 D) C), (5 * iz + 1) mod 16)
    else if iz <? 48 then (Z.lxor (Z.lxor B C) D, (3 * iz + 5) mod 16)
    else (Z.lxor C (Z.lor B (not32 D)), (7 * iz) mod 16) in
  let F' := w32 (F + A + nth i sines 0 + nth (Z.to_nat g) M 0) in
  (D, w32 (B + rotl32 F' (nth i shifts 0)), B, C).

Definition block (st : state) (blk : list Z) : state :=
  let M := map le_word (chunks 16 4 blk) in
  let '(a0, b0, c0, d0) := st in
  let '(A, B, C, D) := fold_left (round M) (seq 0 64) st in
  (w32 (a0 + A), w32 (b0 + B), w32 (c0 + C), w32 (d0 + D)).

Definition init : state := (0x67452301, 0xefcdab89, 0x98badcfe, 0x10325476).

Definition words (st : state) : list Z :=
  let '(A, B, C, D) := st in [A; B; C; D].

Definition digest (msg : list byte) : list Z :=
  let padded := pad (map Z_of_byte msg) in
  let st := fold_left block (chunks (List.length padded) 64 padded) init in
  flat_map (le_bytes 4) (words st).

Definition hex_digit (z : Z) : ascii :=
  nth (Z.to_nat z) (list_ascii_of_string "0123456789abcdef") "0"%char.

Fixpoint hex (bs : list Z) : string :=
  match bs with
  | [] => EmptyString
  | b :: bs' =>
      String (hex_digit (b / 16)) (String (hex_digit (b mod 16)) (hex bs'))
  end.

End MD5.

(** [crypto.createHash('md5').update(buffer).digest('hex')] *)
Definition md5_hex (buffer : list byte) : string := MD5.hex (MD5.digest buffer).

Definition bytes_of_string (s : string) : list byte :=
  map byte_of_ascii (list_ascii_of_string s).

(* ===================================================================== *)
(** * path.extname and path.join (POSIX) *)
(* ===================================================================== *)

(** The variables of the backwards scan of [path.extname]; [stopped] is
    the [break]. Positions are [Z] because the scan uses [-1] for
    "not seen yet". *)
Record ExtScan := mkExtScan {
  startDot : Z;
  startPart : Z;
  end_ : Z;
  matchedSlash : bool;
  preDotState : Z;
  stopped : bool
}.

Definition extname_init : ExtScan :=
  {| startDot := -1; startPart := 0; end_ := -1;
     matchedSlash := true; preDotState := 0; stopped := false |}.

(** One iteration of the loop [for (i = path.length - 1; i >= 0; --i)]. *)
Definition extname_step (st : ExtScan) (ic : Z * ascii) : ExtScan :=
  let '(i, code) := ic in
  if stopped st then st
  else if Ascii.eqb code "/" then
    if negb (matchedSlash st) then
      {| startDot := startDot st; startPart := i + 1; end_ := end_ st;
         matchedSlash := matchedSlash st; preDotState := preDotState st;
         stopped := true |}
    else st
  else
    let ms := if end_ st =? -1 then false else matchedSlash st in
    let en := if end_ st =? -1 then i + 1 else end_ st in
    if Ascii.eqb code "." then
      if startDot st =? -1 then
        {| startDot := i; startPart := startPart st; end_ := en;
           matchedSlash := ms; preDotState := preDotState st; stopped := false |}
      else
        {| startDot := startDot st; startPart := startPart st; end_ := en;
           matchedSlash := ms;
           preDotState := if negb (preDotState st =? 1) then 1 else preDotState st;
           stopped := false |}
    else
      {| startDot := startDot st; startPart := startPart st; end_ := en;
         matchedSlash := ms;
         preDotState := if negb (startDot st =? -1) then -1 else preDotState st;
         stopped := false |}.

Definition indexed (s : string) : list (Z * ascii) :=
  let cs := list_ascii_of_string s in
  combine (map Z.of_nat (seq 0 (List.length cs))) cs.

Definition extname (path : string) : string :=
  let st := fold_left extname_step (rev (indexed path)) extname_init in
  if (startDot st =? -1) || (end_ st =? -1) || (preDotState st =? 0)
     || ((preDotState st =? 1) && (startDot st =? end_ st - 1)
         && (startDot st =? startPart st + 1))
  then ""
  else String.substring (Z.to_nat (startDot st))
                        (Z.to_nat (end_ st - startDot st)) path.

(** [path.join(dir, name)] for a directory without a trailing slash and a
    single-component [name] that is neither [.] nor [..]: normalisation
    changes nothing, the parts are joined with a slash. *)
Definition path_join (dir name : string) : string := dir +:+ "/" +:+ name.

(** Configuration *)
Definition OUTPUT_DIR : string := "captured_data".
Definition TEXTURES_DIR : string := path_join OUTPUT_DIR "textures".
Definition SCRIPTS_DIR : string := path_join OUTPUT_DIR "scripts".
Definition SNAPSHOTS_DIR : string := path_join OUTPUT_DIR "snapshots".
Definition HTTP_LOG_FILE : string := path_join OUTPUT_DIR "http_log.jsonl".
Definition WS_LOG_FILE : string := path_join OUTPUT_DIR "websocket_log.jsonl".
Definition ASSETS_MAP_FILE : string := path_join OUTPUT_DIR "assets_map.json".

(* ===================================================================== *)
(** * Data model *)
(* ===================================================================== *)

(** ** Network objects handed over by the browser driver *)

(** A thrown [Error]; only its [message] is ever looked at. *)
Record Error := mkError { message : string }.

(** The result of an operation that returns or throws (for a promise:
    resolves or rejects). *)
Inductive outcome (A : Type) : Type :=
| Return (a : A)
| Throw (e : Error).
Arguments Return {A} a.
Arguments Throw {A} e.

Record Request := mkRequest {
  request_method : string;
  request_url : string;
  request_headers : gmap string string;
  request_postData : option string;
  request_resourceType : string
}.

Record Response := mkResponse {
  response_request : Request;
  response_url : string;
  response_status : Z;
  response_headers : gmap string string;
  (** what [await response.body()] yields *)
  response_body : outcome (list byte)
}.

(** [response.ok()]: status 0 (no HTTP status, as for [file:] URLs) or
    a status from 200 to 299. *)
Definition response_ok (r : Response) : bool :=
  (response_status r =? 0)
  || ((200 <=? response_status r) && (response_status r <=? 299)).

(** ** Log records *)

(** A WebSocket payload is text or a [Buffer]. *)
Inductive Payload :=
| TextFrame (s : string)
| BinaryFrame (b : list byte).

(** The object literal passed to [logToStream]; the constructor is its
    [type] field, [timestamp] is the instant of [new Date()] in
    milliseconds (printed by [toISOString]). *)
Inductive LogEntry :=
| HTTP_RESPONSE (timestamp : Z) (method url : string) (status : Z)
                (headers : gmap string string) (contentType : option string)
| HTTP_REQUEST (timestamp : Z) (method url : string)
               (headers : gmap string string) (postData : option string)
| WS_SENT (timestamp : Z) (url : string) (payload : Payload)
| WS_RECEIVED (timestamp : Z) (url : string) (payload : Payload).

Definition timestamp_of (e : LogEntry) : Z :=
  match e with
  | HTTP_RESPONSE t _ _ _ _ _ | HTTP_REQUEST t _ _ _ _
  | WS_SENT t _ _ | WS_RECEIVED t _ _ => t
  end.

(** ** The live DOM, as the in-page script reads it *)

Inductive Element :=
| mkElement (tagName id className : string)
            (attributes : list (string * string))
            (computedStyle : string -> string)
            (childNodes : list ChildNode)
with ChildNode :=
| ElementNode (el : Element)
| TextNode (data : string)
| OtherNode (nodeType : Z) (data : string).

Definition el_tagName (el : Element) : string :=
  let 'mkElement t _ _ _ _ _ := el in t.
Definition el_id (el : Element) : string :=
  let 'mkElement _ i _ _ _ _ := el in i.
Definition el_className (el : Element) : string :=
  let 'mkElement _ _ c _ _ _ := el in c.
Definition el_attributes (el : Element) : list (string * string) :=
  let 'mkElement _ _ _ a _ _ := el in a.
(** [window.getComputedStyle(el)], as a function from property names *)
Definition getComputedStyle (el : Element) : string -> string :=
  let 'mkElement _ _ _ _ s _ := el in s.
Definition el_childNodes (el : Element) : list ChildNode :=
  let 'mkElement _ _ _ _ _ c := el in c.

Definition nodeType (n : ChildNode) : Z :=
  match n with
  | ElementNode _ => 1
  | TextNode _ => 3
  | OtherNode t _ => t
  end.

(** [el.children]: the child nodes that are elements *)
Fixpoint elements_of (l : list ChildNode) : list Element :=
  match l with
  | [] => []
  | ElementNode c :: l' => c :: elements_of l'
  | _ :: l' => elements_of l'
  end.

Definition el_children (el : Element) : list Element :=
  elements_of (el_childNodes el).

(** [el.textContent]: the text of all descendant text nodes in order *)
Fixpoint textContent (el : Element) : string :=
  let 'mkElement _ _ _ _ _ cn := el in
  (fix go (l : list ChildNode) : string :=
     match l with
     | [] => ""
     | ElementNode c :: l' => textContent c +:+ go l'
     | TextNode d :: l' => d +:+ go l'
     | OtherNode _ _ :: l' => go l'
     end) cn.

(** ** Objects used as tables *)

(** The keys that an object lists first: an array index is a decimal
    numeral without leading zero whose value is below [2^32 - 1]. *)
Definition digit_value (c : ascii) : option N :=
  let n := N_of_ascii c in
  if ((48 <=? n) && (n <=? 57))%N then Some (n - 48)%N else None.

Fixpoint decimal_value (s : string) (acc : N) : option N :=
  match s with
  | EmptyString => Some acc
  | String c rest =>
      match digit_value c with
      | Some d => decimal_value rest (10 * acc + d)%N
      | None => None
      end
  end.

Definition array_index (key : string) : option N :=
  match key with
  | EmptyString => None
  | String c rest =>
      if Ascii.eqb c "0" && negb (rest =? "")%string then None
      else
        match decimal_value key 0%N with
        | Some n => if (n <? 2 ^ 32 - 1)%N then Some n else None
        | None => None
        end
  end.

(** An object that starts as [{}] and is filled by assignments
    [object[key] = value] with string values: its own properties in the
    order in which [Object.entries] and [JSON.stringify] go through them,
    which is first the keys that are array indices, in ascending order,
    then the other keys in the order in which they were created.
    Assigning to a key that the object has replaces the value and keeps
    the place of the property. *)
Record Dict := mkDict { entries : list (string * string) }.

Fixpoint entries_get (key : string) (l : list (string * string)) : option string :=
  match l with
  | [] => None
  | (k, v) :: rest => if (k =? key)%string then Some v else entries_get key rest
  end.

Fixpoint entries_update (key value : string) (l : list (string * string))
  : list (string * string) :=
  match l with
  | [] => []
  | (k, v) :: rest =>
      if (k =? key)%string then (k, value) :: rest
      else (k, v) :: entries_update key value rest
  end.

(** The place of a new property whose key is the array index [n]: before
    the first property that is not an array index below [n]. *)
Fixpoint entries_add_index (n : N) (kv : string * string)
         (l : list (string * string)) : list (string * string) :=
  match l with
  | [] => [kv]
  | (k, v) :: rest =>
      match array_index k with
      | Some m =>
          if (m <? n)%N then (k, v) :: entries_add_index n kv rest else kv :: l
      | None => kv :: l
      end
  end.

Definition entries_add (key value : string) (l : list (string * string))
  : list (string * string) :=
  match array_index key with
  | Some n => entries_add_index n (key, value) l
  | None => (l ++ [(key, value)])%list
  end.

Definition entries_set (key value : string) (l : list (string * string))
  : list (string * string) :=
  match entries_get key l with
  | Some _ => entries_update key value l
  | None => entries_add key value l
  end.

#[export] Instance dict_empty : Empty Dict := mkDict [].
#[export] Instance dict_lookup : Lookup string string Dict :=
  fun key o => entries_get key (entries o).
#[export] Instance dict_insert : Insert string string Dict :=
  fun key value o => mkDict (entries_set key value (entries o)).
#[export] Instance dict_size : Size Dict := fun o => List.length (entries o).

(** ** The snapshot tree built by [traverse] *)

#[local] Unset Elimination Schemes.
Inductive Node := mkNode {
  node_tagName : string;
  node_id : string;
  node_className : string;
  node_textContent : option string;
  node_attributes : Dict;
  node_styles : list (string * string);
  node_children : list Node
}.
#[local] Set Elimination Schemes.

(** ** Library functions taken as given *)

Class Runtime := {
  (** [new URL(u).pathname], for the absolute URL of a response *)
  URL_pathname : string -> string;
  (** [JSON.stringify(tree)] for a snapshot tree *)
  JSON_stringify : Node -> jsstring;
  (** [JSON.stringify(assetMap, null, 2)] *)
  JSON_stringify_map : Dict -> jsstring
}.

(* ===================================================================== *)
(** * The host process *)
(* ===================================================================== *)

Inductive ConsoleLine :=
| console_log_line (text : string)
| console_error_line (text detail : string).

Record Host := mkHost {
  (** the file system: path to contents *)
  files : gmap string (list byte);
  (** [assetMap]: original URL to local file name, in the order in which
      the URLs were first recorded *)
  assetMap : Dict;
  (** the records written to [httpLogStream] and [wsLogStream], oldest first *)
  http_log : list LogEntry;
  ws_log : list LogEntry;
  console : list ConsoleLine
}.

(** Host code: it reads and updates the [Host] and returns or throws. What
    was done before a throw stays done. *)
Definition M (A : Type) : Type := Host -> Host * outcome A.

Definition ret {A} (a : A) : M A := fun h => (h, Return a).

Definition throw {A} (e : Error) : M A := fun h => (h, Throw e).

Definition bind {A B} (m : M A) (k : A -> M B) : M B :=
  fun h =>
    match m h with
    | (h', Return a) => k a h'
    | (h', Throw e) => (h', Throw e)
    end.

Definition try_catch {A} (body : M A) (handler : Error -> M A) : M A :=
  fun h =>
    match body h with
    | (h', Return a) => (h', Return a)
    | (h', Throw e) => handler e h'
    end.

Declare Scope host_scope.
Delimit Scope host_scope with host.
Notation "'let*' x ':=' m 'in' k" := (bind m (fun x => k))
  (at level 10, x name, m at level 100, k at level 200) : host_scope.
Notation "m '>>' k" := (bind m (fun _ => k))
  (at level 65, right associativity) : host_scope.
Local Open Scope host_scope.

(** ** fs and console *)

(** The four ways host code changes the [Host]. *)
Definition put_file (path : string) (data : list byte) (h : Host) : Host :=
  {| files := <[path := data]> (files h); assetMap := assetMap h;
     http_log := http_log h; ws_log := ws_log h; console := console h |}.

Definition put_asset (url filename : string) (h : Host) : Host :=
  {| files := files h; assetMap := <[url := filename]> (assetMap h);
     http_log := http_log h; ws_log := ws_log h; console := console h |}.

Definition put_console (line : ConsoleLine) (h : Host) : Host :=
  {| files := files h; assetMap := assetMap h; http_log := http_log h;
     ws_log := ws_log h; console := console h ++ [line] |}.

Inductive Stream := httpLogStream | wsLogStream.

Definition put_record (stream : Stream) (data : LogEntry) (h : Host) : Host :=
  match stream with
  | httpLogStream =>
      {| files := files h; assetMap := assetMap h;
         http_log := http_log h ++ [data]; ws_log := ws_log h;
         console := console h |}
  | wsLogStream =>
      {| files := files h; assetMap := assetMap h;
         http_log := http_log h; ws_log := ws_log h ++ [data];
         console := console h |}
  end.

Definition existsSync (path : string) : M bool :=
  fun h => (h, Return (bool_decide (is_Some (files h !! path)))).

(** [fs.writeFileSync(path, data)]; [disk] is [Some e] when the operating
    system refuses the write and the call throws [e]. *)
Definition writeFileSync (disk : option Error) (path : string) (data : list byte)
  : M unit :=
  fun h =>
    match disk with
    | Some e => (h, Throw e)
    | None => (put_file path data h, Return tt)
    end.

Definition console_log (text : string) : M unit :=
  fun h => (put_console (console_log_line text) h, Return tt).

Definition console_error (text detail : string) : M unit :=
  fun h => (put_console (console_error_line text detail) h, Return tt).

(** [assetMap[url] = filename]. The key is the URL of a response, an
    absolute URL, and so never [__proto__], which an assignment does not
    turn into a property. *)
Definition assetMap_set (url filename : string) : M unit :=
  fun h => (put_asset url filename h, Return tt).

(** [await response.body()] *)
Definition await_body (response : Response) : M (list byte) :=
  fun h => (h, response_body response).

(** [logToStream]: one line, [JSON.stringify(data) + '\n'], is appended. *)
Definition logToStream (stream : Stream) (data : LogEntry) : M unit :=
  fun h => (put_record stream data h, Return tt).

Section Capture.
Context `{Runtime}.

(** ** saveSnapshot, exposed to the page *)

(** [now] is what [Date.now()] returns during the call; the string is
    hashed and written in its UTF-8 encoding. *)
Definition saveSnapshot (now : Z) (disk : option Error) (jsonString : jsstring)
  : M unit :=
  try_catch
    (let timestamp := now in
     let hash := String.substring 0 8 (md5_hex (utf8 jsonString)) in
     let filename :=
       "snapshot_" +:+ Number_toString timestamp +:+ "_" +:+ hash +:+ ".json" in
     let filepath := path_join SNAPSHOTS_DIR filename in
     writeFileSync disk filepath (utf8 jsonString) >>
     console_log ("Saved Snapshot: " +:+ filename))
    (fun e => console_error "Failed to save snapshot:" (message e)).

(** ** getExtension *)

Definition getExtension (response : Response) (type : string) : string :=
  let contentType := default "" (response_headers response !! "content-type") in
  if includes contentType "image/png" then ".png"
  else if includes contentType "image/jpeg" then ".jpg"
  else if includes contentType "image/webp" then ".webp"
  else if includes contentType "image/gif" then ".gif"
  else if includes contentType "javascript"
          || includes contentType "application/x-javascript" then ".js"
  else
    let urlExt := extname (URL_pathname (response_url response)) in
    if negb (urlExt =? "")%string then urlExt
    else if (type =? "image")%string then ".png" else ".js".

(** ** saveFile *)

Definition saveFile (disk : option Error) (response : Response)
           (type dir : string) : M unit :=
  try_catch
    (let url := response_url response in
     let* buffer := await_body response in
     let hash := md5_hex buffer in
     let ext := getExtension response type in
     let filename := hash +:+ ext in
     let filepath := path_join dir filename in
     let* present := existsSync filepath in
     (if negb present then
        writeFileSync disk filepath buffer >>
        console_log ("Saved " +:+ type +:+ ": " +:+ url +:+ " -> " +:+ filename)
      else ret tt) >>
     assetMap_set url filename)
    (fun e =>
       console_error
         ("Failed to save " +:+ type +:+ " from " +:+ response_url response +:+ ":")
         (message e)).

(** ** The event handlers *)

(** The response handler up to its first [await]: the record is logged. *)
Definition log_response (now : Z) (response : Response) : M unit :=
  let request := response_request response in
  let url := response_url response in
  logToStream httpLogStream
    (HTTP_RESPONSE now (request_method request) url (response_status response)
                   (response_headers response)
                   (response_headers response !! "content-type")).

(** The rest of the response handler, "Save Assets". *)
Definition save_assets (disk : option Error) (response : Response) : M unit :=
  let type := request_resourceType (response_request response) in
  if response_ok response then
    if (type =? "image")%string then saveFile disk response "image" TEXTURES_DIR
    else if (type =? "script")%string then saveFile disk response "script" SCRIPTS_DIR
    else ret tt
  else ret tt.

(** [page.on('response', ...)], run without interruption. *)
Definition on_response (now : Z) (disk : option Error) (response : Response)
  : M unit :=
  log_response now response >> save_assets disk response.

(** [page.on('request', ...)] *)
Definition on_request (now : Z) (request : Request) : M unit :=
  logToStream httpLogStream
    (HTTP_REQUEST now (request_method request) (request_url request)
                  (request_headers request) (request_postData request)).

(** [page.on('websocket', ...)] and the two frame handlers *)
Definition on_websocket (ws_url : string) : M unit :=
  console_log ("WebSocket opened: " +:+ ws_url).

Definition on_framesent (now : Z) (ws_url : string) (payload : Payload) : M unit :=
  logToStream wsLogStream (WS_SENT now ws_url payload).

Definition on_framereceived (now : Z) (ws_url : string) (payload : Payload)
  : M unit :=
  logToStream wsLogStream (WS_RECEIVED now ws_url payload).

(** ** The event loop *)

(** One turn of the event loop. The response handler is [async]: it logs
    when the event arrives ([ev_response]) and goes on after
    [response.body()] has settled ([ev_response_body]), possibly with other
    turns in between. Each turn carries what the environment answers
    during it. *)
Inductive Event :=
| ev_request (now : Z) (request : Request)
| ev_response (now : Z) (response : Response)
| ev_response_body (disk : option Error) (response : Response)
| ev_websocket (ws_url : string)
| ev_framesent (now : Z) (ws_url : string) (payload : Payload)
| ev_framereceived (now : Z) (ws_url : string) (payload : Payload)
| ev_saveSnapshot (now : Z) (disk : option Error) (jsonString : jsstring).

Definition turn (ev : Event) : M unit :=
  match ev with
  | ev_request now request => on_request now request
  | ev_response now response => log_response now response
  | ev_response_body disk response => save_assets disk response
  | ev_websocket ws_url => on_websocket ws_url
  | ev_framesent now ws_url payload => on_framesent now ws_url payload
  | ev_framereceived now ws_url payload => on_framereceived now ws_url payload
  | ev_saveSnapshot now disk jsonString => saveSnapshot now disk jsonString
  end.

(** The turns of a session in order; a throw that reaches the event loop
    ends the run. *)
Fixpoint run (evs : list Event) : M unit :=
  match evs with
  | [] => ret tt
  | ev :: evs' => turn ev >> run evs'
  end.

(** [JSON.stringify(assetMap, null, 2)], as the bytes written to disk *)
Definition read_assetMap : M (list byte) :=
  fun h => (h, Return (utf8 (JSON_stringify_map (assetMap h)))).

(** After [page.waitForEvent('close')]: "Save Asset Map on exit". *)
Definition shutdown (disk : option Error) : M unit :=
  (let* contents := read_assetMap in
   writeFileSync disk ASSETS_MAP_FILE contents) >>
  console_log "Saved assets map." >>
  console_log "Browser closed. Session ended.".

Definition session (evs : list Event) (disk : option Error) : M unit :=
  run evs >> shutdown disk.

End Capture.

(** ** The first revision, [parser.js]

    It has no asset map and no snapshots; extension inference, the log
    records and the inclusion test are the same. *)
Module ParserJs.
Section Capture.
Context `{Runtime}.

Definition saveFile (disk : option Error) (response : Response)
           (type dir : string) : M unit :=
  try_catch
    (let url := response_url response in
     let* buffer := await_body response in
     let hash := md5_hex buffer in
     let ext := getExtension response type in
     let filename := hash +:+ ext in
     let filepath := path_join dir filename in
     let* present := existsSync filepath in
     if negb present then
       writeFileSync disk filepath buffer >>
       console_log ("Saved " +:+ type +:+ ": " +:+ url +:+ " -> " +:+ filename)
     else ret tt)
    (fun e =>
       console_error
         ("Failed to save " +:+ type +:+ " from " +:+ response_url response +:+ ":")
         (message e)).

Definition save_assets (disk : option Error) (response : Response) : M unit :=
  let type := request_resourceType (response_request response) in
  if response_ok response then
    if (type =? "image")%string then saveFile disk response "image" TEXTURES_DIR
    else if (type =? "script")%string then
      saveFile disk response "script" SCRIPTS_DIR
    else ret tt
  else ret tt.

Definition on_response (now : Z) (disk : option Error) (response : Response)
  : M unit :=
  log_response now response >> save_assets disk response.

End Capture.
End ParserJs.

(* ===================================================================== *)
(** * The snapshot sampler (runs in the page) *)
(* ===================================================================== *)

Definition excluded_tags : list string :=
  ["SCRIPT"; "STYLE"; "NOSCRIPT"; "IFRAME"; "LINK"; "META"; "HEAD"; "TITLE"].

(** [array.includes(x)] on an array of strings *)
Definition Array_includes (array : list string) (x : string) : bool :=
  existsb (String.eqb x) array.

(** The properties copied by [getComputedStyles], in the order of the
    object literal. *)
Definition style_properties : list string :=
  ["display"; "position"; "top"; "left"; "right"; "bottom"; "width"; "height";
   "marginTop"; "marginRight"; "marginBottom"; "marginLeft";
   "paddingTop"; "paddingRight"; "paddingBottom"; "paddingLeft";
   "flexDirection"; "flexWrap"; "justifyContent"; "alignItems"; "alignContent";
   "flexGrow"; "flexShrink";
   "backgroundColor"; "backgroundImage"; "opacity"; "visibility"; "zIndex";
   "borderWidth"; "borderColor"; "borderStyle"; "borderRadius";
   "color"; "fontSize"; "fontFamily"; "fontWeight"; "textAlign"; "whiteSpace"].

(** [window.getComputedStyle] always yields a declaration for an element
    of the document, so the guard [if (!s) return {}] is never taken. *)
Definition getComputedStyles (el : Element) : list (string * string) :=
  let s := getComputedStyle el in
  map (fun property => (property, s property)) style_properties.

(** [object[name] = value] on an object made by a literal, for any
    [name] and a string [value]. The name [__proto__] is not stored: it
    reaches the setter inherited from [Object.prototype], which ignores a
    value that is neither an object nor [null]. Every other name becomes
    (or stays) an own property. *)
Definition assign (name value : string) (o : Dict) : Dict :=
  if (name =? "__proto__")%string then o else <[name := value]> o.

(** [for (const attr of el.attributes) node.attributes[attr.name] = attr.value],
    starting from [attributes: {}] *)
Definition copy_attributes (attrs : list (string * string)) : Dict :=
  fold_left (fun o attr => assign attr.1 attr.2 o) attrs ∅.

(** The text of a node taken into the snapshot: only for an element whose
    single child node is a text node. *)
Definition sole_text (el : Element) : option string :=
  match el_childNodes el with
  | [only] => if nodeType only =? 3 then Some (trim (textContent el)) else None
  | _ => None
  end.

Fixpoint traverse (el : Element) : option Node :=
  match el with
  | mkElement tag _ _ _ _ childNodes =>
      if Array_includes excluded_tags tag then None
      else
        let style := getComputedStyle el in
        if (style "display" =? "none")%string then None
        else
          Some {| node_tagName := el_tagName el;
                  node_id := el_id el;
                  node_className := el_className el;
                  node_textContent := sole_text el;
                  node_attributes := copy_attributes (el_attributes el);
                  node_styles := getComputedStyles el;
                  node_children :=
                    (fix each_child (l : list ChildNode) : list Node :=
                       match l with
                       | [] => []
                       | ElementNode child :: l' =>
                           match traverse child with
                           | Some childNode => childNode :: each_child l'
                           | None => each_child l'
                           end
                       | _ :: l' => each_child l'
                       end) childNodes |}
  end.

(** "Simple string hash" *)
Definition simpleHash_step (hash char : Z) : Z :=
  let hash := (ToInt32 (Z.shiftl (ToInt32 hash) 5) - hash) + char in
  Z.land (ToInt32 hash) (ToInt32 hash).

Definition simpleHash (str : jsstring) : Z := fold_left simpleHash_step str 0.

(** The state the sampler keeps between cycles. *)
Record Sampler := mkSampler { lastHash : string }.

Definition sampler_init : Sampler := {| lastHash := "" |}.

Section Sampling.
Context `{Runtime}.

(** One run of the [setInterval] callback on the current [document.body]
    ([None] when there is no body yet). The result is the new sampler
    state and the string passed to [window.saveSnapshot], if any. *)
Definition check (body : option Element) (s : Sampler)
  : Sampler * option jsstring :=
  match body with
  | None => (s, None)
  | Some body =>
      match traverse body with
      | None => (s, None)
      | Some tree =>
          let jsonString := JSON_stringify tree in
          let currentHash := Number_toString (simpleHash jsonString) in
          if negb (currentHash =? lastHash s)%string
          then ({| lastHash := currentHash |}, Some jsonString)
          else (s, None)
      end
  end.

(** The page and the host together. *)
Record System := mkSystem { page : Sampler; host : Host }.

(** A sampler cycle followed by the host's handling of the forwarded
    snapshot: [now] is the host's [Date.now()], [disk] the fate of its
    write. *)
Definition cycle (body : option Element) (now : Z) (disk : option Error)
           (sys : System) : System * outcome unit :=
  let '(s', forwarded) := check body (page sys) in
  match forwarded with
  | Some jsonString =>
      let '(h', r) := saveSnapshot now disk jsonString (host sys) in
      ({| page := s'; host := h' |}, r)
  | None => ({| page := s'; host := host sys |}, Return tt)
  end.

End Sampling.

(* ===================================================================== *)
(** * A concrete runtime for the worked examples *)
(* ===================================================================== *)

(** The theorems below hold for every [Runtime]. The closed examples run
    on this one: it covers absolute URLs in the form a browser reports
    them and objects whose strings stay below code unit 256. *)
Module Reference.

Definition quote : ascii := ascii_of_nat 34.

Fixpoint drop_through (sep : string) (s : string) : string :=
  if String.prefix sep s then
    String.substring (String.length sep) (String.length s - String.length sep) s
  else
    match s with
    | EmptyString => EmptyString
    | String _ rest => drop_through sep rest
    end.

Fixpoint take_while (keep : ascii -> bool) (s : string) : string :=
  match s with
  | String c rest => if keep c then String c (take_while keep rest) else ""
  | EmptyString => ""
  end.

Fixpoint drop_while (skip : ascii -> bool) (s : string) : string :=
  match s with
  | String c rest => if skip c then drop_while skip rest else s
  | EmptyString => ""
  end.

Definition one_of (set : string) (c : ascii) : bool :=
  existsb (Ascii.eqb c) (list_ascii_of_string set).

(** [scheme://authority/path?query#fragment] to [/path] *)
Definition pathname (u : string) : string :=
  let after_authority :=
    drop_while (fun c => negb (one_of "/?#" c)) (drop_through "://" u) in
  let p := take_while (fun c => negb (one_of "?#" c)) after_authority in
  if (p =? "")%string then "/" else p.

Definition hex4 (n : Z) : string :=
  MD5.hex [n / 256; n mod 256].

Definition escape_char (c : ascii) : string :=
  let n := Z.of_N (N_of_ascii c) in
  if Ascii.eqb c quote then String "\" (String quote "")
  else if Ascii.eqb c "\" then "\\"
  else if n =? 8 then "\b"
  else if n =? 9 then "\t"
  else if n =? 10 then "\n"
  else if n =? 12 then "\f"
  else if n =? 13 then "\r"
  else if n <? 32 then "\u" +:+ hex4 n
  else String c "".

Fixpoint escape (s : string) : string :=
  match s with
  | EmptyString => ""
  | String c rest => escape_char c +:+ escape rest
  end.

Definition str (s : string) : string :=
  String quote (escape s) +:+ String quote "".

Fixpoint join (sep : string) (parts : list string) : string :=
  match parts with
  | [] => ""
  | [p] => p
  | p :: rest => p +:+ sep +:+ join sep rest
  end.

Definition member (kv : string * string) : string :=
  str kv.1 +:+ ":" +:+ str kv.2.

Definition object (members : list (string * string)) : string :=
  "{" +:+ join "," (map member members) +:+ "}".

Fixpoint stringify (n : Node) : string :=
  "{" +:+ str "tagName" +:+ ":" +:+ str (node_tagName n)
  +:+ "," +:+ str "id" +:+ ":" +:+ str (node_id n)
  +:+ "," +:+ str "className" +:+ ":" +:+ str (node_className n)
  +:+ "," +:+ str "textContent" +:+ ":"
      +:+ match node_textContent n with Some t => str t | None => "null" end
  +:+ "," +:+ str "attributes" +:+ ":" +:+ object (entries (node_attributes n))
  +:+ "," +:+ str "styles" +:+ ":" +:+ object (node_styles n)
  +:+ "," +:+ str "children" +:+ ":["
      +:+ join "," ((fix each (l : list Node) : list string :=
                       match l with
                       | [] => []
                       | c :: l' => stringify c :: each l'
                       end) (node_children n))
  +:+ "]}".

Definition newline : string := String (ascii_of_nat 10) "".

Definition stringify_map (m : Dict) : string :=
  match entries m with
  | [] => "{}"
  | members =>
      "{" +:+ newline
      +:+ join ("," +:+ newline)
            (map (fun kv => "  " +:+ str kv.1 +:+ ": " +:+ str kv.2) members)
      +:+ newline +:+ "}"
  end.

#[export] Instance runtime : Runtime := {|
  URL_pathname := pathname;
  JSON_stringify := fun n => codes (stringify n);
  JSON_stringify_map := fun m => codes (stringify_map m)
|}.

End Reference.

(* ===================================================================== *)
(** * Notions used to state the properties *)
(* ===================================================================== *)

(** The file name of an asset: the md5 of its bytes in hexadecimal,
    followed by the inferred extension. *)
Definition asset_filename `{Runtime} (response : Response) (type : string)
           (buffer : list byte) : string :=
  md5_hex buffer +:+ getExtension response type.

(** The eight hexadecimal digits in a snapshot's file name, and the name. *)
Definition short_hash (jsonString : jsstring) : string :=
  String.substring 0 8 (md5_hex (utf8 jsonString)).

Definition snapshot_filename (timestamp : Z) (jsonString : jsstring) : string :=
  "snapshot_" +:+ Number_toString timestamp +:+ "_" +:+ short_hash jsonString
  +:+ ".json".

(** The two console lines of [saveFile]. *)
Definition failed_to_save (type : string) (response : Response) (e : Error)
  : ConsoleLine :=
  console_error_line
    ("Failed to save " +:+ type +:+ " from " +:+ response_url response +:+ ":")
    (message e).

Definition saved (type : string) (response : Response) (filename : string)
  : ConsoleLine :=
  console_log_line
    ("Saved " +:+ type +:+ ": " +:+ response_url response +:+ " -> " +:+ filename).

(** ** Extension inference, as the specification words it *)

(** The fixed table from known content types to extensions, in the order
    in which they are tried. *)
Definition extension_table : list (string * string) :=
  [("image/png", ".png"); ("image/jpeg", ".jpg"); ("image/webp", ".webp");
   ("image/gif", ".gif"); ("javascript", ".js")].

Definition table_extension (contentType : string) : option string :=
  snd <$> find (fun row => includes contentType row.1) extension_table.

Definition category_default (type : string) : string :=
  if (type =? "image")%string then ".png" else ".js".

(** (a) the table, else (b) the extension of the URL's path when it has
    one, else (c) the default of the category. *)
Definition inferred_extension `{Runtime} (response : Response) (type : string)
  : string :=
  match table_extension (default "" (response_headers response !! "content-type")) with
  | Some ext => ext
  | None =>
      let urlExt := extname (URL_pathname (response_url response)) in
      if (urlExt =? "")%string then category_default type else urlExt
  end.

(** ** Running host code *)

(** The host after running [m], and whether [m] returned. *)
Definition after {A} (m : M A) (h : Host) : Host := (m h).1.
Definition result {A} (m : M A) (h : Host) : outcome A := (m h).2.

(** ** The inclusion predicate, as the specification words it *)

Definition tracked (type : string) : Prop := type = "image" \/ type = "script".

Definition included (response : Response) : Prop :=
  response_ok response = true
  /\ tracked (request_resourceType (response_request response)).

(** The directory of a tracked category. *)
Definition category_dir (type : string) : string :=
  if (type =? "image")%string then TEXTURES_DIR else SCRIPTS_DIR.

(** The record the response handler logs, and the one the request handler
    logs. *)
Definition response_record (now : Z) (r : Response) : LogEntry :=
  HTTP_RESPONSE now (request_method (response_request r)) (response_url r)
                (response_status r) (response_headers r)
                (response_headers r !! "content-type").

Definition request_record (now : Z) (q : Request) : LogEntry :=
  HTTP_REQUEST now (request_method q) (request_url q) (request_headers q)
               (request_postData q).

(** ** Sample data for the worked examples *)

Definition empty_host : Host :=
  {| files := ∅; assetMap := ∅; http_log := []; ws_log := []; console := [] |}.

Definition get_request (type url : string) : Request :=
  {| request_method := "GET"; request_url := url; request_headers := ∅;
     request_postData := None; request_resourceType := type |}.

(** A response with status 200 and the given [content-type] header. *)
Definition response_200 (type url contentType : string) (bytes : list byte)
  : Response :=
  {| response_request := get_request type url; response_url := url;
     response_status := 200;
     response_headers := {[ "content-type" := contentType ]};
     response_body := Return bytes |}.

Definition texture_bytes : list byte := bytes_of_string "texture-bytes".

(** The turn [ev] is the capture of a response with URL [url]. *)
Definition ev_captures (ev : Event) (url : string) : Prop :=
  match ev with
  | ev_response_body _ r => included r /\ url = response_url r
  | _ => False
  end.

(** ** Decimal numerals *)

Definition is_digit (c : ascii) : bool :=
  let n := N_of_ascii c in ((48 <=? n) && (n <=? 57))%N.

Fixpoint all_digits (s : string) : bool :=
  match s with
  | EmptyString => true
  | String c rest => is_digit c && all_digits rest
  end.

(** One or more digits, after an optional minus sign. *)
Definition is_decimal (s : string) : bool :=
  match s with
  | EmptyString => false
  | String c rest =>
      if Ascii.eqb c "-" then negb (rest =? "")%string && all_digits rest
      else all_digits s
  end.

(** ** Sampler cycles in sequence *)

Section SamplerRuns.
Context `{Runtime}.

(** The cycles on the successive states of [document.body]; the result is
    the final sampler state and the strings forwarded, oldest first. *)
Fixpoint checks (bodies : list (option Element)) (s : Sampler)
  : Sampler * list jsstring :=
  match bodies with
  | [] => (s, [])
  | body :: rest =>
      let '(s1, forwarded) := check body s in
      let '(s2, later) := checks rest s1 in
      (s2, (option_list forwarded ++ later)%list)
  end.

End SamplerRuns.

(** A cycle that finds no body, or a body that is pruned as a whole. *)
Definition empty_cycle (body : option Element) : Prop :=
  match body with
  | None => True
  | Some b => traverse b = None
  end.

(** ** Positions in the live tree and in the snapshot *)

(** The element is dropped by [traverse]: its tag is excluded or its
    computed [display] is [none]. *)
Definition pruned (el : Element) : bool :=
  Array_includes excluded_tags (el_tagName el)
  || (getComputedStyle el "display" =? "none")%string.

(** The element reached from [el] by following [el.children] indices. *)
Fixpoint at_path (el : Element) (p : list nat) : option Element :=
  match p with
  | [] => Some el
  | i :: p' =>
      match el_children el !! i with
      | Some child => at_path child p'
      | None => None
      end
  end.

(** The node reached from [n] by following [children] indices. *)
Fixpoint node_at (n : Node) (q : list nat) : option Node :=
  match q with
  | [] => Some n
  | j :: q' =>
      match node_children n !! j with
      | Some child => node_at child q'
      | None => None
      end
  end.

(** Every element on the way from [root] to the position [p] is kept. *)
Definition kept_along (root : Element) (p : list nat) : Prop :=
  forall p1 p2 a, p = (p1 ++ p2)%list -> at_path root p1 = Some a -> pruned a = false.

(** The [j]-th of the children that [traverse] keeps: its index among all
    children, and the child. *)
Fixpoint kept_child (children : list Element) (j : nat) : option (nat * Element) :=
  match children with
  | [] => None
  | c :: rest =>
      if pruned c then prod_map S id <$> kept_child rest j
      else
        match j with
        | O => Some (O, c)
        | S j' => prod_map S id <$> kept_child rest j'
        end
  end.

(** Where a node of the snapshot comes from: the position in the live tree
    of the element that the node at position [q] of the snapshot of [root]
    was built from. *)
Fixpoint origin (root : Element) (q : list nat) : option (list nat) :=
  if pruned root then None
  else
    match q with
    | [] => Some []
    | j :: q' =>
        match kept_child (el_children root) j with
        | Some (i, child) => cons i <$> origin child q'
        | None => None
        end
    end.

(** The element at position [p] of the live tree appears in the snapshot. *)
Definition appears (root : Element) (p : list nat) : Prop :=
  exists q, origin root q = Some p.

(** The object literal of [traverse] for [el], with the given children. *)
Definition node_of (el : Element) (children : list Node) : Node :=
  {| node_tagName := el_tagName el;
     node_id := el_id el;
     node_className := el_className el;
     node_textContent := sole_text el;
     node_attributes := copy_attributes (el_attributes el);
     node_styles := getComputedStyles el;
     node_children := children |}.

(** ** Sample documents *)

Definition style_of (display opacity : string) : string -> string :=
  fun property =>
    if (property =? "display")%string then display
    else if (property =? "opacity")%string then opacity
    else "".

Definition element (tag : string) (style : string -> string)
           (childNodes : list ChildNode) : Element :=
  mkElement tag "" "" [] style childNodes.

(** A body with a script element (which has a child of its own) and a
    paragraph of opacity 0 holding the text [ hi ]. *)
Definition sample_body : Element :=
  element "BODY" (style_of "block" "1")
    [ElementNode (element "SCRIPT" (style_of "block" "1")
                    [ElementNode (element "B" (style_of "inline" "1")
                                    [TextNode "x"])]);
     ElementNode (element "P" (style_of "block" "0") [TextNode " hi "])].

(** The same page after a change of the paragraph. *)
Definition sample_body_changed : Element :=
  element "BODY" (style_of "block" "1")
    [ElementNode (element "P" (style_of "block" "0") [TextNode "bye"])].

(** ** The records a session writes *)

(** The records that a list of turns appends to [http_log.jsonl]: one for
    each request and one for each response, in the order of the turns. *)
Definition http_record (ev : Event) : option LogEntry :=
  match ev with
  | ev_request now q => Some (request_record now q)
  | ev_response now r => Some (response_record now r)
  | _ => None
  end.

Definition http_records (evs : list Event) : list LogEntry := omap http_record evs.

(** Likewise for [websocket_log.jsonl]: one for each frame. *)
Definition ws_record (ev : Event) : option LogEntry :=
  match ev with
  | ev_framesent now u p => Some (WS_SENT now u p)
  | ev_framereceived now u p => Some (WS_RECEIVED now u p)
  | _ => None
  end.

Definition ws_records (evs : list Event) : list LogEntry := omap ws_record evs.

(** The wall-clock reading taken during a turn, if it takes one. *)
Definition reading (ev : Event) : option Z :=
  match ev with
  | ev_request now _ | ev_response now _ | ev_framesent now _ _
  | ev_framereceived now _ _ | ev_saveSnapshot now _ _ => Some now
  | ev_response_body _ _ | ev_websocket _ => None
  end.

Definition readings (evs : list Event) : list Z := omap reading evs.

(** Two hosts that differ at most in what the console shows. *)
Definition same_data (h1 h2 : Host) : Prop :=
  files h1 = files h2 /\ assetMap h1 = assetMap h2
  /\ http_log h1 = http_log h2 /\ ws_log h1 = ws_log h2.

(** A response whose body cannot be read any more. *)
Definition broken_response (type url : string) : Response :=
  {| response_request := get_request type url; response_url := url;
     response_status := 200; response_headers := ∅;
     response_body := Throw {| message := "Target page has been closed" |} |}.

(** The page and the host at the start of a session on an empty capture
    directory. *)
Definition fresh_system : System :=
  {| page := sampler_init; host := empty_host |}.

(* ===================================================================== *)
(** * Further notions: the hash, the sampler over time, the capture store *)
(* ===================================================================== *)

(** The value of a string as a polynomial in 31 over the integers, before
    any wrap-around. *)
Definition polynomial31 (str : jsstring) : Z :=
  fold_left (fun h c => 31 * h + c) str 0.

(** A paragraph with the given text in a body. *)
Definition page_with_text (text : string) : Element :=
  element "BODY" (style_of "block" "1")
    [ElementNode (element "P" (style_of "block" "1") [TextNode text])].

(** The printed hash of a serialised snapshot, as the sampler stores it. *)
Definition printed_hash (jsonString : jsstring) : string :=
  Number_toString (simpleHash jsonString).

(** Two strings forwarded one after the other have different hashes. *)
Definition hashes_differ (json1 json2 : jsstring) : Prop :=
  simpleHash json1 <> simpleHash json2.

(** No element of the tree under [root] is pruned. *)
Definition nothing_pruned (root : Element) : Prop :=
  forall p d, at_path root p = Some d -> pruned d = false.

(** The string begins, respectively ends, with white space. *)
Definition starts_with_space (s : string) : bool :=
  match s with
  | String c _ => is_white_space c
  | EmptyString => false
  end.

Definition ends_with_space (s : string) : bool :=
  starts_with_space (string_rev s).

(** The list without its leading white space. *)
Fixpoint dropwhile_space (l : list ascii) : list ascii :=
  match l with
  | c :: rest => if is_white_space c then dropwhile_space rest else l
  | [] => []
  end.

(** Properties are listed in two groups: those whose key is an array
    index, and the others, which we call named. *)
Definition named (attr : string * string) : bool :=
  match array_index attr.1 with
  | Some _ => false
  | None => true
  end.

(** Both keys are array indices and the first is not above the second. *)
Definition index_le (a b : string * string) : Prop :=
  match array_index a.1, array_index b.1 with
  | Some m, Some n => (m <= n)%N
  | _, _ => False
  end.

(** A page with one image that has the given attributes. *)
Definition page_with_image (attrs : list (string * string)) : Element :=
  element "BODY" (style_of "block" "1")
    [ElementNode (mkElement "IMG" "" "" attrs (style_of "inline" "1") [])].

(** The attributes that the loop of [traverse] stores: all but one named
    [__proto__]. *)
Definition stored (attr : string * string) : bool :=
  negb (attr.1 =? "__proto__")%string.

(** The file at [p] with contents [c] is named after its contents: an
    asset in a category directory under the md5 of its bytes and some
    extension, or a snapshot under the short hash of the string it holds. *)
Definition named_by_content (p : string) (c : list byte) : Prop :=
  (exists type ext, p = path_join (category_dir type) (md5_hex c +:+ ext))
  \/ (exists now jsonString,
        c = utf8 jsonString
        /\ p = path_join SNAPSHOTS_DIR (snapshot_filename now jsonString)).

(** A file of that name exists in one of the two category directories. *)
Definition asset_on_disk (h : Host) (filename : string) : Prop :=
  is_Some (files h !! path_join TEXTURES_DIR filename)
  \/ is_Some (files h !! path_join SCRIPTS_DIR filename).

(** Turns that only append a log record, and turns that only save. *)
Definition logs_only (ev : Event) : Prop :=
  match ev with
  | ev_request _ _ | ev_response _ _ | ev_framesent _ _ _
  | ev_framereceived _ _ _ => True
  | _ => False
  end.

Definition saves_only (ev : Event) : Prop :=
  match ev with
  | ev_response_body _ _ | ev_saveSnapshot _ _ _ => True
  | _ => False
  end.

(** ** The backwards scan of path.extname *)

(** [l] lists the positions [hi - 1], [hi - 2], ... of [cs] with the
    characters found there, as the loop of [path.extname] visits them. *)
Fixpoint scanned (cs : list ascii) (hi : Z) (l : list (Z * ascii)) : Prop :=
  match l with
  | [] => True
  | (i, c) :: l' =>
      i = hi - 1 /\ 0 <= i /\ nth_error cs (Z.to_nat i) = Some c
      /\ scanned cs i l'
  end.

(** What the scan has established when it has visited the positions from
    [b] on: [end_] lies behind them, [startDot] is a dot before [end_], and
    no slash lies in the part that can become the extension. *)
Definition scan_ok (cs : list ascii) (b : Z) (st : ExtScan) : Prop :=
  (end_ st = -1 \/ b < end_ st <= Z.of_nat (List.length cs))
  /\ (startDot st = -1
      \/ (0 <= startDot st < end_ st
          /\ nth_error cs (Z.to_nat (startDot st)) = Some "."%char
          /\ forall j, startDot st <= j < end_ st ->
                       nth_error cs (Z.to_nat j) <> Some "/"%char))
  /\ (stopped st = false -> end_ st <> -1 ->
      forall j, b <= j < end_ st -> nth_error cs (Z.to_nat j) <> Some "/"%char)
  /\ (stopped st = false -> matchedSlash st = true -> end_ st = -1).

(** [name] is a single path component of a file: not empty, not [.] or
    [..], and without a slash. *)
Definition one_component (name : string) : Prop :=
  name <> "" /\ name <> "." /\ name <> ".."
  /\ ~ In "/"%char (list_ascii_of_string name).

(* ===================================================================== *)
(** * Start-up: the output directories *)
(* ===================================================================== *)

(** The four statements that run before anything else,
    [if (!fs.existsSync(D)) fs.mkdirSync(D);], over the entries of the
    working directory. The capture code proper never creates or removes a
    directory, so it is modelled over the files alone; here the kinds of
    the entries matter and the contents do not. *)
Module Startup.

(** What is at a path: a directory, a regular file, or a symbolic link
    whose target does not exist. A link to something that exists counts as
    what it points to, as it does for [stat] and when a path is resolved. *)
Inductive Kind := directory | regular | dangling.

(** The entries under the working directory, by relative path. *)
Abbreviation Tree := (gmap string Kind).

Definition EEXIST : Error := {| message := "EEXIST: file already exists" |}.
Definition ENOENT : Error := {| message := "ENOENT: no such file or directory" |}.
Definition ENOTDIR : Error := {| message := "ENOTDIR: not a directory" |}.

(** The directory that holds the entry [path], for a relative path without
    a trailing slash; [.] is the working directory. *)
Fixpoint drop_component (reversed : list ascii) : list ascii :=
  match reversed with
  | c :: rest => if Ascii.eqb c "/" then rest else drop_component rest
  | [] => []
  end.

Definition dirname (path : string) : string :=
  match rev (drop_component (rev (list_ascii_of_string path))) with
  | [] => "."
  | dir => string_of_list_ascii dir
  end.

(** [fs.existsSync(path)] follows links: it answers [false] for a link
    whose target does not exist, although there is an entry at [path]. *)
Definition existsSync (path : string) (t : Tree) : bool :=
  match t !! path with
  | Some directory | Some regular => true
  | Some dangling | None => false
  end.

(** [fs.mkdirSync(path)], not recursive. It throws [EEXIST] when there is
    any entry at [path], a dangling link included; [ENOENT] or [ENOTDIR]
    when the directory that should hold the entry is missing or is not a
    directory; and the error [refuse path] when the operating system
    refuses for a reason of its own (permissions, a read-only or full
    disk). Otherwise the directory is there afterwards. *)
Definition mkdirSync (refuse : string -> option Error) (path : string)
           (t : Tree) : Tree * outcome unit :=
  match t !! path with
  | Some _ => (t, Throw EEXIST)
  | None =>
      let parent :=
        if (dirname path =? ".")%string then Some directory
        else t !! dirname path in
      match parent with
      | None | Some dangling => (t, Throw ENOENT)
      | Some regular => (t, Throw ENOTDIR)
      | Some directory =>
          match refuse path with
          | Some e => (t, Throw e)
          | None => (<[path := directory]> t, Return tt)
          end
      end
  end.

(** [if (!fs.existsSync(dir)) fs.mkdirSync(dir);] *)
Definition ensure_dir (refuse : string -> option Error) (dir : string)
           (t : Tree) : Tree * outcome unit :=
  if negb (existsSync dir t) then mkdirSync refuse dir t else (t, Return tt).

(** Statements in sequence: a throw ends the script. *)
Definition and_then (first next : Tree -> Tree * outcome unit)
  : Tree -> Tree * outcome unit :=
  fun t =>
    match first t with
    | (t', Return _) => next t'
    | (t', Throw e) => (t', Throw e)
    end.

Definition ensure_output_directories (refuse : string -> option Error)
  : Tree -> Tree * outcome unit :=
  and_then (ensure_dir refuse OUTPUT_DIR)
    (and_then (ensure_dir refuse TEXTURES_DIR)
       (and_then (ensure_dir refuse SCRIPTS_DIR)
          (ensure_dir refuse SNAPSHOTS_DIR))).

Definition output_directories : list string :=
  [OUTPUT_DIR; TEXTURES_DIR; SCRIPTS_DIR; SNAPSHOTS_DIR].

(** [t'] has everything [t] has, and beyond that only new directories
    among the four. *)
Definition grows (t t' : Tree) : Prop :=
  forall p,
    t' !! p = t !! p
    \/ (t !! p = None /\ t' !! p = Some directory /\ In p output_directories).

End Startup.

(* ===================================================================== *)
(** * Checks of the library functions on known values *)
(* ===================================================================== *)

Example md5_empty : md5_hex [] = "d41d8cd98f00b204e9800998ecf8427e".
Proof. vm_compute. reflexivity. Qed.

Example md5_abc : md5_hex (bytes_of_string "abc") = "900150983cd24fb0d6963f7d28e17f72".
Proof. vm_compute. reflexivity. Qed.

Example md5_two_blocks :
  md5_hex (bytes_of_string
    "12345678901234567890123456789012345678901234567890123456789012345678901234567890")
  = "57edf4a22be3c955ac49da2e2107b67a".
Proof. vm_compute. reflexivity. Qed.

Example extname_png : extname "/img/hero.png" = ".png".
Proof. reflexivity. Qed.

Example extname_dotfile : extname "/img/.hidden" = "".
Proof. reflexivity. Qed.

Example extname_last : extname "/a/app.min.js" = ".js".
Proof. reflexivity. Qed.

Example extname_trailing_slash : extname "/a/b.gif/" = ".gif".
Proof. reflexivity. Qed.

Example pathname_query : Reference.pathname "https://skazka.mobi/img/a.png?v=3" = "/img/a.png".
Proof. reflexivity. Qed.

Example pathname_root : Reference.pathname "https://skazka.mobi" = "/".
Proof. reflexivity. Qed.

Example extname_none : extname "/img/hero" = "".
Proof. reflexivity. Qed.

Example extname_dir_dot : extname "/v1.2/hero" = "".
Proof. reflexivity. Qed.

Example extname_dotdot : extname "/a/.." = "".
Proof. reflexivity. Qed.

(* ===================================================================== *)
(** * Objects used as tables *)
(* ===================================================================== *)

Lemma entries_get_update (l : list (string * string)) (key key' value : string) :
  entries_get key' (entries_update key value l)
  = if (key =? key')%string then (fun _ => value) <$> entries_get key l
    else entries_get key' l.
Proof.
  induction l as [|[k v] l IH]; simpl.
  - now destruct (key =? key')%string.
  - destruct (String.eqb_spec k key) as [->|Hk]; simpl.
    + destruct (String.eqb_spec key key'); reflexivity.
    + rewrite IH. destruct (String.eqb_spec key key') as [<-|Hne].
      * destruct (String.eqb_spec k key); [contradiction | reflexivity].
      * reflexivity.
Qed.

Lemma entries_get_add_index (l : list (string * string)) (n : N)
      (key key' value : string) :
  entries_get key l = None ->
  entries_get key' (entries_add_index n (key, value) l)
  = if (key =? key')%string then Some value else entries_get key' l.
Proof.
  induction l as [|[k v] l IH]; simpl; [reflexivity|].
  destruct (String.eqb_spec k key) as [->|Hk]; [discriminate|]. intros Hnone.
  assert (Hhere : entries_get key' ((key, value) :: (k, v) :: l)
                  = if (key =? key')%string then Some value
                    else if (k =? key')%string then Some v else entries_get key' l)
    by reflexivity.
  destruct (array_index k) as [m|]; [|exact Hhere].
  destruct (m <? n)%N; [|exact Hhere].
  simpl. rewrite (IH Hnone).
  destruct (String.eqb_spec key key') as [<-|Hne]; [|reflexivity].
  destruct (String.eqb_spec k key); [contradiction | reflexivity].
Qed.

Lemma entries_get_app (l : list (string * string)) (key key' value : string) :
  entries_get key l = None ->
  entries_get key' (l ++ [(key, value)])
  = if (key =? key')%string then Some value else entries_get key' l.
Proof.
  induction l as [|[k v] l IH]; simpl; [reflexivity|].
  destruct (String.eqb_spec k key) as [->|Hk]; [discriminate|]. intros Hnone.
  rewrite (IH Hnone).
  destruct (String.eqb_spec key key') as [<-|Hne]; [|reflexivity].
  destruct (String.eqb_spec k key); [contradiction | reflexivity].
Qed.

Lemma entries_get_set (l : list (string * string)) (key key' value : string) :
  entries_get key' (entries_set key value l)
  = if (key =? key')%string then Some value else entries_get key' l.
Proof.
  unfold entries_set, entries_add.
  destruct (entries_get key l) as [old|] eqn:Hk.
  - rewrite entries_get_update, Hk. reflexivity.
  - destruct (array_index key);
      [now apply entries_get_add_index | now apply entries_get_app].
Qed.

Lemma entries_get_set_eq (l : list (string * string)) (key value : string) :
  entries_get key (entries_set key value l) = Some value.
Proof. now rewrite entries_get_set, String.eqb_refl. Qed.

Lemma entries_get_set_ne (l : list (string * string)) (key key' value : string) :
  key <> key' ->
  entries_get key' (entries_set key value l) = entries_get key' l.
Proof.
  intros Hne. rewrite entries_get_set.
  destruct (String.eqb_spec key key'); [contradiction | reflexivity].
Qed.

Lemma entries_set_new (l : list (string * string)) (key value : string) :
  entries_get key l = None ->
  array_index key = None ->
  entries_set key value l = (l ++ [(key, value)])%list.
Proof. intros Hk Hi. unfold entries_set, entries_add. now rewrite Hk, Hi. Qed.

Lemma entries_update_keys (l : list (string * string)) (key value : string) :
  map fst (entries_update key value l) = map fst l.
Proof.
  induction l as [|[k v] l IH]; simpl; [reflexivity|].
  destruct (String.eqb_spec k key); [reflexivity|]. simpl. now rewrite IH.
Qed.

Lemma entries_set_keys (l : list (string * string)) (key value : string) :
  is_Some (entries_get key l) ->
  map fst (entries_set key value l) = map fst l.
Proof.
  intros [old Hk]. unfold entries_set. rewrite Hk. apply entries_update_keys.
Qed.

Lemma dict_lookup_insert_eq (o : Dict) (key value : string) :
  <[key := value]> o !! key = Some value.
Proof. apply entries_get_set_eq. Qed.

Lemma dict_lookup_insert_ne (o : Dict) (key key' value : string) :
  key <> key' -> <[key := value]> o !! key' = o !! key'.
Proof. apply entries_get_set_ne. Qed.

Lemma dict_lookup_empty (key : string) : (∅ : Dict) !! key = None.
Proof. reflexivity. Qed.

(** A new key that is not an array index goes to the end; a key that is
    there keeps its place. *)
Lemma dict_insert_new (o : Dict) (key value : string) :
  o !! key = None ->
  array_index key = None ->
  entries (<[key := value]> o) = (entries o ++ [(key, value)])%list.
Proof. apply entries_set_new. Qed.

Lemma dict_insert_old (o : Dict) (key value : string) :
  is_Some (o !! key) ->
  map fst (entries (<[key := value]> o)) = map fst (entries o).
Proof. apply entries_set_keys. Qed.

(* ===================================================================== *)
(** * What one call of saveFile and saveSnapshot does *)
(* ===================================================================== *)

Ltac run_host :=
  unfold try_catch, bind, ret, throw, await_body, existsSync, writeFileSync,
    console_log, console_error, assetMap_set, logToStream; simpl.

Section CaptureFacts.
Context `{Runtime}.

Lemma saveFile_body_fails disk r type dir h e :
  response_body r = Throw e ->
  saveFile disk r type dir h = (put_console (failed_to_save type r e) h, Return tt).
Proof.
  intros Hb. unfold saveFile. run_host. rewrite Hb. reflexivity.
Qed.

Lemma saveFile_present disk r type dir h b :
  response_body r = Return b ->
  is_Some (files h !! path_join dir (asset_filename r type b)) ->
  saveFile disk r type dir h
  = (put_asset (response_url r) (asset_filename r type b) h, Return tt).
Proof.
  intros Hb Hp. unfold saveFile. run_host. rewrite Hb.
  change (md5_hex b +:+ getExtension r type) with (asset_filename r type b).
  rewrite bool_decide_eq_true_2 by exact Hp. reflexivity.
Qed.

Lemma saveFile_written r type dir h b :
  response_body r = Return b ->
  files h !! path_join dir (asset_filename r type b) = None ->
  saveFile None r type dir h
  = (put_asset (response_url r) (asset_filename r type b)
       (put_console (saved type r (asset_filename r type b))
          (put_file (path_join dir (asset_filename r type b)) b h)),
     Return tt).
Proof.
  intros Hb Hp. unfold saveFile. run_host. rewrite Hb.
  change (md5_hex b +:+ getExtension r type) with (asset_filename r type b).
  rewrite bool_decide_eq_false_2; [reflexivity|].
  rewrite Hp. intros [? ?]; discriminate.
Qed.

Lemma saveFile_write_fails r type dir h b e :
  response_body r = Return b ->
  files h !! path_join dir (asset_filename r type b) = None ->
  saveFile (Some e) r type dir h
  = (put_console (failed_to_save type r e) h, Return tt).
Proof.
  intros Hb Hp. unfold saveFile. run_host. rewrite Hb.
  change (md5_hex b +:+ getExtension r type) with (asset_filename r type b).
  rewrite bool_decide_eq_false_2; [reflexivity|].
  rewrite Hp. intros [? ?]; discriminate.
Qed.

(** The four cases are all there is. *)
Lemma saveFile_cases disk r type dir h :
  (exists e, saveFile disk r type dir h
             = (put_console (failed_to_save type r e) h, Return tt))
  \/ (exists b,
        response_body r = Return b /\
        is_Some (files h !! path_join dir (asset_filename r type b)) /\
        saveFile disk r type dir h
        = (put_asset (response_url r) (asset_filename r type b) h, Return tt))
  \/ (exists b,
        response_body r = Return b /\ disk = None /\
        files h !! path_join dir (asset_filename r type b) = None /\
        saveFile disk r type dir h
        = (put_asset (response_url r) (asset_filename r type b)
             (put_console (saved type r (asset_filename r type b))
                (put_file (path_join dir (asset_filename r type b)) b h)),
           Return tt)).
Proof.
  destruct (response_body r) as [b|e] eqn:Hb.
  - destruct (files h !! path_join dir (asset_filename r type b)) as [old|] eqn:Hp.
    + right; left. exists b. split; [reflexivity|]. split; [eauto|].
      apply saveFile_present; eauto.
    + destruct disk as [e|].
      * left. exists e. eapply saveFile_write_fails; eauto.
      * right; right. exists b. repeat split; auto.
        apply saveFile_written; auto.
  - left. exists e. apply saveFile_body_fails; auto.
Qed.

Lemma saveSnapshot_written now jsonString h :
  saveSnapshot now None jsonString h
  = (put_console
       (console_log_line ("Saved Snapshot: " +:+ snapshot_filename now jsonString))
       (put_file (path_join SNAPSHOTS_DIR (snapshot_filename now jsonString))
                 (utf8 jsonString) h),
     Return tt).
Proof. reflexivity. Qed.

Lemma saveSnapshot_write_fails now e jsonString h :
  saveSnapshot now (Some e) jsonString h
  = (put_console (console_error_line "Failed to save snapshot:" (message e)) h,
     Return tt).
Proof. reflexivity. Qed.

End CaptureFacts.

(* ===================================================================== *)
(** * Strings *)
(* ===================================================================== *)

Lemma append_cons (x : ascii) (a b : string) :
  String x a +:+ b = String x (a +:+ b).
Proof. reflexivity. Qed.

Lemma append_nil_l (b : string) : "" +:+ b = b.
Proof. reflexivity. Qed.

Lemma append_assoc (a b c : string) : (a +:+ b) +:+ c = a +:+ (b +:+ c).
Proof.
  induction a as [|x a IH]; [reflexivity|].
  rewrite !append_cons. f_equal. exact IH.
Qed.

Lemma append_nil_r (a : string) : a +:+ "" = a.
Proof.
  induction a as [|x a IH]; [reflexivity|].
  rewrite append_cons. f_equal. exact IH.
Qed.

Lemma append_inj_r (a x y : string) : a +:+ x = a +:+ y -> x = y.
Proof.
  induction a as [|c a IH]; [now rewrite !append_nil_l|].
  rewrite !append_cons. intros [= Heq]. exact (IH Heq).
Qed.

Lemma length_append (a b : string) :
  String.length (a +:+ b) = (String.length a + String.length b)%nat.
Proof.
  induction a as [|x a IH]; [reflexivity|].
  rewrite append_cons. simpl. f_equal. exact IH.
Qed.

Lemma prefix_nil (s : string) : String.prefix "" s = true.
Proof. destruct s; reflexivity. Qed.

Lemma prefix_cons (x y : ascii) (p s : string) :
  String.prefix (String x p) (String y s)
  = if ascii_dec x y then String.prefix p s else false.
Proof. reflexivity. Qed.

Lemma prefix_spec (p s : string) :
  String.prefix p s = true <-> exists rest, s = p +:+ rest.
Proof.
  revert s. induction p as [|x p IH]; intros s.
  - rewrite prefix_nil. split; [intros _; exists s; reflexivity | reflexivity].
  - destruct s as [|y s].
    + split; [discriminate | intros [rest Hr]; rewrite append_cons in Hr; discriminate].
    + rewrite prefix_cons. destruct (ascii_dec x y) as [->|Hne].
      * rewrite IH. split; intros [rest Hr]; exists rest;
          rewrite ?append_cons in *; congruence.
      * split; [discriminate | intros [rest Hr]; rewrite append_cons in Hr; congruence].
Qed.

Lemma includes_nil (needle : string) :
  includes "" needle = String.prefix needle "".
Proof. simpl. apply orb_false_r. Qed.

Lemma includes_cons (c : ascii) (rest needle : string) :
  includes (String c rest) needle
  = String.prefix needle (String c rest) || includes rest needle.
Proof. reflexivity. Qed.

Lemma includes_spec (haystack needle : string) :
  includes haystack needle = true
  <-> exists before after, haystack = before +:+ needle +:+ after.
Proof.
  induction haystack as [|c rest IH].
  - rewrite includes_nil, prefix_spec. split.
    + intros [after Ha]. exists "", after. exact Ha.
    + intros [before [after Ha]]. destruct before as [|x before].
      * exists after. exact Ha.
      * rewrite append_cons in Ha. discriminate.
  - rewrite includes_cons, orb_true_iff, prefix_spec, IH. split.
    + intros [[after Ha] | [before [after Ha]]].
      * exists "", after. exact Ha.
      * exists (String c before), after. rewrite append_cons. now rewrite Ha.
    + intros [before [after Ha]]. destruct before as [|x before].
      * left. exists after. exact Ha.
      * right. exists before, after. rewrite append_cons in Ha. congruence.
Qed.

(** A string that contains [a ++ b] contains [b]. *)
Lemma includes_suffix_of_needle (haystack a b : string) :
  includes haystack (a +:+ b) = true -> includes haystack b = true.
Proof.
  rewrite !includes_spec. intros [before [after Ha]].
  exists (before +:+ a), after. subst haystack.
  now rewrite (append_assoc a b after), (append_assoc before a).
Qed.

(* ===================================================================== *)
(** * Extension inference *)
(* ===================================================================== *)

Section ExtensionFacts.
Context `{Runtime}.

Lemma javascript_test (contentType : string) :
  includes contentType "javascript"
  || includes contentType "application/x-javascript"
  = includes contentType "javascript".
Proof.
  destruct (includes contentType "javascript") eqn:Hj; [reflexivity|].
  destruct (includes contentType "application/x-javascript") eqn:Hx; [|reflexivity].
  apply (includes_suffix_of_needle contentType "application/x-" "javascript") in Hx.
  congruence.
Qed.

(** C3. For every response, [getExtension] returns (a) the extension of the
    fixed table when the content type matches one of its known strings,
    else (b) the extension of the URL's path when that is not empty, else
    (c) the default of the category, [.png] for images and [.js] for
    scripts; a response with content type [image/webp] gets [.webp]
    whatever its URL ends in. *)
Theorem getExtension_order (response : Response) (type : string) :
  getExtension response type = inferred_extension response type
  /\ category_default "image" = ".png"
  /\ category_default "script" = ".js"
  /\ (response_headers response !! "content-type" = Some "image/webp" ->
      getExtension response type = ".webp").
Proof.
  split; [|split; [reflexivity|split; [reflexivity|]]].
  - unfold getExtension, inferred_extension, table_extension, category_default.
    rewrite javascript_test.
    set (contentType := default "" (response_headers response !! "content-type")).
    simpl.
    destruct (includes contentType "image/png"); [reflexivity|].
    destruct (includes contentType "image/jpeg"); [reflexivity|].
    destruct (includes contentType "image/webp"); [reflexivity|].
    destruct (includes contentType "image/gif"); [reflexivity|].
    destruct (includes contentType "javascript"); [reflexivity|].
    simpl. destruct (extname _ =? "")%string; reflexivity.
  - intros Hct. unfold getExtension. rewrite Hct. reflexivity.
Qed.

End ExtensionFacts.

(** The case of the specification: content type [image/webp], URL ending
    in [.jpg]. *)
Lemma getExtension_order_witness :
  let r := response_200 "image" "https://skazka.mobi/img/photo.jpg" "image/webp"
                        texture_bytes in
  response_headers r !! "content-type" = Some "image/webp"
  /\ getExtension (H := Reference.runtime) r "image" = ".webp".
Proof.
  intros r.
  assert (Hct : response_headers r !! "content-type" = Some "image/webp")
    by reflexivity.
  split; [exact Hct|].
  destruct (getExtension_order (H := Reference.runtime) r "image")
    as (_ & _ & _ & Hwebp).
  exact (Hwebp Hct).
Defined.

(* ===================================================================== *)
(** * Turns of the event loop *)
(* ===================================================================== *)

Section TurnFacts.
Context `{Runtime}.

Lemma saveFile_returns disk r type dir h :
  result (saveFile disk r type dir) h = Return tt.
Proof.
  unfold result.
  destruct (saveFile_cases disk r type dir h)
    as [[e ->] | [[b (_ & _ & ->)] | [b (_ & _ & _ & ->)]]]; reflexivity.
Qed.

Lemma save_assets_returns disk r h : result (save_assets disk r) h = Return tt.
Proof.
  unfold save_assets.
  destruct (response_ok r); [|reflexivity].
  destruct (_ =? "image")%string; [apply saveFile_returns|].
  destruct (_ =? "script")%string; [apply saveFile_returns | reflexivity].
Qed.

Lemma turn_returns ev h : result (turn ev) h = Return tt.
Proof.
  destruct ev as [now q | now r | disk r | u | now u p | now u p | now disk j];
    simpl; try reflexivity.
  - apply save_assets_returns.
  - destruct disk; reflexivity.
Qed.

Lemma run_cons ev evs h : run (ev :: evs) h = run evs (after (turn ev) h).
Proof.
  simpl. unfold bind, after. pose proof (turn_returns ev h) as Hr.
  unfold result in Hr. destruct (turn ev h) as [h' r]. simpl in *. now subst r.
Qed.

Lemma run_returns evs h : result (run evs) h = Return tt.
Proof.
  revert h. induction evs as [|ev evs IH]; intros h; [reflexivity|].
  unfold result. rewrite run_cons. apply IH.
Qed.

Lemma after_run_cons ev evs h :
  after (run (ev :: evs)) h = after (run evs) (after (turn ev) h).
Proof. unfold after at 1. now rewrite run_cons. Qed.

Lemma after_run_app evs1 evs2 h :
  after (run (evs1 ++ evs2)) h = after (run evs2) (after (run evs1) h).
Proof.
  revert h. induction evs1 as [|ev evs1 IH]; intros h; [reflexivity|].
  rewrite <- app_comm_cons, !after_run_cons. apply IH.
Qed.

(** What [save_assets] amounts to. *)
Lemma save_assets_included disk r :
  included r ->
  save_assets disk r
  = saveFile disk r (request_resourceType (response_request r))
             (category_dir (request_resourceType (response_request r))).
Proof.
  intros [Hok [Ht | Ht]]; unfold save_assets, category_dir;
    rewrite Hok, Ht; reflexivity.
Qed.

Lemma save_assets_not_included disk r : ~ included r -> save_assets disk r = ret tt.
Proof.
  intros Hn. unfold save_assets.
  destruct (response_ok r) eqn:Hok; [|reflexivity].
  destruct (String.eqb_spec (request_resourceType (response_request r)) "image")
    as [Hi|Hi].
  { exfalso. apply Hn. split; [assumption | left; assumption]. }
  destruct (String.eqb_spec (request_resourceType (response_request r)) "script")
    as [Hs|Hs]; [|reflexivity].
  exfalso. apply Hn. split; [assumption | right; assumption].
Qed.

Lemma included_dec r : included r \/ ~ included r.
Proof.
  unfold included, tracked.
  destruct (response_ok r); [|right; intros [? _]; discriminate].
  destruct (String.eqb_spec (request_resourceType (response_request r)) "image");
    [left; auto|].
  destruct (String.eqb_spec (request_resourceType (response_request r)) "script");
    [left; auto|].
  right. intros [_ [?|?]]; contradiction.
Qed.

(** Files are never removed: what exists stays. *)
Lemma saveFile_keeps_files disk r type dir h p :
  is_Some (files h !! p) -> is_Some (files (after (saveFile disk r type dir) h) !! p).
Proof.
  intros Hp. unfold after.
  destruct (saveFile_cases disk r type dir h)
    as [[e ->] | [[b (_ & _ & ->)] | [b (_ & _ & _ & ->)]]]; simpl; auto.
  destruct (decide (path_join dir (asset_filename r type b) = p)) as [->|Hne].
  - rewrite lookup_insert_eq. eauto.
  - now rewrite lookup_insert_ne.
Qed.

Lemma save_assets_keeps_files disk r h p :
  is_Some (files h !! p) -> is_Some (files (after (save_assets disk r) h) !! p).
Proof.
  intros Hp. destruct (included_dec r) as [Hi|Hi].
  - rewrite save_assets_included by assumption. now apply saveFile_keeps_files.
  - rewrite save_assets_not_included by assumption. exact Hp.
Qed.

Lemma turn_keeps_files ev h p :
  is_Some (files h !! p) -> is_Some (files (after (turn ev) h) !! p).
Proof.
  intros Hp.
  destruct ev as [now q | now r | disk r | u | now u q | now u q | now disk j];
    try exact Hp.
  - now apply save_assets_keeps_files.
  - destruct disk as [e|]; [exact Hp|].
    unfold after. simpl turn. rewrite saveSnapshot_written. simpl.
    destruct (decide (path_join SNAPSHOTS_DIR (snapshot_filename now j) = p))
      as [->|Hne].
    + rewrite lookup_insert_eq. eauto.
    + now rewrite lookup_insert_ne.
Qed.

Lemma run_keeps_files evs h p :
  is_Some (files h !! p) -> is_Some (files (after (run evs) h) !! p).
Proof.
  revert h. induction evs as [|ev evs IH]; intros h Hp; [exact Hp|].
  rewrite after_run_cons. apply IH. now apply turn_keeps_files.
Qed.

End TurnFacts.

(* ===================================================================== *)
(** * The response handler *)
(* ===================================================================== *)

Section ResponseFacts.
Context `{Runtime}.

Lemma saveFile_logs disk r type dir h :
  http_log (after (saveFile disk r type dir) h) = http_log h
  /\ ws_log (after (saveFile disk r type dir) h) = ws_log h.
Proof.
  unfold after.
  destruct (saveFile_cases disk r type dir h)
    as [[e ->] | [[b (_ & _ & ->)] | [b (_ & _ & _ & ->)]]]; split; reflexivity.
Qed.

Lemma save_assets_logs disk r h :
  http_log (after (save_assets disk r) h) = http_log h
  /\ ws_log (after (save_assets disk r) h) = ws_log h.
Proof.
  destruct (included_dec r) as [Hi|Hi].
  - rewrite save_assets_included by assumption. apply saveFile_logs.
  - rewrite save_assets_not_included by assumption. split; reflexivity.
Qed.

Lemma after_on_response now disk r h :
  after (on_response now disk r) h
  = after (save_assets disk r) (put_record httpLogStream (response_record now r) h).
Proof. reflexivity. Qed.

(** The first revision writes the same files. *)
Lemma ParserJs_saveFile_files disk r type dir h :
  files (after (ParserJs.saveFile disk r type dir) h)
  = files (after (saveFile disk r type dir) h)
  /\ result (ParserJs.saveFile disk r type dir) h = Return tt.
Proof.
  unfold after, result, ParserJs.saveFile, saveFile. run_host.
  destruct (response_body r) as [b|e]; [|split; reflexivity].
  destruct (bool_decide _); simpl; [split; reflexivity|].
  destruct disk; split; reflexivity.
Qed.

Lemma ParserJs_save_assets_files disk r h :
  files (after (ParserJs.save_assets disk r) h)
  = files (after (save_assets disk r) h).
Proof.
  unfold ParserJs.save_assets, save_assets.
  destruct (response_ok r); [|reflexivity].
  destruct (_ =? "image")%string; [apply ParserJs_saveFile_files|].
  destruct (_ =? "script")%string; [apply ParserJs_saveFile_files | reflexivity].
Qed.

(** C4. For every completed response the body is persisted as an asset if
    and only if the response is successful and the resource type of its
    request is [image] or [script]: a response that fails either condition
    leaves the category directories (and the asset map) untouched, and is
    logged all the same; an included response whose body can be read and
    whose write is accepted is on disk afterwards, under its content name
    in the directory of its category. Both revisions of the handler write
    the same files. *)
Theorem inclusion_predicate (now : Z) (disk : option Error) (r : Response)
        (h : Host) :
  let type := request_resourceType (response_request r) in
  let h' := after (on_response now disk r) h in
  http_log h' = (http_log h ++ [response_record now r])%list
  /\ (~ included r -> files h' = files h /\ assetMap h' = assetMap h)
  /\ (files h' <> files h -> included r)
  /\ (included r ->
      forall b, response_body r = Return b -> disk = None ->
        files h' !! path_join (category_dir type) (asset_filename r type b)
        = Some (default b
                  (files h !! path_join (category_dir type)
                                        (asset_filename r type b))))
  /\ files (after (ParserJs.on_response now disk r) h) = files h'.
Proof.
  intros type h'. subst h'. rewrite after_on_response.
  set (h1 := put_record httpLogStream (response_record now r) h).
  assert (Hnot : ~ included r ->
                 files (after (save_assets disk r) h1) = files h
                 /\ assetMap (after (save_assets disk r) h1) = assetMap h).
  { intros Hn. rewrite save_assets_not_included by assumption.
    split; reflexivity. }
  split; [|split; [exact Hnot|split; [|split]]].
  - destruct (save_assets_logs disk r h1) as [-> _]. reflexivity.
  - intros Hch. destruct (included_dec r) as [Hi|Hn]; [exact Hi|].
    exfalso. apply Hch. now apply Hnot.
  - intros Hi b Hb ->. rewrite save_assets_included by assumption. fold type.
    unfold after.
    destruct (files h1 !! path_join (category_dir type) (asset_filename r type b))
      as [old|] eqn:Hp.
    + rewrite (saveFile_present None r type _ h1 b Hb) by eauto.
      simpl in *. rewrite Hp. reflexivity.
    + rewrite (saveFile_written r type _ h1 b Hb Hp).
      simpl in *. rewrite Hp. simpl. apply lookup_insert_eq.
  - unfold ParserJs.on_response, on_response.
    change (files (after (ParserJs.save_assets disk r) h1)
            = files (after (save_assets disk r) h1)).
    apply ParserJs_save_assets_files.
Qed.

End ResponseFacts.

(** An image served with status 200 is included; its bytes are on disk
    after the handler has run on an empty capture directory. *)
Lemma inclusion_predicate_witness :
  let r := response_200 "image" "https://skazka.mobi/img/hero.png" "image/png"
                        texture_bytes in
  included r
  /\ files (after (on_response (H := Reference.runtime) 1000 None r) empty_host)
       !! "captured_data/textures/c1c26a0316c71738fd738800a40e77cd.png"
     = Some texture_bytes.
Proof.
  intros r.
  assert (Hi : included r) by (split; [reflexivity | left; reflexivity]).
  split; [exact Hi|].
  destruct (inclusion_predicate (H := Reference.runtime) 1000 None r empty_host)
    as (_ & _ & _ & Hp & _).
  pose proof (Hp Hi texture_bytes eq_refl eq_refl) as Hf.
  assert (Hpath :
    path_join (category_dir (request_resourceType (response_request r)))
              (asset_filename (H := Reference.runtime) r
                 (request_resourceType (response_request r)) texture_bytes)
    = "captured_data/textures/c1c26a0316c71738fd738800a40e77cd.png")
    by (vm_compute; reflexivity).
  rewrite Hpath in Hf. exact Hf.
Defined.

(* ===================================================================== *)
(** * Deduplication by content hash *)
(* ===================================================================== *)

(** C1 as stated, that identical bytes give exactly one file in a category,
    fails when the two responses are given different extensions: the same
    bytes served as [image/png] and as [image/jpeg] are stored twice in
    [textures/]. *)
Lemma dedup_counterexample :
  let r1 := response_200 "image" "https://skazka.mobi/img/a.png" "image/png"
                         texture_bytes in
  let r2 := response_200 "image" "https://skazka.mobi/img/b.jpg" "image/jpeg"
                         texture_bytes in
  let h := after (run (H := Reference.runtime)
                      [ev_response 1 r1; ev_response_body None r1;
                       ev_response 2 r2; ev_response_body None r2])
                 empty_host in
  included r1 /\ included r2
  /\ response_body r1 = response_body r2
  /\ files h !! "captured_data/textures/c1c26a0316c71738fd738800a40e77cd.png"
     = Some texture_bytes
  /\ files h !! "captured_data/textures/c1c26a0316c71738fd738800a40e77cd.jpg"
     = Some texture_bytes
  /\ size (files h) = 2%nat.
Proof. vm_compute. auto 10. Qed.

Section DedupFacts.
Context `{Runtime}.

Lemma saveFile_other_files disk r type dir h p :
  (forall b, response_body r = Return b ->
             p <> path_join dir (asset_filename r type b)) ->
  files (after (saveFile disk r type dir) h) !! p = files h !! p.
Proof.
  intros Hp. unfold after.
  destruct (saveFile_cases disk r type dir h)
    as [[e ->] | [[b (_ & _ & ->)] | [b (Hb & _ & _ & ->)]]]; try reflexivity.
  simpl. apply lookup_insert_ne. intros Heq. exact (Hp b Hb (eq_sym Heq)).
Qed.

(** C1, amended. For tracked successful responses with identical body bytes
    and the same inferred extension, exactly one asset file is produced
    within a category: the capturer names the file by the md5 hash of the
    body followed by the extension and skips the write when a file exists at
    that path. The two captures touch no other path; once the file is there
    (as it is after the first capture when its write is accepted) a later
    response with the same bytes and extension writes nothing, whatever its
    URL and whatever happened in between, and its URL is mapped to the same
    file name. *)
Theorem dedup_by_hash_and_extension
        (r1 r2 : Response) (type dir : string) (b : list byte)
        (evs : list Event) (disk1 disk2 : option Error) (h : Host) :
  response_body r1 = Return b ->
  response_body r2 = Return b ->
  getExtension r1 type = getExtension r2 type ->
  let name := md5_hex b +:+ getExtension r1 type in
  let h1 := after (saveFile disk1 r1 type dir) h in
  let h2 := after (run evs) h1 in
  let h3 := after (saveFile disk2 r2 type dir) h2 in
  (forall p, p <> path_join dir name ->
             files h1 !! p = files h !! p /\ files h3 !! p = files h2 !! p)
  /\ (disk1 = None ->
      is_Some (files h1 !! path_join dir name)
      /\ assetMap h1 !! response_url r1 = Some name)
  /\ (is_Some (files h1 !! path_join dir name) ->
      files h3 = files h2
      /\ assetMap h3 !! response_url r2 = Some name).
Proof.
  intros Hb1 Hb2 Hext name h1 h2 h3.
  assert (Hn1 : asset_filename r1 type b = name) by reflexivity.
  assert (Hn2 : asset_filename r2 type b = name).
  { unfold asset_filename. rewrite <- Hext. reflexivity. }
  split; [|split].
  - intros p Hp. split.
    + apply saveFile_other_files. intros b' Hb'.
      rewrite Hb1 in Hb'. injection Hb' as <-. now rewrite Hn1.
    + apply saveFile_other_files. intros b' Hb'.
      rewrite Hb2 in Hb'. injection Hb' as <-. now rewrite Hn2.
  - intros ->. subst h1. unfold after.
    destruct (files h !! path_join dir name) as [old|] eqn:Hp.
    + rewrite (saveFile_present None r1 type dir h b Hb1)
        by (rewrite Hn1, Hp; eauto).
      simpl. rewrite Hn1, Hp. split; [eauto | apply dict_lookup_insert_eq].
    + rewrite (saveFile_written r1 type dir h b Hb1) by (rewrite Hn1; exact Hp).
      simpl. rewrite Hn1, lookup_insert_eq, dict_lookup_insert_eq. eauto.
  - intros Hsome.
    assert (Hsome2 : is_Some (files h2 !! path_join dir name)).
    { subst h2. now apply run_keeps_files. }
    subst h3. unfold after.
    rewrite (saveFile_present disk2 r2 type dir h2 b Hb2) by (now rewrite Hn2).
    simpl. rewrite Hn2. split; [reflexivity | apply dict_lookup_insert_eq].
Qed.

End DedupFacts.

(** The scenario of the specification: [/a.png] and [/b.png] with the same
    bytes, an unrelated request in between. *)
Lemma dedup_by_hash_and_extension_witness :
  let r1 := response_200 "image" "https://skazka.mobi/a.png" "image/png"
                         texture_bytes in
  let r2 := response_200 "image" "https://skazka.mobi/b.png" "image/png"
                         texture_bytes in
  let between := [ev_request 5 (get_request "image" "https://skazka.mobi/b.png")] in
  let h1 := after (saveFile (H := Reference.runtime) None r1 "image" TEXTURES_DIR)
                  empty_host in
  let h2 := after (run (H := Reference.runtime) between) h1 in
  let h3 := after (saveFile (H := Reference.runtime) None r2 "image" TEXTURES_DIR)
                  h2 in
  files h3 = files h2
  /\ assetMap h1 !! "https://skazka.mobi/a.png"
     = Some "c1c26a0316c71738fd738800a40e77cd.png"
  /\ assetMap h3 !! "https://skazka.mobi/b.png"
     = Some "c1c26a0316c71738fd738800a40e77cd.png".
Proof.
  intros r1 r2 between h1 h2 h3.
  destruct (dedup_by_hash_and_extension (H := Reference.runtime)
              r1 r2 "image" TEXTURES_DIR texture_bytes between None None empty_host
              eq_refl eq_refl eq_refl)
    as (_ & Hfirst & Hsecond).
  destruct (Hfirst eq_refl) as [Hsome Hmap1].
  destruct (Hsecond Hsome) as [Hfiles Hmap2].
  assert (Hname : md5_hex texture_bytes
                  +:+ getExtension (H := Reference.runtime) r1 "image"
                  = "c1c26a0316c71738fd738800a40e77cd.png")
    by (vm_compute; reflexivity).
  rewrite Hname in Hmap1, Hmap2.
  split; [exact Hfiles | split; [exact Hmap1 | exact Hmap2]].
Defined.

(* ===================================================================== *)
(** * The asset map *)
(* ===================================================================== *)

Section AssetMapFacts.
Context `{Runtime}.

Lemma category_path_not_map (type name : string) :
  path_join (category_dir type) name <> ASSETS_MAP_FILE.
Proof.
  unfold category_dir. destruct (type =? "image")%string;
    intros Heq; vm_compute in Heq; discriminate.
Qed.

Lemma snapshot_path_not_map (name : string) :
  path_join SNAPSHOTS_DIR name <> ASSETS_MAP_FILE.
Proof. intros Heq; vm_compute in Heq; discriminate. Qed.

Lemma saveFile_map_file disk r type h :
  files (after (saveFile disk r type (category_dir type)) h) !! ASSETS_MAP_FILE
  = files h !! ASSETS_MAP_FILE.
Proof.
  unfold after.
  destruct (saveFile_cases disk r type (category_dir type) h)
    as [[e ->] | [[b (_ & _ & ->)] | [b (_ & _ & _ & ->)]]]; try reflexivity.
  simpl. apply lookup_insert_ne, category_path_not_map.
Qed.

Lemma turn_map_file ev h :
  files (after (turn ev) h) !! ASSETS_MAP_FILE = files h !! ASSETS_MAP_FILE.
Proof.
  destruct ev as [now q | now r | disk r | u | now u q | now u q | now disk j];
    try reflexivity.
  - simpl turn. destruct (included_dec r) as [Hi|Hi].
    + rewrite save_assets_included by assumption. apply saveFile_map_file.
    + rewrite save_assets_not_included by assumption. reflexivity.
  - destruct disk as [e|]; [reflexivity|].
    unfold after. simpl turn. rewrite saveSnapshot_written. simpl.
    apply lookup_insert_ne, snapshot_path_not_map.
Qed.

Lemma run_map_file evs h :
  files (after (run evs) h) !! ASSETS_MAP_FILE = files h !! ASSETS_MAP_FILE.
Proof.
  revert h. induction evs as [|ev evs IH]; intros h; [reflexivity|].
  rewrite after_run_cons, IH. apply turn_map_file.
Qed.

(** A turn leaves the asset map alone or adds one entry to it. *)
Lemma turn_assetMap ev h :
  assetMap (after (turn ev) h) = assetMap h
  \/ exists url filename,
       ev_captures ev url
       /\ assetMap (after (turn ev) h) = <[url := filename]> (assetMap h).
Proof.
  destruct ev as [now q | now r | disk r | u | now u q | now u q | now disk j];
    try (left; reflexivity).
  - simpl turn. destruct (included_dec r) as [Hi|Hi].
    + rewrite save_assets_included by assumption. unfold after.
      destruct (saveFile_cases disk r (request_resourceType (response_request r))
                  (category_dir (request_resourceType (response_request r))) h)
        as [[e ->] | [[b (_ & _ & ->)] | [b (_ & _ & _ & ->)]]];
        [left; reflexivity | right | right];
        (eexists _, _; split; [split; [exact Hi | reflexivity] | reflexivity]).
    + rewrite save_assets_not_included by assumption. left; reflexivity.
  - left. destruct disk; reflexivity.
Qed.

Lemma after_session evs disk h :
  after (session evs disk) h = after (shutdown disk) (after (run evs) h).
Proof.
  unfold session, after, bind. pose proof (run_returns evs h) as Hr.
  unfold result in Hr. destruct (run evs h) as [h' r]. simpl in *. now subst r.
Qed.

(** C6, amended. For every response whose capture succeeds (the body could
    be read, and the file was already there or the write was accepted), the
    entry from its URL to the file name is recorded in the asset map
    whether or not a new file was written. The file name is the hash
    followed by the inferred extension, so two URLs with the same bytes
    point at the same file name exactly when their inferred extensions
    agree. The map is built one entry at a time by the turns of the
    session: a URL recorded for the first time is added at the end (a URL
    is not an array index, which would make the object list it before the
    other keys), a URL recorded again keeps its place and takes the new
    file name. No turn
    writes [assets_map.json]; the shutdown writes it once, with the map as
    it is then, over whatever the file held before. *)
Theorem assetMap_behaviour :
  (forall disk r type dir h b,
      response_body r = Return b ->
      is_Some (files h !! path_join dir (asset_filename r type b)) \/ disk = None ->
      assetMap (after (saveFile disk r type dir) h)
      = <[response_url r := asset_filename r type b]> (assetMap h))
  /\ (forall r1 r2 type b,
        asset_filename r1 type b = asset_filename r2 type b
        <-> getExtension r1 type = getExtension r2 type)
  /\ (forall disk r type dir h b,
        response_body r = Return b ->
        is_Some (files h !! path_join dir (asset_filename r type b)) \/ disk = None ->
        let url := response_url r in
        let m := assetMap h in
        let m' := assetMap (after (saveFile disk r type dir) h) in
        (m !! url = None -> array_index url = None ->
         entries m' = (entries m ++ [(url, asset_filename r type b)])%list)
        /\ (is_Some (m !! url) -> map fst (entries m') = map fst (entries m))
        /\ m' !! url = Some (asset_filename r type b)
        /\ (forall url', url <> url' -> m' !! url' = m !! url'))
  /\ (forall ev h,
        assetMap (after (turn ev) h) = assetMap h
        \/ exists url filename,
             ev_captures ev url
             /\ assetMap (after (turn ev) h) = <[url := filename]> (assetMap h))
  /\ (forall evs h,
        files (after (run evs) h) !! ASSETS_MAP_FILE = files h !! ASSETS_MAP_FILE)
  /\ (forall evs h,
        let h' := after (run evs) h in
        files (after (session evs None) h) !! ASSETS_MAP_FILE
        = Some (utf8 (JSON_stringify_map (assetMap h')))
        /\ (forall p, p <> ASSETS_MAP_FILE ->
                      files (after (session evs None) h) !! p = files h' !! p)
        /\ result (session evs None) h = Return tt).
Proof.
  assert (Hrec : forall disk r type dir h b,
      response_body r = Return b ->
      is_Some (files h !! path_join dir (asset_filename r type b)) \/ disk = None ->
      assetMap (after (saveFile disk r type dir) h)
      = <[response_url r := asset_filename r type b]> (assetMap h)).
  { intros disk r type dir h b Hb [Hp | ->]; unfold after.
    + rewrite (saveFile_present disk r type dir h b Hb Hp). reflexivity.
    + destruct (files h !! path_join dir (asset_filename r type b)) as [old|] eqn:Hp.
      * rewrite (saveFile_present None r type dir h b Hb) by (rewrite Hp; eauto).
        reflexivity.
      * rewrite (saveFile_written r type dir h b Hb Hp). reflexivity. }
  split; [exact Hrec|].
  split; [|split; [|split; [exact turn_assetMap|split; [exact run_map_file|]]]].
  - intros r1 r2 type b. unfold asset_filename. split.
    + apply append_inj_r.
    + intros ->. reflexivity.
  - intros disk r type dir h b Hb Hok url m m'. subst m'.
    rewrite (Hrec disk r type dir h b Hb Hok). fold url m.
    split; [apply dict_insert_new|].
    split; [apply dict_insert_old|].
    split; [apply dict_lookup_insert_eq|].
    intros url'. apply dict_lookup_insert_ne.
  - intros evs h h'. rewrite after_session. fold h'. repeat split.
    + apply lookup_insert_eq.
    + intros p Hne. unfold after. simpl. now apply lookup_insert_ne.
    + unfold result, session, bind. pose proof (run_returns evs h) as Hr.
      unfold result in Hr. destruct (run evs h) as [h1 r1]. simpl in *.
      subst r1. reflexivity.
Qed.

End AssetMapFacts.

(** The second of two URLs with the same bytes is recorded although the
    disk refuses every write by then: the file is already there. *)
Lemma assetMap_behaviour_witness :
  let r1 := response_200 "image" "https://skazka.mobi/a.png" "image/png"
                         texture_bytes in
  let r2 := response_200 "image" "https://skazka.mobi/b.png" "image/png"
                         texture_bytes in
  let name := asset_filename (H := Reference.runtime) r2 "image" texture_bytes in
  let h1 := after (saveFile (H := Reference.runtime) None r1 "image" TEXTURES_DIR)
                  empty_host in
  let read_only := Some {| message := "EROFS: read-only file system" |} in
  is_Some (files h1 !! path_join TEXTURES_DIR name)
  /\ assetMap (after (saveFile (H := Reference.runtime) read_only r2 "image"
                               TEXTURES_DIR) h1)
     = <["https://skazka.mobi/b.png" := name]> (assetMap h1).
Proof.
  intros r1 r2 name h1 read_only.
  assert (Hs : is_Some (files h1 !! path_join TEXTURES_DIR name))
    by (vm_compute; eauto).
  split; [exact Hs|].
  destruct (assetMap_behaviour (H := Reference.runtime)) as (Hrec & _).
  exact (Hrec read_only r2 "image" TEXTURES_DIR h1 texture_bytes eq_refl
              (or_introl Hs)).
Defined.

(** C6 as stated says that two URLs whose bodies have the same hash point
    at the same file name. They do not when the inferred extensions
    differ: the same bytes served as [image/png] under one URL and as
    [image/jpeg] under another are recorded under two file names. *)
Lemma assetMap_counterexample :
  let a := response_200 "image" "https://skazka.mobi/a.png" "image/png"
                        texture_bytes in
  let b := response_200 "image" "https://skazka.mobi/b.jpg" "image/jpeg"
                        texture_bytes in
  let h := after (run (H := Reference.runtime)
                      [ev_response_body None a; ev_response_body None b])
                 empty_host in
  response_body a = response_body b
  /\ entries (assetMap h)
     = [("https://skazka.mobi/a.png", "c1c26a0316c71738fd738800a40e77cd.png");
        ("https://skazka.mobi/b.jpg", "c1c26a0316c71738fd738800a40e77cd.jpg")]
  /\ assetMap h !! "https://skazka.mobi/a.png"
     <> assetMap h !! "https://skazka.mobi/b.jpg".
Proof. vm_compute. repeat split; discriminate. Qed.

(* ===================================================================== *)
(** * The sampler's hash and its printed form *)
(* ===================================================================== *)

Lemma string_of_uint_digits (d : Decimal.uint) :
  all_digits (NilEmpty.string_of_uint d) = true.
Proof. induction d; simpl; auto. Qed.

Lemma NilZero_string_of_uint_decimal (d : Decimal.uint) :
  NilZero.string_of_uint d <> ""
  /\ all_digits (NilZero.string_of_uint d) = true.
Proof.
  destruct d; simpl; (split; [discriminate|]);
    try reflexivity; apply (string_of_uint_digits d).
Qed.

Lemma Number_toString_decimal (z : Z) :
  Number_toString z <> "" /\ is_decimal (Number_toString z) = true.
Proof.
  unfold Number_toString. destruct (Z.to_int z) as [d|d]; simpl.
  - destruct (NilZero_string_of_uint_decimal d) as [Hne Hd]. split; [exact Hne|].
    unfold is_decimal.
    destruct (NilZero.string_of_uint d) as [|c rest] eqn:Hs; [contradiction|].
    destruct (Ascii.eqb_spec c "-") as [->|_]; [|exact Hd].
    simpl in Hd. discriminate.
  - destruct (NilZero_string_of_uint_decimal d) as [Hne Hd]. split; [discriminate|].
    unfold is_decimal. simpl.
    destruct (NilZero.string_of_uint d) as [|c rest]; [contradiction|exact Hd].
Qed.

Lemma to_int_not_nil (z : Z) : Z.to_int z <> Pos Nil /\ Z.to_int z <> Neg Nil.
Proof.
  destruct z as [|p|p]; simpl; split; try discriminate;
    intros [= Hp]; exact (DecimalPos.Unsigned.to_uint_nonnil p Hp).
Qed.

Lemma Number_toString_inj (a b : Z) :
  Number_toString a = Number_toString b -> a = b.
Proof.
  unfold Number_toString. intros Heq.
  apply DecimalZ.to_int_inj.
  destruct (to_int_not_nil a) as [Ha1 Ha2], (to_int_not_nil b) as [Hb1 Hb2].
  pose proof (NilZero.isi (Z.to_int a) Ha1 Ha2) as Hia.
  pose proof (NilZero.isi (Z.to_int b) Hb1 Hb2) as Hib.
  rewrite Heq in Hia. congruence.
Qed.

Lemma ToInt32_range (z : Z) : - 2 ^ 31 <= ToInt32 z < 2 ^ 31.
Proof.
  unfold ToInt32. pose proof (Z.mod_pos_bound z (2 ^ 32) ltac:(lia)) as Hm.
  destruct (z mod 2 ^ 32 <? 2 ^ 31) eqn:Hlt; [apply Z.ltb_lt in Hlt | apply Z.ltb_ge in Hlt];
    lia.
Qed.

(** "Convert to 32bit integer": the hash stays a 32-bit integer. *)
Lemma simpleHash_int32 (str : jsstring) : - 2 ^ 31 <= simpleHash str < 2 ^ 31.
Proof.
  unfold simpleHash.
  assert (Hgen : forall acc, - 2 ^ 31 <= acc < 2 ^ 31 ->
                             - 2 ^ 31 <= fold_left simpleHash_step str acc < 2 ^ 31).
  { induction str as [|c str IH]; intros acc Hacc; [exact Hacc|].
    simpl. apply IH. unfold simpleHash_step. rewrite Z.land_diag.
    apply ToInt32_range. }
  apply Hgen. lia.
Qed.

Example simpleHash_abc : simpleHash (codes "abc") = 96354.
Proof. reflexivity. Qed.

(* ===================================================================== *)
(** * The change gate *)
(* ===================================================================== *)

Section GateFacts.
Context `{Runtime}.

Lemma check_empty body s : empty_cycle body -> check body s = (s, None).
Proof.
  destruct body as [b|]; simpl; [|reflexivity]. intros ->. reflexivity.
Qed.

Lemma check_same b tree s :
  traverse b = Some tree ->
  Number_toString (simpleHash (JSON_stringify tree)) = lastHash s ->
  check (Some b) s = (s, None).
Proof.
  intros Ht Heq. unfold check. rewrite Ht, Heq, String.eqb_refl. reflexivity.
Qed.

Lemma check_changed b tree s :
  traverse b = Some tree ->
  Number_toString (simpleHash (JSON_stringify tree)) <> lastHash s ->
  check (Some b) s
  = ({| lastHash := Number_toString (simpleHash (JSON_stringify tree)) |},
     Some (JSON_stringify tree)).
Proof.
  intros Ht Hne. unfold check. rewrite Ht.
  apply String.eqb_neq in Hne. rewrite Hne. reflexivity.
Qed.

(** C10. The stored hash starts as the empty string and the printed hash of
    any string is a non-empty decimal numeral, so the first snapshot that is
    computed at all is forwarded, however many empty cycles came before it;
    a cycle without a body, or with a body that is pruned as a whole,
    forwards nothing and leaves the stored hash as it was. *)
Theorem first_snapshot_forwarded :
  lastHash sampler_init = ""
  /\ (forall str : jsstring,
        Number_toString (simpleHash str) <> ""
        /\ is_decimal (Number_toString (simpleHash str)) = true)
  /\ (forall body s, empty_cycle body -> check body s = (s, None))
  /\ (forall bodies b tree,
        Forall empty_cycle bodies ->
        traverse b = Some tree ->
        checks (bodies ++ [Some b]) sampler_init
        = ({| lastHash := Number_toString (simpleHash (JSON_stringify tree)) |},
           [JSON_stringify tree])).
Proof.
  split; [reflexivity|].
  split; [intros str; apply Number_toString_decimal|].
  split; [exact check_empty|].
  intros bodies b tree Hempty Ht.
  induction Hempty as [|body bodies Hb _ IH].
  - simpl app. unfold checks.
    rewrite (check_changed b tree sampler_init Ht); [reflexivity|].
    simpl. apply Number_toString_decimal.
  - rewrite <- app_comm_cons. simpl checks. rewrite (check_empty body _ Hb).
    rewrite IH. reflexivity.
Qed.

(** C2, amended. On a sampler cycle that computes a tree: if the printed
    hash of the serialised tree equals the stored one, nothing is forwarded,
    no file is written and nothing changes; if it differs, the string is
    forwarded once, the stored hash becomes the new hash, and the host runs
    [saveSnapshot] on it once. That call writes the string under
    [snapshot_{timestamp}_{shortHash}.json] when the write is accepted and
    writes nothing when it is refused. So exactly one new file appears
    exactly when the write is accepted and no file of that name is there
    yet; otherwise (a refused write, or a name that is taken, whose file is
    overwritten) the number of files stays as it was. The stored hash
    changes exactly when a forward occurs. *)
Theorem snapshot_change_gate (b : Element) (tree : Node) (now : Z)
        (disk : option Error) (sys : System) :
  traverse b = Some tree ->
  let jsonString := JSON_stringify tree in
  let currentHash := Number_toString (simpleHash jsonString) in
  let forwarded := (check (Some b) (page sys)).2 in
  let sys' := (cycle (Some b) now disk sys).1 in
  let path := path_join SNAPSHOTS_DIR (snapshot_filename now jsonString) in
  (currentHash = lastHash (page sys) -> forwarded = None /\ sys' = sys)
  /\ (currentHash <> lastHash (page sys) ->
      forwarded = Some jsonString
      /\ lastHash (page sys') = currentHash
      /\ host sys' = after (saveSnapshot now disk jsonString) (host sys)
      /\ files (host sys')
         = match disk with
           | None => <[path := utf8 jsonString]> (files (host sys))
           | Some _ => files (host sys)
           end)
  /\ (currentHash <> lastHash (page sys) ->
      (size (files (host sys')) = S (size (files (host sys)))
       <-> disk = None /\ files (host sys) !! path = None)
      /\ (size (files (host sys')) = size (files (host sys))
          <-> disk <> None \/ is_Some (files (host sys) !! path)))
  /\ (lastHash (page sys') <> lastHash (page sys) <-> forwarded <> None)
  /\ (cycle (Some b) now disk sys).2 = Return tt.
Proof.
  intros Ht jsonString currentHash forwarded sys' path.
  subst forwarded sys'. unfold cycle.
  destruct (decide (currentHash = lastHash (page sys))) as [Heq|Hne].
  - rewrite (check_same b tree (page sys) Ht Heq). simpl.
    repeat split; try contradiction; try (destruct sys; reflexivity);
      intros Hx; exfalso; apply Hx; reflexivity.
  - rewrite (check_changed b tree (page sys) Ht Hne). fold jsonString currentHash.
    destruct disk as [e|].
    + rewrite saveSnapshot_write_fails. simpl.
      split; [intros; contradiction|].
      split; [intros _; repeat split|].
      split; [intros _; split; split|].
      * lia.
      * intros [[=] _].
      * intros _. left. discriminate.
      * reflexivity.
      * split; [split; [discriminate | intros _; exact Hne] | reflexivity].
    + rewrite saveSnapshot_written. simpl. fold path.
      split; [intros; contradiction|].
      split; [intros _; repeat split|].
      split; [intros _|].
      * destruct (files (host sys) !! path) as [old|] eqn:Hp.
        -- rewrite map_size_insert_Some by eauto.
           split; split; try lia; eauto.
           intros [_ [=]].
        -- rewrite map_size_insert_None by exact Hp.
           split; split; try lia; auto.
           intros [Hd | [x [=]]]. contradiction.
      * split; [split; [discriminate | intros _; exact Hne] | reflexivity].
Qed.

End GateFacts.

(** The first cycle of a session on [sample_body]: its hash, 514825565,
    differs from the initial empty string, the snapshot is forwarded and
    written. *)
Lemma snapshot_change_gate_witness :
  match traverse sample_body with
  | Some tree =>
      let sys' := (cycle (H := Reference.runtime) (Some sample_body)
                         1700000000000 None fresh_system).1 in
      Number_toString (simpleHash (JSON_stringify (Runtime := Reference.runtime) tree))
      <> lastHash (page fresh_system)
      /\ lastHash (page sys') = "514825565"
      /\ files (host sys')
           !! "captured_data/snapshots/snapshot_1700000000000_ba663149.json"
         = Some (utf8 (JSON_stringify (Runtime := Reference.runtime) tree))
  | None => False
  end.
Proof.
  destruct (traverse sample_body) as [tree|] eqn:Ht;
    [|vm_compute in Ht; discriminate].
  intros sys'.
  assert (Hne :
    Number_toString (simpleHash (JSON_stringify (Runtime := Reference.runtime) tree))
    <> lastHash (page fresh_system)).
  { apply Number_toString_decimal. }
  split; [exact Hne|].
  destruct (snapshot_change_gate (H := Reference.runtime) sample_body tree
              1700000000000 None fresh_system Ht)
    as (_ & Hchanged & _).
  destruct (Hchanged Hne) as (_ & Hhash & _ & Hfiles).
  fold sys' in Hhash, Hfiles. split.
  - rewrite Hhash. injection Ht as <-. vm_compute. reflexivity.
  - rewrite Hfiles.
    replace (path_join SNAPSHOTS_DIR
               (snapshot_filename 1700000000000
                  (JSON_stringify (Runtime := Reference.runtime) tree)))
      with "captured_data/snapshots/snapshot_1700000000000_ba663149.json"
      by (injection Ht as <-; vm_compute; reflexivity).
    apply lookup_insert_eq.
Defined.

(** C2 as stated, that a cycle whose hash differs from the stored one
    writes exactly one new snapshot file, fails in two ways.

    First: the page shows A, then B, then A again, and the third write
    takes place at the clock reading of the first (the clock was set
    back). The third cycle finds a hash different from the stored one,
    forwards the snapshot and stores the new hash, and the host writes it
    under the name of the first: the files are those that were there.

    Second: the disk refuses the write. The hash differs and the snapshot
    is forwarded, and there is no file. *)
Lemma snapshot_change_gate_counterexample :
  (let sys1 := (cycle (H := Reference.runtime) (Some sample_body)
                      1700000000000 None fresh_system).1 in
   let sys2 := (cycle (H := Reference.runtime) (Some sample_body_changed)
                      1700000002000 None sys1).1 in
   let forwarded := (check (H := Reference.runtime) (Some sample_body)
                           (page sys2)).2 in
   let sys3 := (cycle (H := Reference.runtime) (Some sample_body)
                      1700000000000 None sys2).1 in
   forwarded <> None
   /\ lastHash (page sys3) <> lastHash (page sys2)
   /\ files (host sys3) = files (host sys2))
  /\ (let refused := Some {| message := "ENOSPC: no space left on device" |} in
      let forwarded := (check (H := Reference.runtime) (Some sample_body)
                              (page fresh_system)).2 in
      let sys1 := (cycle (H := Reference.runtime) (Some sample_body)
                         1700000000000 refused fresh_system).1 in
      forwarded <> None
      /\ lastHash (page sys1) <> lastHash (page fresh_system)
      /\ files (host sys1) = files (host fresh_system)).
Proof.
  split; vm_compute; repeat split; discriminate.
Qed.

(** Two cycles before the body exists, then [sample_body]: the snapshot is
    forwarded. *)
Lemma first_snapshot_forwarded_witness :
  match traverse sample_body with
  | Some tree =>
      Forall empty_cycle [None; Some (element "HEAD" (style_of "none" "1") [])]
      /\ (checks (H := Reference.runtime)
                 [None; Some (element "HEAD" (style_of "none" "1") []);
                  Some sample_body] sampler_init).2
         = [JSON_stringify (Runtime := Reference.runtime) tree]
  | None => False
  end.
Proof.
  destruct (traverse sample_body) as [tree|] eqn:Ht;
    [|vm_compute in Ht; discriminate].
  assert (He : Forall empty_cycle
                 [None; Some (element "HEAD" (style_of "none" "1") [])]).
  { repeat constructor. }
  split; [exact He|].
  destruct (first_snapshot_forwarded (H := Reference.runtime))
    as (_ & _ & _ & Hfirst).
  change [None; Some (element "HEAD" (style_of "none" "1") []); Some sample_body]
    with ([None; Some (element "HEAD" (style_of "none" "1") [])]
            ++ [Some sample_body])%list.
  rewrite (Hfirst _ sample_body tree He Ht). reflexivity.
Defined.

(* ===================================================================== *)
(** * Pruning in traverse *)
(* ===================================================================== *)

Lemma each_child_omap (l : list ChildNode) :
  (fix each_child (l : list ChildNode) : list Node :=
     match l with
     | [] => []
     | ElementNode child :: l' =>
         match traverse child with
         | Some childNode => childNode :: each_child l'
         | None => each_child l'
         end
     | _ :: l' => each_child l'
     end) l
  = omap traverse (elements_of l).
Proof.
  induction l as [|c l IH]; [reflexivity|].
  destruct c as [child|d|t d]; simpl; rewrite IH; reflexivity.
Qed.

(** [traverse] in one equation. *)
Lemma traverse_unfold (el : Element) :
  traverse el
  = if pruned el then None
    else Some (node_of el (omap traverse (el_children el))).
Proof.
  destruct el as [tag id cls attrs st cn]. unfold pruned.
  cbn -[Array_includes excluded_tags omap String.eqb].
  destruct (Array_includes excluded_tags tag); [reflexivity|].
  destruct (st "display" =? "none")%string; [reflexivity|].
  cbn -[Array_includes excluded_tags omap String.eqb].
  unfold node_of. rewrite each_child_omap. reflexivity.
Qed.

Lemma traverse_pruned (el : Element) : pruned el = true -> traverse el = None.
Proof. intros Hp. rewrite traverse_unfold, Hp. reflexivity. Qed.

Lemma traverse_kept (el : Element) :
  pruned el = false ->
  traverse el = Some (node_of el (omap traverse (el_children el))).
Proof. intros Hp. rewrite traverse_unfold, Hp. reflexivity. Qed.

Lemma traverse_Some (el : Element) (n : Node) :
  traverse el = Some n ->
  pruned el = false /\ n = node_of el (omap traverse (el_children el)).
Proof.
  rewrite traverse_unfold. destruct (pruned el); [discriminate|].
  intros [= <-]. auto.
Qed.

Lemma traverse_None (el : Element) : traverse el = None <-> pruned el = true.
Proof.
  rewrite traverse_unfold. destruct (pruned el); split; congruence.
Qed.

(** The [j]-th entry of the children of a node is the snapshot of the
    [j]-th kept child. *)
Lemma kept_child_lookup (children : list Element) (j : nat) :
  omap traverse children !! j
  = match kept_child children j with
    | Some (_, child) => traverse child
    | None => None
    end.
Proof.
  revert j. induction children as [|c rest IH]; intros j; [reflexivity|].
  simpl. destruct (pruned c) eqn:Hc.
  - rewrite (proj2 (traverse_None c) Hc), IH.
    destruct (kept_child rest j) as [[i child]|]; reflexivity.
  - destruct j as [|j]; simpl; rewrite (traverse_kept c Hc); [reflexivity|].
    simpl. rewrite IH. destruct (kept_child rest j) as [[i child]|]; reflexivity.
Qed.

Lemma kept_child_Some (children : list Element) (j i : nat) (child : Element) :
  kept_child children j = Some (i, child) ->
  children !! i = Some child /\ pruned child = false.
Proof.
  revert j i child.
  induction children as [|c rest IH]; intros j i child Hk; [discriminate|].
  simpl in Hk. destruct (pruned c) eqn:Hc.
  - destruct (kept_child rest j) as [[i' child']|] eqn:Hr; [|discriminate].
    simpl in Hk. injection Hk as <- <-. exact (IH j i' child' Hr).
  - destruct j as [|j].
    + injection Hk as <- <-. auto.
    + destruct (kept_child rest j) as [[i' child']|] eqn:Hr; [|discriminate].
      simpl in Hk. injection Hk as <- <-. exact (IH j i' child' Hr).
Qed.

(** Every kept child is the [j]-th kept child for some [j]. *)
Lemma kept_child_complete (children : list Element) (i : nat) (child : Element) :
  children !! i = Some child -> pruned child = false ->
  exists j, kept_child children j = Some (i, child).
Proof.
  revert i. induction children as [|c rest IH]; intros i Hi Hp; [discriminate|].
  destruct i as [|i]; simpl in Hi.
  - injection Hi as ->. exists 0%nat. simpl. now rewrite Hp.
  - destruct (IH i Hi Hp) as [j Hj]. simpl. destruct (pruned c).
    + exists j. now rewrite Hj.
    + exists (S j). now rewrite Hj.
Qed.

(** Two kept children with the same index are the same kept child. *)
Lemma kept_child_inj (children : list Element) (j1 j2 i : nat) (c1 c2 : Element) :
  kept_child children j1 = Some (i, c1) ->
  kept_child children j2 = Some (i, c2) ->
  j1 = j2.
Proof.
  revert j1 j2 i c1 c2.
  induction children as [|c rest IH]; intros j1 j2 i c1 c2 H1 H2; [discriminate|].
  simpl in H1, H2. destruct (pruned c).
  - destruct (kept_child rest j1) as [[i1 d1]|] eqn:Hr1; [|discriminate].
    destruct (kept_child rest j2) as [[i2 d2]|] eqn:Hr2; [|discriminate].
    simplify_eq/=. exact (IH j1 j2 _ _ _ Hr1 Hr2).
  - destruct j1 as [|j1], j2 as [|j2]; [reflexivity| | |].
    + destruct (kept_child rest j2) as [[i2 d2]|]; simplify_eq/=.
    + destruct (kept_child rest j1) as [[i1 d1]|]; simplify_eq/=.
    + destruct (kept_child rest j1) as [[i1 d1]|] eqn:Hr1; [|discriminate].
      destruct (kept_child rest j2) as [[i2 d2]|] eqn:Hr2; [|discriminate].
      simplify_eq/=. f_equal. exact (IH j1 j2 _ _ _ Hr1 Hr2).
Qed.

Lemma origin_unfold (root : Element) (q : list nat) :
  origin root q
  = if pruned root then None
    else match q with
         | [] => Some []
         | j :: q' =>
             match kept_child (el_children root) j with
             | Some (i, child) => cons i <$> origin child q'
             | None => None
             end
         end.
Proof. destruct q; reflexivity. Qed.

Lemma kept_along_cons (root child : Element) (i : nat) (p : list nat) :
  pruned root = false ->
  el_children root !! i = Some child ->
  kept_along child p ->
  kept_along root (i :: p).
Proof.
  intros Hr Hc Hk p1 p2 a Hsplit Ha.
  destruct p1 as [|i1 p1]; simpl in Ha.
  - injection Ha as <-. exact Hr.
  - simpl in Hsplit. injection Hsplit as <- Hp.
    rewrite Hc in Ha. exact (Hk p1 p2 a Hp Ha).
Qed.

Lemma kept_along_inv (root child : Element) (i : nat) (p : list nat) :
  el_children root !! i = Some child ->
  kept_along root (i :: p) ->
  pruned root = false /\ kept_along child p.
Proof.
  intros Hc Hk. split.
  - exact (Hk [] (i :: p) root eq_refl eq_refl).
  - intros p1 p2 a Hsplit Ha.
    apply (Hk (i :: p1) p2 a).
    + simpl. now rewrite Hsplit.
    + simpl. now rewrite Hc.
Qed.

(** The node at position [q] of the snapshot is the snapshot of the element
    at [origin root q]. *)
Lemma snapshot_sound (q : list nat) :
  forall root tree n,
    traverse root = Some tree ->
    node_at tree q = Some n ->
    exists p d, origin root q = Some p /\ at_path root p = Some d
                /\ traverse d = Some n.
Proof.
  induction q as [|j q IH]; intros root tree n Ht Hn;
    destruct (traverse_Some root tree Ht) as [Hr ->];
    rewrite origin_unfold, Hr.
  - simpl in Hn. injection Hn as <-. exists [], root. auto.
  - simpl in Hn. rewrite kept_child_lookup in Hn.
    destruct (kept_child (el_children root) j) as [[i child]|] eqn:Hk;
      [|discriminate].
    destruct (traverse child) as [nc|] eqn:Hc; [|discriminate].
    destruct (IH child nc n Hc Hn) as (p & d & Ho & Hp & Hd).
    destruct (kept_child_Some _ _ _ _ Hk) as [Hi _].
    exists (i :: p), d. rewrite Ho. simpl. rewrite Hi. auto.
Qed.

(** An origin is a position all of whose elements, from the root down, are
    kept. *)
Lemma origin_kept (q : list nat) :
  forall root p, origin root q = Some p -> kept_along root p.
Proof.
  induction q as [|j q IH]; intros root p Ho; rewrite origin_unfold in Ho;
    destruct (pruned root) eqn:Hr; try discriminate.
  - injection Ho as <-. intros p1 p2 a Hsplit Ha. symmetry in Hsplit.
    apply app_eq_nil in Hsplit as [-> _]. simpl in Ha. injection Ha as <-.
    exact Hr.
  - destruct (kept_child (el_children root) j) as [[i child]|] eqn:Hk;
      [|discriminate].
    destruct (origin child q) as [p'|] eqn:Hoc; [|discriminate].
    simpl in Ho. injection Ho as <-.
    destruct (kept_child_Some _ _ _ _ Hk) as [Hi _].
    eapply kept_along_cons; eauto.
Qed.

(** An element appears at most once. *)
Lemma origin_inj (q1 : list nat) :
  forall root q2 p, origin root q1 = Some p -> origin root q2 = Some p -> q1 = q2.
Proof.
  induction q1 as [|j1 q1 IH]; intros root q2 p H1 H2;
    rewrite origin_unfold in H1, H2;
    destruct (pruned root); try discriminate.
  - injection H1 as <-. destruct q2 as [|j2 q2]; [reflexivity|].
    destruct (kept_child (el_children root) j2) as [[i2 c2]|]; [|discriminate].
    destruct (origin c2 q2); discriminate.
  - destruct (kept_child (el_children root) j1) as [[i1 c1]|] eqn:Hk1;
      [|discriminate].
    destruct (origin c1 q1) as [p1|] eqn:Ho1; [|discriminate].
    destruct q2 as [|j2 q2]; [simplify_eq/=|].
    destruct (kept_child (el_children root) j2) as [[i2 c2]|] eqn:Hk2;
      [|discriminate].
    destruct (origin c2 q2) as [p2|] eqn:Ho2; [|discriminate].
    simplify_eq/=.
    assert (j1 = j2) as <- by exact (kept_child_inj _ _ _ _ _ _ Hk1 Hk2).
    rewrite Hk1 in Hk2. simplify_eq/=.
    f_equal. exact (IH _ _ _ Ho1 Ho2).
Qed.

(** Every element that is kept, as are all its ancestors up to the root,
    appears, and the node at its place is its own snapshot. *)
Lemma snapshot_complete (p : list nat) :
  forall root tree d,
    traverse root = Some tree ->
    at_path root p = Some d ->
    kept_along root p ->
    exists q n, origin root q = Some p /\ node_at tree q = Some n
                /\ traverse d = Some n.
Proof.
  induction p as [|i p IH]; intros root tree d Ht Hd Hk;
    destruct (traverse_Some root tree Ht) as [Hr ->].
  - simpl in Hd. injection Hd as <-.
    exists [], (node_of root (omap traverse (el_children root))).
    rewrite origin_unfold, Hr. repeat split. now apply traverse_kept.
  - simpl in Hd.
    destruct (el_children root !! i) as [child|] eqn:Hi; [|discriminate].
    destruct (kept_along_inv root child i p Hi Hk) as [_ Hkc].
    assert (Hpc : pruned child = false)
      by exact (Hkc [] p child eq_refl eq_refl).
    pose proof (traverse_kept child Hpc) as Hc.
    destruct (IH child _ d Hc Hd Hkc) as (q & n & Ho & Hq & Hn).
    destruct (kept_child_complete _ i child Hi Hpc) as [j Hj].
    exists (j :: q), n. rewrite origin_unfold, Hr, Hj, Ho. repeat split; auto.
    simpl. rewrite kept_child_lookup, Hj, Hc. exact Hq.
Qed.

(** The styles copied into a node include [opacity]. *)
Lemma node_styles_opacity (el : Element) (children : list Node) :
  In ("opacity", getComputedStyle el "opacity") (node_styles (node_of el children)).
Proof.
  unfold node_of, getComputedStyles. simpl.
  do 26 (try (left; reflexivity); right).
Qed.

(** C5. An element whose tag is one of SCRIPT, STYLE, NOSCRIPT, IFRAME, LINK,
    META, HEAD, TITLE, or whose computed display is [none], yields no node
    ([traverse] returns null before it looks at the children). Every node
    of the snapshot is the snapshot of one element of the live tree, its
    origin, and no two nodes share an origin; a pruned element is no node's
    origin, and neither is any of its descendants. An element with opacity
    0 whose display is not [none] (and whose tag is not excluded) does
    appear, with that opacity among its styles, wherever all its ancestors
    are kept. *)
Theorem pruning_invariants :
  (forall el,
      In (el_tagName el)
         ["SCRIPT"; "STYLE"; "NOSCRIPT"; "IFRAME"; "LINK"; "META"; "HEAD"; "TITLE"]
      \/ getComputedStyle el "display" = "none" ->
      pruned el = true /\ traverse el = None)
  /\ (forall root tree q n,
        traverse root = Some tree ->
        node_at tree q = Some n ->
        exists p d, origin root q = Some p /\ at_path root p = Some d
                    /\ traverse d = Some n)
  /\ (forall root q1 q2 p,
        origin root q1 = Some p -> origin root q2 = Some p -> q1 = q2)
  /\ (forall root p1 p2 a,
        at_path root p1 = Some a ->
        pruned a = true ->
        ~ appears root (p1 ++ p2))
  /\ (forall root tree p d,
        traverse root = Some tree ->
        at_path root p = Some d ->
        Array_includes excluded_tags (el_tagName d) = false ->
        getComputedStyle d "display" <> "none" ->
        getComputedStyle d "opacity" = "0" ->
        (forall p1 p2 a,
            p = (p1 ++ p2)%list -> p2 <> [] -> at_path root p1 = Some a ->
            pruned a = false) ->
        appears root p
        /\ exists q n,
            origin root q = Some p /\ node_at tree q = Some n
            /\ traverse d = Some n
            /\ node_tagName n = el_tagName d
            /\ In ("opacity", "0") (node_styles n)).
Proof.
  split; [|split; [|split; [|split]]].
  - intros el Hel.
    assert (Hp : pruned el = true).
    { unfold pruned. destruct Hel as [Htag | Hdisp].
      - apply orb_true_iff. left. unfold Array_includes.
        apply existsb_exists. exists (el_tagName el).
        split; [exact Htag | apply String.eqb_refl].
      - rewrite Hdisp. apply orb_true_r. }
    split; [exact Hp | now apply traverse_pruned].
  - intros root tree q n Ht Hn. exact (snapshot_sound q root tree n Ht Hn).
  - intros root q1 q2 p. apply origin_inj.
  - intros root p1 p2 a Ha Hpa [q Ho].
    pose proof (origin_kept q root _ Ho p1 p2 a eq_refl Ha). congruence.
  - intros root tree p d Ht Hd Htag Hdisp Hop Hanc.
    assert (Hpd : pruned d = false).
    { unfold pruned. rewrite Htag. simpl. now apply String.eqb_neq. }
    assert (Hk : kept_along root p).
    { intros p1 p2 a Hsplit Ha. destruct p2 as [|i p2].
      - rewrite app_nil_r in Hsplit. subst p1. rewrite Hd in Ha.
        injection Ha as <-. exact Hpd.
      - eapply Hanc; eauto; discriminate. }
    destruct (snapshot_complete p root tree d Ht Hd Hk) as (q & n & Ho & Hq & Hn).
    split; [exists q; exact Ho|].
    exists q, n. repeat split; auto.
    + apply traverse_Some in Hn as [_ ->]. reflexivity.
    + apply traverse_Some in Hn as [_ ->]. rewrite <- Hop.
      apply node_styles_opacity.
Qed.

(** In [sample_body] the SCRIPT element and the B element inside it do not
    appear, and the paragraph with opacity 0 is in the snapshot. *)
Lemma pruning_invariants_witness :
  at_path sample_body [0%nat]
  = Some (element "SCRIPT" (style_of "block" "1")
            [ElementNode (element "B" (style_of "inline" "1") [TextNode "x"])])
  /\ ~ appears sample_body [0%nat]
  /\ ~ appears sample_body [0%nat; 0%nat]
  /\ match traverse sample_body with
     | Some tree =>
         exists q n, origin sample_body q = Some [1%nat]
                     /\ node_at tree q = Some n /\ node_tagName n = "P"
                     /\ In ("opacity", "0") (node_styles n)
     | None => False
     end.
Proof.
  destruct pruning_invariants as (_ & _ & _ & Hgone & Hkept).
  assert (Hscript :
    at_path sample_body [0%nat]
    = Some (element "SCRIPT" (style_of "block" "1")
              [ElementNode (element "B" (style_of "inline" "1") [TextNode "x"])]))
    by reflexivity.
  split; [exact Hscript|].
  split; [exact (Hgone sample_body [0%nat] [] _ Hscript eq_refl)|].
  split; [exact (Hgone sample_body [0%nat] [0%nat] _ Hscript eq_refl)|].
  destruct (traverse sample_body) as [tree|] eqn:Ht;
    [|vm_compute in Ht; discriminate].
  destruct (Hkept sample_body tree [1%nat]
              (element "P" (style_of "block" "0") [TextNode " hi "])
              Ht eq_refl eq_refl)
    as (_ & q & n & Ho & Hq & _ & Htag & Hop).
  - vm_compute. discriminate.
  - reflexivity.
  - intros p1 p2 a Hsplit Hne Ha.
    destruct p1 as [|i p1].
    + simpl in Ha. injection Ha as <-. reflexivity.
    + destruct p1; [|discriminate]. destruct p2; [contradiction|discriminate].
  - exists q, n. auto.
Defined.

(* ===================================================================== *)
(** * The two logs *)
(* ===================================================================== *)

Lemma Forall_omap_restrict {A B} (P : B -> Prop) (f g : A -> option B)
      (l : list A) :
  (forall x y, g x = Some y -> f x = Some y) ->
  Forall P (omap f l) -> Forall P (omap g l).
Proof.
  intros Hfg. induction l as [|x l IH]; intros HP; [constructor|].
  simpl in *. destruct (g x) as [y|] eqn:Hg.
  - rewrite (Hfg x y Hg) in HP. inversion HP; subst. constructor; auto.
  - destruct (f x); [inversion HP; subst|]; auto.
Qed.

Lemma StronglySorted_omap_restrict {A B} (R : B -> B -> Prop)
      (f g : A -> option B) (l : list A) :
  (forall x y, g x = Some y -> f x = Some y) ->
  StronglySorted R (omap f l) -> StronglySorted R (omap g l).
Proof.
  intros Hfg. induction l as [|x l IH]; intros HS; [constructor|].
  simpl in *. destruct (g x) as [y|] eqn:Hg.
  - rewrite (Hfg x y Hg) in HS. inversion HS; subst. constructor; auto.
    eapply Forall_omap_restrict; eauto.
  - destruct (f x); [inversion HS; subst|]; auto.
Qed.

Lemma omap_fmap_timestamp (f : Event -> option LogEntry) (evs : list Event) :
  map timestamp_of (omap f evs) = omap (fun ev => timestamp_of <$> f ev) evs.
Proof.
  induction evs as [|ev evs IH]; [reflexivity|].
  simpl. destruct (f ev); simpl; [f_equal|]; exact IH.
Qed.

Section LogFacts.
Context `{Runtime}.

Lemma turn_logs ev h :
  http_log (after (turn ev) h) = (http_log h ++ option_list (http_record ev))%list
  /\ ws_log (after (turn ev) h) = (ws_log h ++ option_list (ws_record ev))%list.
Proof.
  destruct ev as [now q | now r | disk r | u | now u q | now u q | now disk j];
    simpl; rewrite ?app_nil_r; try (split; reflexivity).
  - apply save_assets_logs.
  - destruct disk; split; reflexivity.
Qed.

Lemma run_logs evs h :
  http_log (after (run evs) h) = (http_log h ++ http_records evs)%list
  /\ ws_log (after (run evs) h) = (ws_log h ++ ws_records evs)%list.
Proof.
  revert h. induction evs as [|ev evs IH]; intros h.
  - simpl. rewrite !app_nil_r. split; reflexivity.
  - rewrite after_run_cons. destruct (IH (after (turn ev) h)) as [-> ->].
    destruct (turn_logs ev h) as [-> ->].
    unfold http_records, ws_records. simpl.
    destruct (http_record ev), (ws_record ev); simpl;
      rewrite <- ?app_assoc; split; reflexivity.
Qed.

(** C7, amended. Every observed HTTP request, HTTP response and WebSocket
    frame produces exactly one record, appended to its stream (requests and
    responses to the HTTP stream, frames to the WebSocket stream), with no
    deduplication and no filtering, so the records are in emission order;
    each record carries the wall-clock reading taken at its event, and the
    timestamps of a stream never decrease provided the clock never went
    back between the turns of the session. *)
Theorem event_logging (evs : list Event) (h : Host) :
  let h' := after (run evs) h in
  http_log h' = (http_log h ++ http_records evs)%list
  /\ ws_log h' = (ws_log h ++ ws_records evs)%list
  /\ (forall now q, http_records [ev_request now q] = [request_record now q]
                    /\ ws_records [ev_request now q] = [])
  /\ (forall now r, http_records [ev_response now r] = [response_record now r]
                    /\ ws_records [ev_response now r] = [])
  /\ (forall now u p, ws_records [ev_framesent now u p] = [WS_SENT now u p]
                      /\ http_records [ev_framesent now u p] = [])
  /\ (forall now u p, ws_records [ev_framereceived now u p] = [WS_RECEIVED now u p]
                      /\ http_records [ev_framereceived now u p] = [])
  /\ (Sorted Z.le (readings evs) ->
      Sorted Z.le (map timestamp_of (http_records evs))
      /\ Sorted Z.le (map timestamp_of (ws_records evs))).
Proof.
  intros h'. subst h'. destruct (run_logs evs h) as [Hh Hw].
  repeat split; try assumption.
  - apply StronglySorted_Sorted.
    unfold http_records. rewrite omap_fmap_timestamp.
    apply (StronglySorted_omap_restrict Z.le reading).
    + intros ev y. destruct ev; simpl; congruence.
    + apply Sorted_StronglySorted; [|assumption]. intros x y z; lia.
  - apply StronglySorted_Sorted.
    unfold ws_records. rewrite omap_fmap_timestamp.
    apply (StronglySorted_omap_restrict Z.le reading).
    + intros ev y. destruct ev; simpl; congruence.
    + apply Sorted_StronglySorted; [|assumption]. intros x y z; lia.
Qed.

End LogFacts.

(** C7 as stated fails in its last part: the timestamps in [http_log.jsonl]
    decrease when the wall clock is set back between two events, here by
    two seconds. Each record carries the reading of [new Date()] taken when
    it is written. *)
Lemma log_order_counterexample :
  let q := get_request "image" "https://skazka.mobi/a.png" in
  let h := after (run (H := Reference.runtime)
                      [ev_request 1700000002000 q; ev_request 1700000000000 q])
                 empty_host in
  map timestamp_of (http_log h) = [1700000002000; 1700000000000]
  /\ ~ Sorted Z.le (map timestamp_of (http_log h)).
Proof.
  split; [reflexivity|].
  intros Hs. simpl in Hs. inversion Hs as [|x l _ Hhd]; subst.
  inversion Hhd as [|y l' Hle]; subst. lia.
Qed.

(** A request, its response and a frame, logged at readings 10, 20, 30. *)
Lemma event_logging_witness :
  let q := get_request "image" "https://skazka.mobi/a.png" in
  let r := response_200 "image" "https://skazka.mobi/a.png" "image/png"
                        texture_bytes in
  let evs := [ev_request 10 q; ev_response 20 r;
              ev_framesent 30 "wss://skazka.mobi/ws" (TextFrame "ping")] in
  Sorted Z.le (readings evs)
  /\ Sorted Z.le (map timestamp_of (http_records evs)).
Proof.
  intros q r evs.
  assert (Hs : Sorted Z.le (readings evs)).
  { simpl. repeat constructor; lia. }
  split; [exact Hs|].
  destruct (event_logging (H := Reference.runtime) evs empty_host)
    as (_ & _ & _ & _ & _ & _ & Hsorted).
  exact (proj1 (Hsorted Hs)).
Defined.

(* ===================================================================== *)
(** * Failures stay inside the save functions *)
(* ===================================================================== *)

Section ContainmentFacts.
Context `{Runtime}.

Lemma same_data_refl h : same_data h h.
Proof. repeat split. Qed.

Lemma same_data_put_console line h : same_data (put_console line h) h.
Proof. repeat split. Qed.

Lemma same_data_trans h1 h2 h3 :
  same_data h1 h2 -> same_data h2 h3 -> same_data h1 h3.
Proof.
  intros (? & ? & ? & ?) (? & ? & ? & ?). repeat split; congruence.
Qed.

(** What a turn does to files, asset map and logs does not depend on the
    console. *)
Lemma saveFile_same_data disk r type dir h1 h2 :
  same_data h1 h2 ->
  same_data (after (saveFile disk r type dir) h1)
            (after (saveFile disk r type dir) h2).
Proof.
  intros (Hf & Ha & Hh & Hw).
  unfold after, saveFile. run_host.
  destruct (response_body r) as [b|e]; [|repeat split; assumption].
  rewrite Hf. destruct (bool_decide _); simpl.
  - repeat split; simpl; congruence.
  - destruct disk; simpl; repeat split; simpl; congruence.
Qed.

Lemma turn_same_data ev h1 h2 :
  same_data h1 h2 -> same_data (after (turn ev) h1) (after (turn ev) h2).
Proof.
  intros Hs. pose proof Hs as (Hf & Ha & Hh & Hw).
  destruct ev as [now q | now r | disk r | u | now u q | now u q | now disk j];
    try (repeat split; simpl; congruence).
  - simpl turn. destruct (included_dec r) as [Hi|Hi].
    + rewrite save_assets_included by assumption. now apply saveFile_same_data.
    + rewrite save_assets_not_included by assumption. exact Hs.
  - destruct disk; repeat split; simpl; congruence.
Qed.

Lemma run_same_data evs h1 h2 :
  same_data h1 h2 -> same_data (after (run evs) h1) (after (run evs) h2).
Proof.
  revert h1 h2. induction evs as [|ev evs IH]; intros h1 h2 Hs; [exact Hs|].
  rewrite !after_run_cons. apply IH. now apply turn_same_data.
Qed.

Lemma saveSnapshot_returns now disk jsonString h :
  result (saveSnapshot now disk jsonString) h = Return tt.
Proof. destruct disk; reflexivity. Qed.

(** C8. A failure to read a body or to write a file during the saving of an
    asset or of a snapshot is caught inside [saveFile], respectively
    [saveSnapshot]: the call returns, its only effect is one line on the
    console, and the turns that follow are run. Nothing is retried: the
    host keeps no trace of the failed capture, so the rest of the session
    leaves files, asset map and logs as if that turn had not taken place,
    and the sampler has already stored the new hash, so the next cycle on
    the same tree forwards nothing. *)
Theorem error_containment :
  (forall disk r type dir h, result (saveFile disk r type dir) h = Return tt)
  /\ (forall disk r type dir h e,
        response_body r = Throw e ->
        after (saveFile disk r type dir) h
        = put_console (failed_to_save type r e) h)
  /\ (forall r type dir h b e,
        response_body r = Return b ->
        files h !! path_join dir (asset_filename r type b) = None ->
        after (saveFile (Some e) r type dir) h
        = put_console (failed_to_save type r e) h)
  /\ (forall now disk jsonString h,
        result (saveSnapshot now disk jsonString) h = Return tt)
  /\ (forall now e jsonString h,
        after (saveSnapshot now (Some e) jsonString) h
        = put_console (console_error_line "Failed to save snapshot:" (message e)) h)
  /\ (forall evs h, result (run evs) h = Return tt)
  /\ (forall evs1 evs2 h,
        after (run (evs1 ++ evs2)) h = after (run evs2) (after (run evs1) h))
  /\ (forall ev evs h text detail,
        after (turn ev) h = put_console (console_error_line text detail) h ->
        same_data (after (run (ev :: evs)) h) (after (run evs) h))
  /\ (forall b tree now e sys,
        traverse b = Some tree ->
        Number_toString (simpleHash (JSON_stringify tree)) <> lastHash (page sys) ->
        let sys' := (cycle (Some b) now (Some e) sys).1 in
        files (host sys') = files (host sys)
        /\ check (Some b) (page sys') = (page sys', None)
        /\ forall now' disk', (cycle (Some b) now' disk' sys').1 = sys').
Proof.
  repeat match goal with |- _ /\ _ => split end.
  - apply saveFile_returns.
  - intros disk r type dir h e Hb. unfold after.
    now rewrite (saveFile_body_fails disk r type dir h e Hb).
  - intros r type dir h b e Hb Hp. unfold after.
    now rewrite (saveFile_write_fails r type dir h b e Hb Hp).
  - apply saveSnapshot_returns.
  - reflexivity.
  - apply run_returns.
  - apply after_run_app.
  - intros ev evs h text detail Hfail. rewrite after_run_cons, Hfail.
    apply run_same_data, same_data_put_console.
  - intros b tree now e sys Ht Hne sys'.
    assert (Hsys' : sys' = {| page := {| lastHash :=
                                Number_toString (simpleHash (JSON_stringify tree)) |};
                              host := put_console
                                (console_error_line "Failed to save snapshot:"
                                                    (message e)) (host sys) |}).
    { subst sys'. unfold cycle. rewrite (check_changed b tree (page sys) Ht Hne).
      rewrite saveSnapshot_write_fails. reflexivity. }
    rewrite Hsys'. simpl.
    assert (Hc : check (Some b)
                   {| lastHash := Number_toString (simpleHash (JSON_stringify tree)) |}
                 = ({| lastHash := Number_toString (simpleHash (JSON_stringify tree)) |},
                    None))
      by (apply (check_same b tree); [exact Ht | reflexivity]).
    repeat split; [exact Hc|].
    intros now' disk'. unfold cycle. simpl page. rewrite Hc. reflexivity.
Qed.

End ContainmentFacts.

(** A response whose body cannot be read is logged on the console and
    nothing else; the capture of the next response goes as if the broken one
    had never arrived. *)
Lemma error_containment_witness :
  let broken := broken_response "image" "https://skazka.mobi/gone.png" in
  let fine := response_200 "image" "https://skazka.mobi/a.png" "image/png"
                           texture_bytes in
  let evs := [ev_response_body None fine] in
  after (turn (H := Reference.runtime) (ev_response_body None broken)) empty_host
  = put_console
      (failed_to_save "image" broken {| message := "Target page has been closed" |})
      empty_host
  /\ same_data
       (after (run (H := Reference.runtime) (ev_response_body None broken :: evs))
              empty_host)
       (after (run (H := Reference.runtime) evs) empty_host).
Proof.
  intros broken fine evs.
  assert (Hfail :
    after (turn (H := Reference.runtime) (ev_response_body None broken)) empty_host
    = put_console
        (failed_to_save "image" broken {| message := "Target page has been closed" |})
        empty_host) by reflexivity.
  split; [exact Hfail|].
  destruct (error_containment (H := Reference.runtime))
    as (_ & _ & _ & _ & _ & _ & _ & Hskip & _).
  exact (Hskip (ev_response_body None broken) evs empty_host _ _ Hfail).
Defined.

(* ===================================================================== *)
(** * Snapshot file names *)
(* ===================================================================== *)

Lemma append_inj_length (a1 a2 b1 b2 : string) :
  a1 +:+ b1 = a2 +:+ b2 ->
  String.length b1 = String.length b2 ->
  a1 = a2 /\ b1 = b2.
Proof.
  revert a2. induction a1 as [|x a1 IH]; intros a2 Heq Hlen.
  - destruct a2 as [|y a2]; [auto|].
    rewrite append_nil_l in Heq. subst b1.
    rewrite append_cons in Hlen. simpl in Hlen. rewrite length_append in Hlen. lia.
  - destruct a2 as [|y a2].
    + rewrite append_nil_l in Heq. subst b2.
      rewrite append_cons in Hlen. simpl in Hlen. rewrite length_append in Hlen. lia.
    + rewrite !append_cons in Heq. injection Heq as -> Heq.
      destruct (IH a2 Heq Hlen) as [-> ->]. auto.
Qed.

Lemma length_substring_0 (n : nat) (s : string) :
  (n <= String.length s)%nat -> String.length (String.substring 0 n s) = n.
Proof.
  revert s. induction n as [|n IH]; intros s Hn.
  - destruct s; reflexivity.
  - destruct s as [|c s]; simpl in *; [lia|]. rewrite IH; [reflexivity | lia].
Qed.

Lemma length_hex (bs : list Z) :
  String.length (MD5.hex bs) = (2 * List.length bs)%nat.
Proof. induction bs as [|b bs IH]; simpl; [reflexivity | rewrite IH; lia]. Qed.

Lemma length_digest (msg : list byte) : List.length (MD5.digest msg) = 16%nat.
Proof.
  unfold MD5.digest.
  destruct (fold_left MD5.block _ MD5.init) as [[[a b] c] d]. reflexivity.
Qed.

Lemma length_md5_hex (buffer : list byte) : String.length (md5_hex buffer) = 32%nat.
Proof. unfold md5_hex. now rewrite length_hex, length_digest. Qed.

Lemma length_short_hash (jsonString : jsstring) :
  String.length (short_hash jsonString) = 8%nat.
Proof.
  unfold short_hash. apply length_substring_0. rewrite length_md5_hex. lia.
Qed.

Lemma snapshot_filename_eq now jsonString :
  snapshot_filename now jsonString
  = "snapshot_" +:+ Number_toString now +:+ "_" +:+ short_hash jsonString +:+ ".json".
Proof. reflexivity. Qed.

(** C9, amended. The file names [snapshot_{timestamp}_{shortHash}.json] of
    two forwarded snapshots are equal exactly when both the reading of
    [Date.now()] at the write and the short hash are equal; in particular
    two snapshots written at different readings never collide. (That two
    writes of a session always happen at different readings is not ensured
    by the code.) *)
Theorem snapshot_filename_collision (now1 now2 : Z) (json1 json2 : jsstring) :
  (snapshot_filename now1 json1 = snapshot_filename now2 json2
   <-> now1 = now2 /\ short_hash json1 = short_hash json2)
  /\ (now1 <> now2 ->
      path_join SNAPSHOTS_DIR (snapshot_filename now1 json1)
      <> path_join SNAPSHOTS_DIR (snapshot_filename now2 json2)).
Proof.
  assert (Hiff : snapshot_filename now1 json1 = snapshot_filename now2 json2
                 <-> now1 = now2 /\ short_hash json1 = short_hash json2).
  { rewrite !snapshot_filename_eq. split.
    - intros Heq. apply String.app_inj in Heq.
      apply append_inj_length in Heq as [Hn Heq].
      + split; [now apply Number_toString_inj|].
        apply String.app_inj in Heq.
        apply append_inj_length in Heq as [Hh _]; [exact Hh | reflexivity].
      + rewrite !append_cons, !append_nil_l. simpl.
        rewrite !length_append, !length_short_hash. reflexivity.
    - intros [-> ->]. reflexivity. }
  split; [exact Hiff|].
  intros Hne Heq. unfold path_join in Heq.
  apply String.app_inj in Heq. apply String.app_inj in Heq.
  apply Hiff in Heq as [Hn _]. contradiction.
Qed.

(** Snapshots written a sampling period apart get different names even when
    the page is the same. *)
Lemma snapshot_filename_collision_witness :
  let json := JSON_stringify (Runtime := Reference.runtime)
                (node_of sample_body []) in
  1700000000000 <> 1700000002000
  /\ path_join SNAPSHOTS_DIR
       (snapshot_filename 1700000000000 json)
     <> path_join SNAPSHOTS_DIR
          (snapshot_filename 1700000002000 json).
Proof.
  intros json.
  assert (Hne : 1700000000000 <> 1700000002000) by lia.
  split; [exact Hne|].
  exact (proj2 (snapshot_filename_collision
                  1700000000000 1700000002000 json json) Hne).
Defined.

(** C9 as stated, that no two snapshot files ever collide, fails.

    First scenario: the page shows A, then B, then A again, and the wall
    clock is set back by four seconds before the third write. Three
    snapshots are forwarded and saved, the first and the third under the
    same name, and two files are left.

    Second scenario: the init script runs in every frame; the main document
    and a frame with the same body, each with a sampler of its own, forward
    the same string, and the host handles both calls in the same
    millisecond. Two snapshots are forwarded, one file is left. *)
Lemma snapshot_collision_counterexample :
  (let sys1 := (cycle (H := Reference.runtime) (Some sample_body)
                      1700000000000 None fresh_system).1 in
   let sys2 := (cycle (H := Reference.runtime) (Some sample_body_changed)
                      1700000002000 None sys1).1 in
   let sys3 := (cycle (H := Reference.runtime) (Some sample_body)
                      1700000000000 None sys2).1 in
   console (host sys3)
   = [console_log_line "Saved Snapshot: snapshot_1700000000000_ba663149.json";
      console_log_line "Saved Snapshot: snapshot_1700000002000_27b75349.json";
      console_log_line "Saved Snapshot: snapshot_1700000000000_ba663149.json"]
   /\ size (files (host sys3)) = 2%nat)
  /\ (let main := check (H := Reference.runtime) (Some sample_body) sampler_init in
      let frame := check (H := Reference.runtime) (Some sample_body) sampler_init in
      let h := after (run (H := Reference.runtime)
                          [ev_saveSnapshot 1700000000000 None (default [] main.2);
                           ev_saveSnapshot 1700000000000 None (default [] frame.2)])
                     empty_host in
      main.2 <> None /\ frame.2 <> None
      /\ console h
         = [console_log_line "Saved Snapshot: snapshot_1700000000000_ba663149.json";
            console_log_line "Saved Snapshot: snapshot_1700000000000_ba663149.json"]
      /\ size (files h) = 1%nat).
Proof.
  split.
  - vm_compute. auto.
  - vm_compute. repeat split; discriminate.
Qed.

(* ===================================================================== *)
(** * The end-to-end scenario of the specification *)
(* ===================================================================== *)

(** Two responses, to [/a.png] and [/b.png], with the same bytes: one file
    in [textures/], named after the md5 of the bytes, and both URLs in the
    asset map, which the shutdown writes to [assets_map.json]. *)
Example two_urls_one_file :
  let a := response_200 "image" "https://skazka.mobi/a.png" "image/png"
                        texture_bytes in
  let b := response_200 "image" "https://skazka.mobi/b.png" "image/png"
                        texture_bytes in
  let evs := [ev_request 10 (response_request a); ev_response 20 a;
              ev_request 30 (response_request b); ev_response 40 b;
              ev_response_body None a; ev_response_body None b] in
  let h := after (run (H := Reference.runtime) evs) empty_host in
  let h' := after (session (H := Reference.runtime) evs None) empty_host in
  map_to_list (files h)
  = [("captured_data/textures/c1c26a0316c71738fd738800a40e77cd.png", texture_bytes)]
  /\ assetMap h !! "https://skazka.mobi/a.png"
     = Some "c1c26a0316c71738fd738800a40e77cd.png"
  /\ assetMap h !! "https://skazka.mobi/b.png"
     = Some "c1c26a0316c71738fd738800a40e77cd.png"
  /\ size (assetMap h) = 2%nat
  /\ List.length (http_log h) = 4%nat
  /\ is_Some (files h' !! ASSETS_MAP_FILE)
  /\ size (files h') = 2%nat.
Proof. vm_compute. repeat split; eauto. Qed.

(* ===================================================================== *)
(** * The simple string hash *)
(* ===================================================================== *)

(** [ToInt32 z] differs from [z] by a multiple of 2^32. *)
Lemma ToInt32_wraps (z : Z) : exists k, ToInt32 z = z + k * 2 ^ 32.
Proof.
  unfold ToInt32. pose proof (Z.div_mod z (2 ^ 32) ltac:(lia)) as Hdm.
  destruct (z mod 2 ^ 32 <? 2 ^ 31).
  - exists (- (z / 2 ^ 32)). lia.
  - exists (- (z / 2 ^ 32) - 1). lia.
Qed.

Lemma ToInt32_congruent (a b : Z) :
  (exists k, a = b + k * 2 ^ 32) -> ToInt32 a = ToInt32 b.
Proof.
  intros [k ->]. unfold ToInt32. now rewrite Z.mod_add by lia.
Qed.

Lemma ToInt32_small (z : Z) : - 2 ^ 31 <= z < 2 ^ 31 -> ToInt32 z = z.
Proof.
  intros Hz. destruct (ToInt32_wraps z) as [k Hk].
  pose proof (ToInt32_range z). lia.
Qed.

(** One step of the loop is [31 * hash + char], wrapped. *)
Lemma simpleHash_step_31 (hash char : Z) :
  simpleHash_step hash char = ToInt32 (31 * hash + char).
Proof.
  unfold simpleHash_step. rewrite Z.land_diag.
  apply ToInt32_congruent.
  rewrite Z.shiftl_mul_pow2 by lia.
  destruct (ToInt32_wraps (ToInt32 hash * 2 ^ 5)) as [k2 ->].
  destruct (ToInt32_wraps hash) as [k1 ->].
  exists (32 * k1 + k2). lia.
Qed.

Lemma simpleHash_fold_congruent (str : jsstring) (a a' : Z) :
  (exists k, a = a' + k * 2 ^ 32) ->
  - 2 ^ 31 <= a < 2 ^ 31 ->
  fold_left simpleHash_step str a
  = ToInt32 (fold_left (fun h c => 31 * h + c) str a').
Proof.
  revert a a'. induction str as [|c str IH]; intros a a' Hmod Hrange.
  - simpl. rewrite <- (ToInt32_congruent a a' Hmod). symmetry.
    now apply ToInt32_small.
  - simpl. apply IH.
    + rewrite simpleHash_step_31. destruct Hmod as [k ->].
      destruct (ToInt32_wraps (31 * (a' + k * 2 ^ 32) + c)) as [k' ->].
      exists (31 * k + k'). lia.
    + rewrite simpleHash_step_31. apply ToInt32_range.
Qed.

Lemma simpleHash_app (s1 s2 : jsstring) :
  simpleHash (s1 ++ s2) = fold_left simpleHash_step s2 (simpleHash s1).
Proof. unfold simpleHash. apply fold_left_app. Qed.

(** X1. [simpleHash] is the polynomial hash with multiplier 31, wrapped to
    a signed 32-bit integer: the empty string hashes to 0, appending a code
    unit [c] to a string of hash [h] gives [31 * h + c] wrapped, and the
    whole hash is the wrapped value of the polynomial. *)
Theorem simpleHash_polynomial :
  simpleHash [] = 0
  /\ (forall (str : jsstring) (c : Z),
        simpleHash (str ++ [c]) = ToInt32 (31 * simpleHash str + c))
  /\ (forall str : jsstring, simpleHash str = ToInt32 (polynomial31 str))
  /\ (forall str : jsstring, - 2 ^ 31 <= simpleHash str < 2 ^ 31).
Proof.
  split; [reflexivity|]. split; [|split].
  - intros str c. rewrite simpleHash_app. cbn [fold_left].
    apply simpleHash_step_31.
  - intros str. unfold simpleHash, polynomial31.
    apply simpleHash_fold_congruent; [exists 0; lia | lia].
  - apply simpleHash_int32.
Qed.

Lemma simpleHash_Aa_BB (acc : Z) :
  fold_left simpleHash_step (codes "Aa") acc
  = fold_left simpleHash_step (codes "BB") acc.
Proof.
  change (codes "Aa") with [65; 97]. change (codes "BB") with [66; 66].
  cbn [fold_left]. rewrite !simpleHash_step_31. apply ToInt32_congruent.
  destruct (ToInt32_wraps (31 * acc + 65)) as [k1 ->].
  destruct (ToInt32_wraps (31 * acc + 66)) as [k2 ->].
  exists (31 * (k1 - k2)). lia.
Qed.

Lemma simpleHash_collision (before after : jsstring) :
  simpleHash (before ++ codes "Aa" ++ after)
  = simpleHash (before ++ codes "BB" ++ after).
Proof.
  rewrite !simpleHash_app, !fold_left_app. now rewrite simpleHash_Aa_BB.
Qed.

Section CollisionFacts.
Context `{Runtime}.

Lemma check_stores_current b tree s :
  traverse b = Some tree ->
  lastHash (check (Some b) s).1 = Number_toString (simpleHash (JSON_stringify tree)).
Proof.
  intros Ht. unfold check. rewrite Ht.
  destruct (String.eqb_spec (Number_toString (simpleHash (JSON_stringify tree)))
                            (lastHash s)) as [Heq|Hne]; simpl; congruence.
Qed.

(** X2. The hash does not tell [Aa] from [BB]: two strings that differ only
    by that replacement have the same hash. So when the serialised page
    changes in just this way between two cycles, the second cycle forwards
    nothing and the change is never saved. *)
Theorem change_gate_misses_collision
        (b1 b2 : Element) (tree1 tree2 : Node) (before after : jsstring)
        (s : Sampler) :
  traverse b1 = Some tree1 ->
  traverse b2 = Some tree2 ->
  JSON_stringify tree1 = (before ++ codes "Aa" ++ after)%list ->
  JSON_stringify tree2 = (before ++ codes "BB" ++ after)%list ->
  simpleHash (JSON_stringify tree1) = simpleHash (JSON_stringify tree2)
  /\ JSON_stringify tree1 <> JSON_stringify tree2
  /\ let s1 := (check (Some b1) s).1 in check (Some b2) s1 = (s1, None).
Proof.
  intros Ht1 Ht2 H1 H2.
  assert (Hh : simpleHash (JSON_stringify tree1) = simpleHash (JSON_stringify tree2)).
  { rewrite H1, H2. apply simpleHash_collision. }
  split; [exact Hh|]. split.
  - rewrite H1, H2. intros Heq. apply app_inv_head in Heq. discriminate.
  - intros s1. apply (check_same b2 tree2 s1 Ht2).
    subst s1. rewrite (check_stores_current b1 tree1 s Ht1). now rewrite Hh.
Qed.

End CollisionFacts.

(** A paragraph whose text changes from [Aa] to [BB]: the first cycle
    forwards the page, the second does not. *)
Lemma change_gate_misses_collision_witness :
  match traverse (page_with_text "Aa"), traverse (page_with_text "BB") with
  | Some tree1, Some tree2 =>
      let json1 := JSON_stringify (Runtime := Reference.runtime) tree1 in
      let json2 := JSON_stringify (Runtime := Reference.runtime) tree2 in
      let s1 := (check (H := Reference.runtime) (Some (page_with_text "Aa"))
                       sampler_init).1 in
      json1 = (firstn 743 json1 ++ codes "Aa" ++ skipn 745 json1)%list
      /\ json2 = (firstn 743 json1 ++ codes "BB" ++ skipn 745 json1)%list
      /\ json1 <> json2
      /\ check (H := Reference.runtime) (Some (page_with_text "BB")) s1 = (s1, None)
  | _, _ => False
  end.
Proof.
  destruct (traverse (page_with_text "Aa")) as [tree1|] eqn:Ht1;
    [|vm_compute in Ht1; discriminate].
  destruct (traverse (page_with_text "BB")) as [tree2|] eqn:Ht2;
    [|vm_compute in Ht2; discriminate].
  intros json1 json2 s1.
  assert (H1 : json1 = (firstn 743 json1 ++ codes "Aa" ++ skipn 745 json1)%list).
  { subst json1. injection Ht1 as <-. vm_compute. reflexivity. }
  assert (H2 : json2 = (firstn 743 json1 ++ codes "BB" ++ skipn 745 json1)%list).
  { subst json1 json2. injection Ht1 as <-. injection Ht2 as <-.
    vm_compute. reflexivity. }
  destruct (change_gate_misses_collision (H := Reference.runtime)
              (page_with_text "Aa") (page_with_text "BB") tree1 tree2
              (firstn 743 json1) (skipn 745 json1) sampler_init Ht1 Ht2 H1 H2)
    as (_ & Hne & Hmiss).
  repeat split; assumption.
Defined.

(* ===================================================================== *)
(** * The sampler over many cycles *)
(* ===================================================================== *)

Section SamplerFacts.
Context `{Runtime}.

Lemma check_cases body s :
  check body s = (s, None)
  \/ exists json,
       check body s = ({| lastHash := printed_hash json |}, Some json)
       /\ printed_hash json <> lastHash s.
Proof.
  destruct body as [b|]; [|left; reflexivity].
  unfold check. destruct (traverse b) as [tree|]; [|left; reflexivity].
  destruct (String.eqb_spec (Number_toString (simpleHash (JSON_stringify tree)))
                            (lastHash s)) as [Heq|Hne]; simpl.
  - left; reflexivity.
  - right. exists (JSON_stringify tree). split; [reflexivity | exact Hne].
Qed.

Lemma checks_cons body bodies s :
  checks (body :: bodies) s
  = ((checks bodies (check body s).1).1,
     (option_list (check body s).2 ++ (checks bodies (check body s).1).2)%list).
Proof.
  simpl. destruct (check body s) as [s1 f]. simpl.
  destruct (checks bodies s1) as [s2 later]. reflexivity.
Qed.

Lemma checks_invariant bodies :
  forall s0,
    let s := (checks bodies s0).1 in
    let forwarded := (checks bodies s0).2 in
    lastHash s = default (lastHash s0) (printed_hash <$> last forwarded)
    /\ (List.length forwarded <= List.length bodies)%nat
    /\ Sorted hashes_differ forwarded
    /\ (forall json, head forwarded = Some json -> printed_hash json <> lastHash s0).
Proof.
  induction bodies as [|body bodies IH]; intros s0.
  - simpl. repeat split; auto; intros json [=].
  - cbv zeta. rewrite checks_cons. cbn [fst snd].
    destruct (check_cases body s0) as [-> | (json & -> & Hne)]; cbn [fst snd option_list].
    + destruct (IH s0) as (Hlast & Hlen & Hsorted & Hhead).
      rewrite app_nil_l. repeat split; auto. simpl. lia.
    + destruct (IH {| lastHash := printed_hash json |})
        as (Hlast & Hlen & Hsorted & Hhead).
      set (later := (checks bodies {| lastHash := printed_hash json |}).2) in *.
      change (option_list (Some json) ++ later)%list with (json :: later).
      repeat split.
      * rewrite Hlast. destruct later as [|j later]; [reflexivity|].
        rewrite !last_cons. destruct (last later); reflexivity.
      * simpl. lia.
      * constructor; [exact Hsorted|].
        destruct later as [|j later]; constructor.
        intros Heq. apply (Hhead j eq_refl). unfold printed_hash.
        simpl. now rewrite Heq.
      * intros j [= <-]. exact Hne.
Qed.

(** X3. Over any sequence of cycles from the start of a page: the stored
    hash is the empty string as long as nothing was forwarded and the
    printed hash of the last forwarded string afterwards; there are never
    more forwards than cycles; and two strings forwarded one after the other
    never have the same hash. *)
Theorem sampler_invariant (bodies : list (option Element)) :
  let s := (checks bodies sampler_init).1 in
  let forwarded := (checks bodies sampler_init).2 in
  lastHash s = default "" (printed_hash <$> last forwarded)
  /\ (List.length forwarded <= List.length bodies)%nat
  /\ Sorted hashes_differ forwarded.
Proof.
  destruct (checks_invariant bodies sampler_init) as (Hlast & Hlen & Hsorted & _).
  repeat split; assumption.
Qed.

Lemma checks_settled b tree n s :
  traverse b = Some tree ->
  lastHash s = printed_hash (JSON_stringify tree) ->
  checks (replicate n (Some b)) s = (s, []).
Proof.
  intros Ht Hs. induction n as [|n IH]; [reflexivity|].
  simpl replicate. rewrite checks_cons.
  rewrite (check_same b tree s Ht) by (symmetry; exact Hs).
  cbn [fst snd option_list]. rewrite IH. reflexivity.
Qed.

(** X4. A page that does not change is saved once: however many cycles run
    on the same body, the first one forwards its serialisation and the
    others forward nothing. *)
Theorem unchanged_page_forwarded_once (b : Element) (tree : Node) (n : nat) :
  traverse b = Some tree ->
  checks (replicate (S n) (Some b)) sampler_init
  = ({| lastHash := printed_hash (JSON_stringify tree) |}, [JSON_stringify tree]).
Proof.
  intros Ht. simpl replicate. rewrite checks_cons.
  rewrite (check_changed b tree sampler_init Ht)
    by (simpl; apply Number_toString_decimal).
  cbn [fst snd option_list].
  pose proof (checks_settled b tree n
                {| lastHash := printed_hash (JSON_stringify tree) |} Ht eq_refl)
    as Hrest.
  unfold printed_hash in *. rewrite Hrest. reflexivity.
Qed.

End SamplerFacts.

(** Five cycles on [sample_body] forward one string. *)
Lemma unchanged_page_forwarded_once_witness :
  match traverse sample_body with
  | Some tree =>
      (checks (H := Reference.runtime) (replicate 5 (Some sample_body))
              sampler_init).2
      = [JSON_stringify (Runtime := Reference.runtime) tree]
  | None => False
  end.
Proof.
  destruct (traverse sample_body) as [tree|] eqn:Ht;
    [|vm_compute in Ht; discriminate].
  rewrite (unchanged_page_forwarded_once (H := Reference.runtime)
             sample_body tree 4 Ht).
  reflexivity.
Defined.

(* ===================================================================== *)
(** * More on traverse *)
(* ===================================================================== *)

(** X5. Whatever the page, every node anywhere in a snapshot was made from
    an element of the page that has no excluded tag and no computed display
    of [none]; the node has the tag name of that element and carries the 38
    curated style properties, in the order of the source, each with the
    value that [getComputedStyle] gives for that element and that
    property, and no other style. *)
Theorem snapshot_nodes_visible (root : Element) (tree : Node) (q : list nat)
        (n : Node) :
  traverse root = Some tree ->
  node_at tree q = Some n ->
  exists p d,
    origin root q = Some p /\ at_path root p = Some d
    /\ node_tagName n = el_tagName d
    /\ Array_includes excluded_tags (node_tagName n) = false
    /\ getComputedStyle d "display" <> "none"
    /\ node_styles n
       = map (fun property => (property, getComputedStyle d property))
             style_properties
    /\ (forall property value,
          In (property, value) (node_styles n)
          <-> In property style_properties
              /\ value = getComputedStyle d property)
    /\ List.length (node_styles n) = 38%nat.
Proof.
  intros Ht Hn.
  destruct (snapshot_sound q root tree n Ht Hn) as (p & d & Ho & Hp & Hd).
  destruct (traverse_Some d n Hd) as [Hkept ->].
  unfold pruned in Hkept. apply orb_false_iff in Hkept as [Htag Hdisp].
  exists p, d. split; [exact Ho|]. split; [exact Hp|].
  split; [reflexivity|]. split; [exact Htag|].
  split; [now apply String.eqb_neq|]. split; [reflexivity|].
  split; [|reflexivity].
  intros property value. cbn [node_styles node_of]. unfold getComputedStyles.
  rewrite in_map_iff. split.
  - intros (x & [= <- <-] & Hin). auto.
  - intros (Hin & ->). exists property. auto.
Qed.

(** In the snapshot of [sample_body] the node at position 0 is made from
    the paragraph, the second child of the body, not from the script; its
    opacity is that of the paragraph. *)
Lemma snapshot_nodes_visible_witness :
  match traverse sample_body with
  | Some tree =>
      exists n, node_at tree [0%nat] = Some n
                /\ node_tagName n = "P"
                /\ In ("opacity", "0") (node_styles n)
  | None => False
  end.
Proof.
  destruct (traverse sample_body) as [tree|] eqn:Ht;
    [|vm_compute in Ht; discriminate].
  destruct (node_at tree [0%nat]) as [n|] eqn:Hn;
    [|injection Ht as <-; vm_compute in Hn; discriminate].
  exists n. split; [reflexivity|].
  destruct (snapshot_nodes_visible sample_body tree [0%nat] n Ht Hn)
    as (p & d & Ho & Hp & Htag & _ & _ & _ & Hstyles & _).
  vm_compute in Ho. injection Ho as <-.
  vm_compute in Hp. injection Hp as <-.
  split; [exact Htag|].
  apply Hstyles. split; [|reflexivity]. simpl. auto 40.
Defined.

Lemma omap_traverse_all_kept (children : list Element) (i : nat) :
  (forall j c, children !! j = Some c -> pruned c = false) ->
  omap traverse children !! i = children !! i ≫= traverse.
Proof.
  revert i. induction children as [|c rest IH]; intros i Hall; [reflexivity|].
  assert (Hc : pruned c = false) by exact (Hall 0%nat c eq_refl).
  simpl. rewrite (traverse_kept c Hc). destruct i as [|i]; simpl.
  - now rewrite (traverse_kept c Hc).
  - apply IH. intros j d Hj. exact (Hall (S j) d Hj).
Qed.

Lemma mirror_positions (p : list nat) :
  forall root tree,
    nothing_pruned root ->
    traverse root = Some tree ->
    node_at tree p = at_path root p ≫= traverse.
Proof.
  induction p as [|i p IH]; intros root tree Hall Ht.
  - simpl. now rewrite Ht.
  - destruct (traverse_Some root tree Ht) as [_ ->]. simpl.
    rewrite omap_traverse_all_kept
      by (intros j c Hj; apply (Hall [j]); simpl; now rewrite Hj).
    destruct (el_children root !! i) as [child|] eqn:Hi; [|reflexivity].
    simpl. assert (Hallc : nothing_pruned child).
    { intros p' d Hd. apply (Hall (i :: p')). simpl. now rewrite Hi. }
    rewrite (traverse_kept child (Hallc [] child eq_refl)).
    apply IH; [exact Hallc | apply traverse_kept, (Hallc [] child eq_refl)].
Qed.

(** X6. When no element of the page is pruned, the snapshot mirrors the
    element tree position by position: the node at any position is the
    snapshot of the element at the same position, and there is a node
    exactly where there is an element. *)
Theorem snapshot_mirrors_unpruned_tree (root : Element) :
  nothing_pruned root ->
  exists tree,
    traverse root = Some tree
    /\ forall p, node_at tree p = at_path root p ≫= traverse.
Proof.
  intros Hall.
  pose proof (traverse_kept root (Hall [] root eq_refl)) as Ht.
  eexists. split; [exact Ht|].
  intros p. now apply mirror_positions.
Qed.

(** [sample_body_changed] has a body and a paragraph, both kept. *)
Lemma snapshot_mirrors_unpruned_tree_witness :
  nothing_pruned sample_body_changed
  /\ exists tree,
       traverse sample_body_changed = Some tree
       /\ node_tagName <$> node_at tree [0%nat] = Some "P".
Proof.
  assert (Hall : nothing_pruned sample_body_changed).
  { intros p d Hd. destruct p as [|i p].
    - injection Hd as <-. reflexivity.
    - destruct i as [|i]; [|destruct i; discriminate].
      destruct p as [|j p]; [injection Hd as <-; reflexivity|].
      destruct j; discriminate. }
  split; [exact Hall|].
  destruct (snapshot_mirrors_unpruned_tree sample_body_changed Hall)
    as (tree & Ht & Hmirror).
  exists tree. split; [exact Ht|]. rewrite Hmirror. reflexivity.
Defined.

Lemma copy_attributes_snoc (attrs : list (string * string)) (attr : string * string) :
  copy_attributes (attrs ++ [attr]) = assign attr.1 attr.2 (copy_attributes attrs).
Proof. unfold copy_attributes. now rewrite fold_left_app. Qed.

Lemma copy_attributes_proto (attrs : list (string * string)) :
  copy_attributes attrs !! "__proto__" = None.
Proof.
  induction attrs as [|[name value] attrs IH] using rev_ind; [reflexivity|].
  rewrite copy_attributes_snoc. unfold assign. simpl.
  destruct (String.eqb_spec name "__proto__") as [->|Hne]; [exact IH|].
  now rewrite dict_lookup_insert_ne.
Qed.

Lemma copy_attributes_None (attrs : list (string * string)) (name : string) :
  name <> "__proto__" ->
  copy_attributes attrs !! name = None <-> name ∉ attrs.*1.
Proof.
  intros Hname.
  induction attrs as [|[n v] attrs IH] using rev_ind.
  - split; [intros _; apply not_elem_of_nil | reflexivity].
  - rewrite copy_attributes_snoc, fmap_app, not_elem_of_app. unfold assign. simpl.
    rewrite <- IH, not_elem_of_cons.
    destruct (String.eqb_spec n "__proto__") as [->|Hn].
    + split; [intros Hnone; repeat split; auto; apply not_elem_of_nil | tauto].
    + destruct (decide (n = name)) as [->|Hne].
      * rewrite dict_lookup_insert_eq. split; [discriminate | tauto].
      * rewrite dict_lookup_insert_ne by exact Hne.
        split; [intros Hnone; repeat split; auto; apply not_elem_of_nil | tauto].
Qed.

Lemma filter_stored_named_named (attrs : list (string * string)) :
  Forall (fun a => named a = true)
         (List.filter (fun a => stored a && named a) attrs).
Proof.
  apply List.Forall_forall. intros a Hin. apply List.filter_In in Hin as [_ Hf].
  now apply andb_true_iff in Hf as [_ Hn].
Qed.

(** A new index key is put among the index keys, which stay in ascending
    order and before the named keys. *)
Lemma entries_add_index_ordered (n : N) (kv : string * string)
      (idx rest : list (string * string)) :
  array_index kv.1 = Some n ->
  Forall (fun a => named a = false) idx ->
  StronglySorted index_le idx ->
  Forall (fun a => named a = true) rest ->
  exists idx',
    entries_add_index n kv (idx ++ rest) = (idx' ++ rest)%list
    /\ Forall (fun a => named a = false) idx'
    /\ StronglySorted index_le idx'
    /\ (forall x, In x idx' -> x = kv \/ In x idx).
Proof.
  intros Hkv Hidx Hsorted Hrest.
  assert (Hnot : named kv = false) by (unfold named; now rewrite Hkv).
  induction idx as [|[k v] idx IH].
  - exists [kv]. split; [|split; [|split]].
    + simpl. destruct rest as [|[k v] rest]; [reflexivity|].
      apply Forall_inv in Hrest. unfold named in Hrest. simpl in *.
      destruct (array_index k); [discriminate | reflexivity].
    + constructor; [exact Hnot | constructor].
    + repeat constructor.
    + intros x [<- | []]. now left.
  - apply Forall_cons in Hidx as (Hk & Hidx).
    apply StronglySorted_inv in Hsorted as (Hsorted & Hall).
    unfold named in Hk. simpl in Hk. simpl.
    destruct (array_index k) as [m|] eqn:Hm; [|discriminate].
    destruct (N.ltb_spec m n) as [Hlt|Hge].
    + destruct (IH Hidx Hsorted) as (idx' & Heq & Hn' & Hs' & Hin').
      exists ((k, v) :: idx'). split; [|split; [|split]].
      * simpl. now rewrite Heq.
      * constructor; [unfold named; simpl; now rewrite Hm | exact Hn'].
      * constructor; [exact Hs'|]. apply List.Forall_forall. intros x Hx.
        destruct (Hin' x Hx) as [-> | Hold].
        -- unfold index_le. simpl. rewrite Hm, Hkv. lia.
        -- exact (proj1 (List.Forall_forall _ _) Hall x Hold).
      * intros x [<- | Hx]; [right; now left|].
        destruct (Hin' x Hx) as [-> | Hold]; [now left | right; now right].
    + exists (kv :: (k, v) :: idx). split; [|split; [|split]].
      * reflexivity.
      * constructor; [exact Hnot|]. constructor; [|exact Hidx].
        unfold named. simpl. now rewrite Hm.
      * constructor; [constructor; assumption|].
        constructor.
        -- unfold index_le. simpl. rewrite Hm, Hkv. exact Hge.
        -- apply List.Forall_forall. intros x Hx.
           pose proof (proj1 (List.Forall_forall _ _) Hall x Hx) as Hle.
           unfold index_le in *. simpl in Hle. rewrite Hm in Hle. rewrite Hkv.
           destruct (array_index x.1); [lia | contradiction].
      * intros x [<- | Hx]; [now left | now right].
Qed.

(** With different names the attributes become the properties one by one:
    those with an array index as name are sorted to the front, the others
    follow in their order; [__proto__] is left out. *)
Lemma copy_attributes_entries (attrs : list (string * string)) :
  NoDup attrs.*1 ->
  exists idx,
    entries (copy_attributes attrs)
    = (idx ++ List.filter (fun a => stored a && named a) attrs)%list
    /\ Forall (fun a => named a = false) idx
    /\ StronglySorted index_le idx
    /\ (forall x, In x idx -> In x attrs).
Proof.
  induction attrs as [|[n v] attrs IH] using rev_ind.
  - intros _. exists []. repeat split; try constructor. intros x [].
  - rewrite fmap_app, NoDup_app. intros (Hnd & Hfresh & _).
    destruct (IH Hnd) as (idx & Heq & Hidx & Hsorted & Hsub).
    rewrite copy_attributes_snoc, List.filter_app. unfold assign. cbn [fst snd].
    change (List.filter (fun a => stored a && named a) [(n, v)])
      with (if stored (n, v) && named (n, v) then [(n, v)] else []).
    unfold stored at 2. cbn [fst].
    destruct (String.eqb_spec n "__proto__") as [->|Hn]; cbn [negb andb].
    { exists idx. rewrite app_nil_r. repeat split; auto.
      intros x Hx. apply in_or_app. left. auto. }
    assert (Hnone : copy_attributes attrs !! n = None).
    { apply copy_attributes_None; [exact Hn|].
      intros Hin. apply (Hfresh n Hin). now left. }
    change (entries (<[n := v]> (copy_attributes attrs)))
      with (entries_set n v (entries (copy_attributes attrs))).
    unfold entries_set, entries_add.
    change (entries_get n (entries (copy_attributes attrs)))
      with (copy_attributes attrs !! n).
    rewrite Hnone. unfold named at 2. cbn [fst].
    destruct (array_index n) as [m|] eqn:Hm.
    + rewrite Heq.
      destruct (entries_add_index_ordered m (n, v) idx
                  (List.filter (fun a => stored a && named a) attrs)
                  Hm Hidx Hsorted (filter_stored_named_named attrs))
        as (idx' & Heq' & Hidx' & Hsorted' & Hin').
      exists idx'. rewrite app_nil_r. repeat split; auto.
      intros x Hx. apply in_or_app.
      destruct (Hin' x Hx) as [-> | Hold]; [right; now left | left; auto].
    + exists idx. rewrite Heq, <- app_assoc. repeat split; auto.
      intros x Hx. apply in_or_app. left. auto.
Qed.

Lemma copy_attributes_Some (attrs : list (string * string)) (name value : string) :
  NoDup attrs.*1 ->
  name <> "__proto__" ->
  (name, value) ∈ attrs <-> copy_attributes attrs !! name = Some value.
Proof.
  intros Hnd Hname.
  induction attrs as [|[n v] attrs IH] using rev_ind.
  - split; [intros Hin; inversion Hin | discriminate].
  - rewrite fmap_app, NoDup_app in Hnd. destruct Hnd as (Hnd & Hfresh & _).
    specialize (IH Hnd).
    rewrite copy_attributes_snoc, elem_of_app, list_elem_of_singleton.
    unfold assign. cbn [fst snd].
    destruct (String.eqb_spec n "__proto__") as [->|Hn].
    + rewrite <- IH. split; [intros [Hin | [= -> _]]; [exact Hin | contradiction] | auto].
    + destruct (decide (n = name)) as [->|Hne].
      * rewrite dict_lookup_insert_eq. split.
        -- intros [Hin | [= ->]]; [|reflexivity]. exfalso.
           apply (Hfresh name); [|now left].
           apply list_elem_of_fmap. now exists (name, value).
        -- intros [= ->]. now right.
      * rewrite dict_lookup_insert_ne by exact Hne. rewrite <- IH.
        split; [intros [Hin | [= -> _]]; [exact Hin | contradiction] | auto].
Qed.

(** X7. The attribute object of a node holds the attributes of the element
    as its properties. An attribute named [__proto__] is never stored: the
    assignment reaches the inherited setter, which ignores a string. With
    the names of an element's attributes all different (as they are in a
    document), each other attribute is found under its name with its
    value, and the object lists them as JavaScript does: first those whose
    name is an array index, in ascending order, then the others in
    document order; so without such names the properties are the
    attributes one by one in document order. A name the element does not
    have is absent. Were a name to occur twice, the later value would
    stand. *)
Theorem copy_attributes_lookup (attrs : list (string * string)) :
  copy_attributes attrs !! "__proto__" = None
  /\ (forall name, name <> "__proto__" ->
        (name ∉ attrs.*1 <-> copy_attributes attrs !! name = None))
  /\ (NoDup attrs.*1 ->
      (forall name value, name <> "__proto__" ->
         ((name, value) ∈ attrs <-> copy_attributes attrs !! name = Some value))
      /\ (exists idx,
            entries (copy_attributes attrs)
            = (idx ++ List.filter (fun a => stored a && named a) attrs)%list
            /\ Forall (fun a => named a = false) idx
            /\ StronglySorted index_le idx)
      /\ (Forall (fun a => named a = true) attrs ->
          entries (copy_attributes attrs) = List.filter stored attrs))
  /\ (forall name value, name <> "__proto__" ->
        copy_attributes (attrs ++ [(name, value)]) !! name = Some value).
Proof.
  split; [apply copy_attributes_proto|].
  split; [intros name Hname; symmetry; now apply copy_attributes_None|].
  split.
  - intros Hnd.
    destruct (copy_attributes_entries attrs Hnd)
      as (idx & Heq & Hidx & Hsorted & Hsub).
    assert (Hlookup : forall name value, name <> "__proto__" ->
              ((name, value) ∈ attrs <-> copy_attributes attrs !! name = Some value)).
    { intros name value Hname. now apply copy_attributes_Some. }
    split; [exact Hlookup|]. split; [exists idx; auto|].
    intros Hall. rewrite Heq.
    assert (Hnil : idx = []).
    { destruct idx as [|x idx]; [reflexivity|]. exfalso.
      apply Forall_inv in Hidx.
      pose proof (proj1 (List.Forall_forall _ _) Hall x (Hsub x (or_introl eq_refl))).
      congruence. }
    rewrite Hnil. simpl. apply List.filter_ext_in. intros a Ha.
    rewrite (proj1 (List.Forall_forall _ _) Hall a Ha). apply andb_true_r.
  - intros name value Hname. rewrite copy_attributes_snoc. unfold assign. simpl.
    destruct (String.eqb_spec name "__proto__"); [contradiction|].
    apply dict_lookup_insert_eq.
Qed.

(** An image with [src], [__proto__] and [alt]: the object has [src] and
    [alt], in this order, and nothing under [__proto__] or [href]. *)
Lemma copy_attributes_lookup_witness :
  let attrs := [("src", "/hero.png"); ("__proto__", "x"); ("alt", "Hero")] in
  NoDup attrs.*1
  /\ Forall (fun a => named a = true) attrs
  /\ entries (copy_attributes attrs) = [("src", "/hero.png"); ("alt", "Hero")]
  /\ copy_attributes attrs !! "alt" = Some "Hero"
  /\ copy_attributes attrs !! "__proto__" = None
  /\ copy_attributes attrs !! "href" = None.
Proof.
  intros attrs.
  assert (Hnd : NoDup attrs.*1).
  { apply (bool_decide_unpack _). vm_compute. exact I. }
  assert (Hnamed : Forall (fun a => named a = true) attrs).
  { repeat constructor. }
  split; [exact Hnd|]. split; [exact Hnamed|].
  destruct (copy_attributes_lookup attrs) as (Hproto & Hout & Hin & _).
  destruct (Hin Hnd) as (Hfound & _ & Hentries).
  split; [exact (Hentries Hnamed)|]. split; [|split; [exact Hproto|]].
  - apply Hfound; [discriminate|]. apply list_elem_of_In. simpl. auto.
  - apply Hout; [discriminate|].
    intros Hhref. apply list_elem_of_In in Hhref. simpl in Hhref.
    intuition discriminate.
Defined.

(** The order of the attributes reaches the serialised tree: when two
    attributes of an image change places, the next cycle forwards the
    page. Names that are array indices come first, in ascending order,
    wherever they stand in the element. *)
Example attribute_order_is_forwarded :
  let before := page_with_image [("src", "/hero.png"); ("alt", "Hero")] in
  let after_ := page_with_image [("alt", "Hero"); ("src", "/hero.png")] in
  let s1 := (check (H := Reference.runtime) (Some before) sampler_init).1 in
  (check (H := Reference.runtime) (Some after_) s1).2 <> None.
Proof. vm_compute. discriminate. Qed.

Example index_names_come_first :
  entries (copy_attributes [("b", "x"); ("10", "y"); ("2", "z"); ("01", "w")])
  = [("2", "z"); ("10", "y"); ("b", "x"); ("01", "w")].
Proof. reflexivity. Qed.

(* ===================================================================== *)
(** * The text of a node *)
(* ===================================================================== *)

Lemma list_ascii_trim_start (s : string) :
  list_ascii_of_string (trim_start s)
  = dropwhile_space (list_ascii_of_string s).
Proof.
  induction s as [|c s IH]; [reflexivity|].
  simpl. destruct (is_white_space c); [exact IH | reflexivity].
Qed.

Lemma list_ascii_string_rev (s : string) :
  list_ascii_of_string (string_rev s) = rev (list_ascii_of_string s).
Proof. unfold string_rev. apply list_ascii_of_string_of_list_ascii. Qed.

Lemma list_ascii_trim (s : string) :
  list_ascii_of_string (trim s)
  = rev (dropwhile_space (rev (dropwhile_space (list_ascii_of_string s)))).
Proof.
  unfold trim.
  now rewrite list_ascii_string_rev, list_ascii_trim_start, list_ascii_string_rev,
    list_ascii_trim_start.
Qed.

Lemma dropwhile_space_head (l : list ascii) (c : ascii) (rest : list ascii) :
  dropwhile_space l = c :: rest -> is_white_space c = false.
Proof.
  induction l as [|x l IH]; [discriminate|].
  simpl. destruct (is_white_space x) eqn:Hx; [exact IH|].
  intros [= <- _]. exact Hx.
Qed.

(** What [dropwhile_space] leaves is the end of the list. *)
Lemma dropwhile_space_suffix (l : list ascii) :
  exists spaces, l = (spaces ++ dropwhile_space l)%list.
Proof.
  induction l as [|x l [spaces IH]]; [exists []; reflexivity|].
  simpl. destruct (is_white_space x).
  - exists (x :: spaces). simpl. now rewrite <- IH.
  - exists []. reflexivity.
Qed.

Lemma dropwhile_space_fixed (l : list ascii) :
  (forall c rest, l = c :: rest -> is_white_space c = false) ->
  dropwhile_space l = l.
Proof.
  destruct l as [|c l]; [reflexivity|]. intros Hc.
  simpl. now rewrite (Hc c l eq_refl).
Qed.

Lemma starts_with_space_list (s : string) :
  starts_with_space s
  = match list_ascii_of_string s with
    | c :: _ => is_white_space c
    | [] => false
    end.
Proof. destruct s; reflexivity. Qed.

(** The ends of [rev (dropwhile_space (rev l))] for an [l] without leading
    white space. *)
Lemma trimmed_ends (l : list ascii) :
  (forall c rest, l = c :: rest -> is_white_space c = false) ->
  let t := rev (dropwhile_space (rev l)) in
  (forall c rest, t = c :: rest -> is_white_space c = false)
  /\ (forall c rest, rev t = c :: rest -> is_white_space c = false).
Proof.
  intros Hl t. split.
  - intros c rest Ht.
    destruct (dropwhile_space_suffix (rev l)) as [spaces Hs].
    apply (f_equal (@rev ascii)) in Hs.
    rewrite rev_involutive, rev_app_distr in Hs. fold t in Hs.
    rewrite Ht in Hs. simpl in Hs. exact (Hl c _ Hs).
  - intros c rest Ht. subst t. rewrite rev_involutive in Ht.
    exact (dropwhile_space_head _ _ _ Ht).
Qed.

Lemma trim_ends (s : string) :
  starts_with_space (trim s) = false /\ ends_with_space (trim s) = false.
Proof.
  unfold ends_with_space. rewrite !starts_with_space_list.
  rewrite list_ascii_string_rev, list_ascii_trim.
  destruct (trimmed_ends (dropwhile_space (list_ascii_of_string s)))
    as [Hstart Hend].
  { intros c rest Hc. exact (dropwhile_space_head _ _ _ Hc). }
  split.
  - destruct (rev (dropwhile_space (rev (dropwhile_space (list_ascii_of_string s)))))
      as [|c rest] eqn:Ht; [reflexivity|]. exact (Hstart c rest eq_refl).
  - destruct (rev (rev (dropwhile_space
                          (rev (dropwhile_space (list_ascii_of_string s))))))
      as [|c rest] eqn:Ht; [reflexivity|]. exact (Hend c rest eq_refl).
Qed.

Lemma trim_fixed (s : string) :
  starts_with_space s = false -> ends_with_space s = false -> trim s = s.
Proof.
  unfold ends_with_space. rewrite !starts_with_space_list, list_ascii_string_rev.
  intros Hstart Hend.
  rewrite <- (string_of_list_ascii_of_string (trim s)), list_ascii_trim.
  rewrite (dropwhile_space_fixed (list_ascii_of_string s)).
  - rewrite (dropwhile_space_fixed (rev (list_ascii_of_string s))).
    + rewrite rev_involutive. apply string_of_list_ascii_of_string.
    + intros c rest Hc. now rewrite Hc in Hend.
  - intros c rest Hc. now rewrite Hc in Hstart.
Qed.

(** X8. A node of the snapshot has a text only when its element has exactly
    one child node and that is a text node; the text is then the element's
    text content trimmed, so it neither begins nor ends with white space
    (and trimming it again changes nothing), and the node has no children. *)
Theorem node_text_is_trimmed (el : Element) (n : Node) (text : string) :
  traverse el = Some n ->
  node_textContent n = Some text ->
  (exists only, el_childNodes el = [only] /\ nodeType only = 3)
  /\ text = trim (textContent el)
  /\ starts_with_space text = false
  /\ ends_with_space text = false
  /\ trim text = text
  /\ node_children n = [].
Proof.
  intros Ht Htext. destruct (traverse_Some el n Ht) as [_ ->].
  simpl in Htext. unfold sole_text in Htext. simpl.
  destruct (el_childNodes el) as [|only [|second rest]] eqn:Hcn; try discriminate.
  destruct (Z.eqb_spec (nodeType only) 3) as [H3|H3]; [|discriminate].
  injection Htext as <-.
  destruct (trim_ends (textContent el)) as [Hstart Hend].
  split; [exists only; auto|]. split; [reflexivity|].
  split; [exact Hstart|]. split; [exact Hend|].
  split; [now apply trim_fixed|].
  unfold el_children. rewrite Hcn.
  destruct only as [child|data|t data]; [discriminate | reflexivity | reflexivity].
Qed.

(** The paragraph of [sample_body], whose text node holds [ hi ]. *)
Lemma node_text_is_trimmed_witness :
  let p := element "P" (style_of "block" "0") [TextNode " hi "] in
  match traverse p with
  | Some n => node_textContent n = Some "hi" /\ ends_with_space "hi" = false
  | None => False
  end.
Proof.
  intros p. destruct (traverse p) as [n|] eqn:Ht; [|vm_compute in Ht; discriminate].
  assert (Htext : node_textContent n = Some "hi")
    by (injection Ht as <-; reflexivity).
  split; [exact Htext|].
  destruct (node_text_is_trimmed p n "hi" Ht Htext) as (_ & _ & _ & Hend & _).
  exact Hend.
Defined.

(* ===================================================================== *)
(** * The capture store over a session *)
(* ===================================================================== *)

Section StoreFacts.
Context `{Runtime}.

Lemma category_path_not_snapshot (type name name' : string) :
  path_join (category_dir type) name <> path_join SNAPSHOTS_DIR name'.
Proof.
  unfold category_dir. destruct (type =? "image")%string;
    intros Heq; vm_compute in Heq; discriminate.
Qed.

(** What a turn can do to the file store: nothing, or put one file. *)
Lemma turn_files_cases ev h :
  files (after (turn ev) h) = files h
  \/ (exists r b,
        ev_captures ev (response_url r) /\ response_body r = Return b
        /\ files h !! path_join (category_dir (request_resourceType (response_request r)))
                                (asset_filename r (request_resourceType (response_request r)) b)
           = None
        /\ files (after (turn ev) h)
           = <[path_join (category_dir (request_resourceType (response_request r)))
                         (asset_filename r (request_resourceType (response_request r)) b)
               := b]> (files h))
  \/ (exists now jsonString,
        ev = ev_saveSnapshot now None jsonString
        /\ files (after (turn ev) h)
           = <[path_join SNAPSHOTS_DIR (snapshot_filename now jsonString)
               := utf8 jsonString]> (files h)).
Proof.
  destruct ev as [now q | now r | disk r | u | now u q | now u q | now disk j];
    try (left; reflexivity).
  - simpl turn. destruct (included_dec r) as [Hi|Hi].
    + rewrite save_assets_included by assumption. unfold after.
      destruct (saveFile_cases disk r (request_resourceType (response_request r))
                  (category_dir (request_resourceType (response_request r))) h)
        as [[e ->] | [[b (_ & _ & ->)] | [b (Hb & _ & Hp & ->)]]];
        [left; reflexivity | left; reflexivity |].
      right; left. exists r, b.
      split; [split; [exact Hi | reflexivity]|]. repeat split; auto.
    + rewrite save_assets_not_included by assumption. left; reflexivity.
  - destruct disk as [e|]; [left; reflexivity|].
    right; right. exists now, j. split; reflexivity.
Qed.

Lemma turn_keeps_contents ev h p c :
  files h !! p = Some c ->
  (forall name, p <> path_join SNAPSHOTS_DIR name) ->
  files (after (turn ev) h) !! p = Some c.
Proof.
  intros Hp Hsnap.
  destruct (turn_files_cases ev h)
    as [-> | [(r & b & _ & _ & Hfresh & ->) | (now & j & _ & ->)]].
  - exact Hp.
  - rewrite lookup_insert_ne; [exact Hp|]. intros <-. congruence.
  - rewrite lookup_insert_ne; [exact Hp|]. intros <-. exact (Hsnap _ eq_refl).
Qed.

Lemma run_keeps_contents evs h p c :
  files h !! p = Some c ->
  (forall name, p <> path_join SNAPSHOTS_DIR name) ->
  files (after (run evs) h) !! p = Some c.
Proof.
  revert h. induction evs as [|ev evs IH]; intros h Hp Hsnap; [exact Hp|].
  rewrite after_run_cons. apply IH; [|exact Hsnap]. now apply turn_keeps_contents.
Qed.

Lemma shutdown_files disk h p :
  p <> ASSETS_MAP_FILE ->
  files (after (shutdown disk) h) !! p = files h !! p.
Proof.
  intros Hne. destruct disk as [e|]; [reflexivity|].
  unfold after. simpl. now apply lookup_insert_ne.
Qed.

(** X9. Assets are never changed or removed once they are on disk: a file
    that is in a category directory at some point of a session still has
    the same contents after any further turns, and after the shutdown. *)
Theorem assets_never_change (evs : list Event) (disk : option Error) (h : Host)
        (type name : string) (c : list byte) :
  files h !! path_join (category_dir type) name = Some c ->
  files (after (run evs) h) !! path_join (category_dir type) name = Some c
  /\ files (after (session evs disk) h) !! path_join (category_dir type) name
     = Some c.
Proof.
  intros Hp.
  assert (Hrun : files (after (run evs) h) !! path_join (category_dir type) name
                 = Some c).
  { apply run_keeps_contents; [exact Hp|].
    intros name'. apply category_path_not_snapshot. }
  split; [exact Hrun|].
  rewrite after_session, shutdown_files by apply category_path_not_map.
  exact Hrun.
Qed.

Lemma turn_new_files_named ev h p c :
  files (after (turn ev) h) !! p = Some c ->
  files h !! p = Some c \/ named_by_content p c.
Proof.
  destruct (turn_files_cases ev h)
    as [-> | [(r & b & _ & _ & _ & ->) | (now & j & _ & ->)]]; [auto | |].
  - destruct (decide (path_join (category_dir (request_resourceType (response_request r)))
                        (asset_filename r (request_resourceType (response_request r)) b)
                      = p)) as [<-|Hne].
    + rewrite lookup_insert_eq. intros [= <-]. right; left.
      eexists _, _. reflexivity.
    + rewrite lookup_insert_ne by exact Hne. auto.
  - destruct (decide (path_join SNAPSHOTS_DIR (snapshot_filename now j) = p))
      as [<-|Hne].
    + rewrite lookup_insert_eq. intros [= <-]. right; right.
      exists now, j. auto.
    + rewrite lookup_insert_ne by exact Hne. auto.
Qed.

(** X10. Every file that the turns of a session create or replace is named
    after its contents: an asset by the md5 of its bytes (plus an
    extension), in a category directory; a snapshot by the first eight
    digits of the md5 of the UTF-8 string it holds. From an empty capture
    directory this holds for every file there is. *)
Theorem files_named_by_content (evs : list Event) (h : Host) (p : string)
        (c : list byte) :
  files (after (run evs) h) !! p = Some c ->
  files h !! p = Some c \/ named_by_content p c.
Proof.
  revert h. induction evs as [|ev evs IH]; intros h Hp; [left; exact Hp|].
  rewrite after_run_cons in Hp.
  destruct (IH _ Hp) as [Hold | Hnamed]; [|right; exact Hnamed].
  exact (turn_new_files_named ev h p c Hold).
Qed.

Lemma saveFile_asset_on_disk disk r type h url filename :
  assetMap (after (saveFile disk r type (category_dir type)) h) !! url = Some filename ->
  assetMap h !! url = Some filename
  \/ asset_on_disk (after (saveFile disk r type (category_dir type)) h) filename.
Proof.
  unfold after.
  destruct (saveFile_cases disk r type (category_dir type) h)
    as [[e ->] | [[b (_ & Hp & ->)] | [b (_ & _ & _ & ->)]]]; simpl; [auto | |].
  - destruct (decide (response_url r = url)) as [<-|Hne].
    + rewrite dict_lookup_insert_eq. intros [= <-]. right.
      unfold asset_on_disk, category_dir in *. simpl.
      destruct (type =? "image")%string; auto.
    + rewrite dict_lookup_insert_ne by exact Hne. auto.
  - destruct (decide (response_url r = url)) as [<-|Hne].
    + rewrite dict_lookup_insert_eq. intros [= <-]. right.
      unfold asset_on_disk, category_dir in *. simpl.
      destruct (type =? "image")%string; [left | right];
        rewrite lookup_insert_eq; eauto.
    + rewrite dict_lookup_insert_ne by exact Hne. auto.
Qed.

Lemma asset_on_disk_turn ev h filename :
  asset_on_disk h filename -> asset_on_disk (after (turn ev) h) filename.
Proof.
  intros [Hd | Hd]; [left | right]; now apply turn_keeps_files.
Qed.

Lemma turn_asset_on_disk ev h url filename :
  assetMap (after (turn ev) h) !! url = Some filename ->
  assetMap h !! url = Some filename \/ asset_on_disk (after (turn ev) h) filename.
Proof.
  destruct ev as [now q | now r | disk r | u | now u q | now u q | now disk j];
    try (left; assumption).
  - simpl turn. destruct (included_dec r) as [Hi|Hi].
    + rewrite save_assets_included by assumption. apply saveFile_asset_on_disk.
    + rewrite save_assets_not_included by assumption. auto.
  - destruct disk; auto.
Qed.

(** X11. The asset map never points at nothing: every entry that the turns
    of a session put into the map names a file that exists in [textures/]
    or [scripts/] at the end of those turns. *)
Theorem assetMap_entries_on_disk (evs : list Event) (h : Host)
        (url filename : string) :
  assetMap (after (run evs) h) !! url = Some filename ->
  assetMap h !! url = Some filename
  \/ asset_on_disk (after (run evs) h) filename.
Proof.
  induction evs as [|ev evs IH] using rev_ind; [auto|].
  rewrite after_run_app.
  change (after (run [ev]) (after (run evs) h))
    with (after (turn ev >> ret tt) (after (run evs) h)).
  assert (Hsame : forall h0, after (turn ev >> ret tt) h0 = after (turn ev) h0).
  { intros h0. unfold after, bind, ret. pose proof (turn_returns ev h0) as Hr.
    unfold result in Hr. destruct (turn ev h0) as [h1 r1]. simpl in *. now subst. }
  rewrite Hsame. intros Hm.
  destruct (turn_asset_on_disk ev _ url filename Hm) as [Hold | Hnew];
    [|right; exact Hnew].
  destruct (IH Hold) as [Hinit | Hdisk]; [left; exact Hinit|].
  right. now apply asset_on_disk_turn.
Qed.

(** X12. The write of [assets_map.json] at shutdown is not guarded: when it
    is refused, the error leaves the session uncaught, nothing is written
    and neither closing line is printed; when it is accepted, the session
    returns and both lines are printed after the file is written. *)
Theorem shutdown_write_is_unguarded (evs : list Event) (h : Host) :
  (forall e,
      result (session evs (Some e)) h = Throw e
      /\ after (session evs (Some e)) h = after (run evs) h)
  /\ result (session evs None) h = Return tt
  /\ console (after (session evs None) h)
     = (console (after (run evs) h)
          ++ [console_log_line "Saved assets map.";
              console_log_line "Browser closed. Session ended."])%list.
Proof.
  assert (Hrun : run evs h = (after (run evs) h, Return tt)).
  { pose proof (run_returns evs h) as Hr. unfold result, after in *.
    destruct (run evs h) as [h1 r1]. simpl in *. now subst. }
  repeat split.
  - unfold result, session, bind. rewrite Hrun. reflexivity.
  - unfold after at 1. unfold session, bind. rewrite Hrun. reflexivity.
  - unfold result, session, bind. rewrite Hrun. reflexivity.
  - rewrite after_session. unfold after at 1. simpl.
    rewrite <- app_assoc. reflexivity.
Qed.


Lemma log_turn_record ev :
  logs_only ev ->
  exists stream data, forall h, after (turn ev) h = put_record stream data h.
Proof.
  destruct ev as [now q | now r | disk r | u | now u q | now u q | now disk j];
    intros Hl; try contradiction; eexists _, _; intros h; reflexivity.
Qed.

Lemma saveFile_put_record disk r type dir stream data h :
  after (saveFile disk r type dir) (put_record stream data h)
  = put_record stream data (after (saveFile disk r type dir) h).
Proof.
  unfold after, saveFile. run_host.
  destruct (response_body r) as [b|e]; [|destruct stream; reflexivity].
  replace (files (put_record stream data h)) with (files h)
    by (destruct stream; reflexivity).
  destruct (bool_decide _); simpl; [destruct stream; reflexivity|].
  destruct disk; destruct stream; reflexivity.
Qed.

Lemma save_turn_put_record ev stream data h :
  saves_only ev ->
  after (turn ev) (put_record stream data h)
  = put_record stream data (after (turn ev) h).
Proof.
  destruct ev as [now q | now r | disk r | u | now u q | now u q | now disk j];
    intros Hs; try contradiction.
  - simpl turn. unfold save_assets.
    destruct (response_ok r); [|reflexivity].
    destruct (_ =? "image")%string; [apply saveFile_put_record|].
    destruct (_ =? "script")%string; [apply saveFile_put_record | reflexivity].
  - destruct disk; destruct stream; reflexivity.
Qed.

(** X13. Logging and saving do not interfere: a turn that saves (the rest
    of a response handler after its body has settled, or a snapshot
    arriving from the page) leaves exactly the same host whether it runs
    before or after any number of turns that only log. *)
Theorem saves_commute_with_logging (logs : list Event) (save : Event) (h : Host) :
  Forall logs_only logs ->
  saves_only save ->
  after (run (logs ++ [save])) h = after (run (save :: logs)) h.
Proof.
  intros Hlogs Hsave. revert h.
  induction Hlogs as [|l logs Hl _ IH]; intros h; [reflexivity|].
  change ((l :: logs) ++ [save])%list with (l :: (logs ++ [save]))%list.
  rewrite after_run_cons, IH, !after_run_cons.
  destruct (log_turn_record l Hl) as (stream & data & Hrec).
  rewrite !Hrec. now rewrite save_turn_put_record.
Qed.

Lemma ParserJs_saveFile_agrees disk r type dir h :
  let h1 := after (ParserJs.saveFile disk r type dir) h in
  let h2 := after (saveFile disk r type dir) h in
  files h1 = files h2 /\ http_log h1 = http_log h2 /\ ws_log h1 = ws_log h2
  /\ console h1 = console h2 /\ assetMap h1 = assetMap h.
Proof.
  unfold after, ParserJs.saveFile, saveFile. run_host.
  destruct (response_body r) as [b|e]; [|repeat split].
  destruct (bool_decide _); simpl; [repeat split|].
  destruct disk; repeat split.
Qed.

(** X14. The first revision of the response handler ([parser.js]) leaves
    the same files, the same log records and the same console lines as the
    later one, whatever the response and the disk do; it differs only in
    never touching the asset map. *)
Theorem first_revision_agrees (now : Z) (disk : option Error) (r : Response)
        (h : Host) :
  let h1 := after (ParserJs.on_response now disk r) h in
  let h2 := after (on_response now disk r) h in
  files h1 = files h2 /\ http_log h1 = http_log h2 /\ ws_log h1 = ws_log h2
  /\ console h1 = console h2 /\ assetMap h1 = assetMap h.
Proof.
  unfold ParserJs.on_response, on_response, log_response.
  set (entry := HTTP_RESPONSE _ _ _ _ _ _).
  change (after (logToStream httpLogStream entry >> ParserJs.save_assets disk r) h)
    with (after (ParserJs.save_assets disk r) (put_record httpLogStream entry h)).
  change (after (logToStream httpLogStream entry >> save_assets disk r) h)
    with (after (save_assets disk r) (put_record httpLogStream entry h)).
  change (assetMap h) with (assetMap (put_record httpLogStream entry h)).
  generalize (put_record httpLogStream entry h). intros h0.
  unfold ParserJs.save_assets, save_assets.
  destruct (response_ok r); [|repeat split].
  destruct (_ =? "image")%string; [apply ParserJs_saveFile_agrees|].
  destruct (_ =? "script")%string; [apply ParserJs_saveFile_agrees | repeat split].
Qed.

(** X15. The console accounts for the store: a turn either prints nothing
    and leaves files and asset map as they are, or prints one "Saved" or
    "WebSocket opened" line, or prints one error line and then has
    changed neither the files, nor the asset map, nor the logs. *)
Theorem console_accounts_for_store (ev : Event) (h : Host) :
  let h' := after (turn ev) h in
  (console h' = console h /\ files h' = files h
   /\ (assetMap h' = assetMap h \/ exists url, ev_captures ev url))
  \/ (exists text, console h' = (console h ++ [console_log_line text])%list)
  \/ (exists text detail,
        console h' = (console h ++ [console_error_line text detail])%list
        /\ same_data h' h).
Proof.
  destruct ev as [now q | now r | disk r | u | now u q | now u q | now disk j];
    simpl; try (left; repeat split; left; reflexivity).
  - destruct (included_dec r) as [Hi|Hi].
    + rewrite save_assets_included by assumption. unfold after.
      destruct (saveFile_cases disk r (request_resourceType (response_request r))
                  (category_dir (request_resourceType (response_request r))) h)
        as [[e ->] | [[b (_ & _ & ->)] | [b (_ & _ & _ & ->)]]].
      * right; right. eexists _, _. split; [reflexivity | repeat split].
      * left. repeat split. right. exists (response_url r). split; auto.
      * right; left. eexists. reflexivity.
    + rewrite save_assets_not_included by assumption.
      left; repeat split; left; reflexivity.
  - right; left. eexists. reflexivity.
  - destruct disk as [e|].
    + right; right. eexists _, _. split; [reflexivity | repeat split].
    + right; left. eexists. reflexivity.
Qed.

End StoreFacts.

(** A texture that is on disk survives a session in which another response
    carries the same bytes, a snapshot is written and the map is saved. *)
Lemma assets_never_change_witness :
  let r := response_200 "image" "https://skazka.mobi/a.png" "image/png"
                        texture_bytes in
  let name := asset_filename (H := Reference.runtime) r "image" texture_bytes in
  let h := after (saveFile (H := Reference.runtime) None r "image" TEXTURES_DIR)
                 empty_host in
  let evs := [ev_response_body None
                (response_200 "image" "https://skazka.mobi/b.png" "image/png"
                              texture_bytes);
              ev_saveSnapshot 1700000000000 None (codes "{}")] in
  files h !! path_join (category_dir "image") name = Some texture_bytes
  /\ files (after (run (H := Reference.runtime) evs) h)
       !! path_join (category_dir "image") name = Some texture_bytes
  /\ files (after (session (H := Reference.runtime) evs None) h)
       !! path_join (category_dir "image") name = Some texture_bytes.
Proof.
  intros r name h evs.
  assert (Hp : files h !! path_join (category_dir "image") name
               = Some texture_bytes) by (vm_compute; reflexivity).
  split; [exact Hp|].
  exact (assets_never_change (H := Reference.runtime) evs None h "image" name
           texture_bytes Hp).
Defined.

Lemma files_named_by_content_witness :
  let r := response_200 "image" "https://skazka.mobi/a.png" "image/png"
                        texture_bytes in
  let p := path_join TEXTURES_DIR
             (asset_filename (H := Reference.runtime) r "image" texture_bytes) in
  let evs := [ev_response_body None r] in
  files (after (run (H := Reference.runtime) evs) empty_host) !! p
  = Some texture_bytes
  /\ (files empty_host !! p = Some texture_bytes
      \/ named_by_content p texture_bytes).
Proof.
  intros r p evs.
  assert (Hp : files (after (run (H := Reference.runtime) evs) empty_host) !! p
               = Some texture_bytes) by (vm_compute; reflexivity).
  split; [exact Hp|].
  exact (files_named_by_content (H := Reference.runtime) evs empty_host p
           texture_bytes Hp).
Defined.

Lemma assetMap_entries_on_disk_witness :
  let r := response_200 "image" "https://skazka.mobi/a.png" "image/png"
                        texture_bytes in
  let name := asset_filename (H := Reference.runtime) r "image" texture_bytes in
  let evs := [ev_response_body None r; ev_saveSnapshot 1700000000000 None (codes "{}")] in
  assetMap (after (run (H := Reference.runtime) evs) empty_host)
    !! "https://skazka.mobi/a.png" = Some name
  /\ (assetMap empty_host !! "https://skazka.mobi/a.png" = Some name
      \/ asset_on_disk (after (run (H := Reference.runtime) evs) empty_host) name).
Proof.
  intros r name evs.
  assert (Hm : assetMap (after (run (H := Reference.runtime) evs) empty_host)
                 !! "https://skazka.mobi/a.png" = Some name)
    by (vm_compute; reflexivity).
  split; [exact Hm|].
  exact (assetMap_entries_on_disk (H := Reference.runtime) evs empty_host
           "https://skazka.mobi/a.png" name Hm).
Defined.

(** The body of a response settles after two later events were logged. *)
Lemma saves_commute_with_logging_witness :
  let r := response_200 "image" "https://skazka.mobi/a.png" "image/png"
                        texture_bytes in
  let logs := [ev_request 1700000000001 (get_request "script" "https://skazka.mobi/b.js");
               ev_framesent 1700000000002 "wss://skazka.mobi/ws" (TextFrame "ping")] in
  Forall logs_only logs /\ saves_only (ev_response_body None r)
  /\ after (run (H := Reference.runtime) (logs ++ [ev_response_body None r]))
           empty_host
     = after (run (H := Reference.runtime) (ev_response_body None r :: logs))
             empty_host.
Proof.
  intros r logs.
  assert (Hl : Forall logs_only logs) by (repeat constructor).
  assert (Hs : saves_only (ev_response_body None r)) by exact I.
  split; [exact Hl|]. split; [exact Hs|].
  exact (saves_commute_with_logging (H := Reference.runtime) logs _ empty_host Hl Hs).
Defined.

(* ===================================================================== *)
(** * The extension and the file name of an asset *)
(* ===================================================================== *)

Lemma nth_error_list_ascii (s : string) (k : nat) :
  nth_error (list_ascii_of_string s) k = String.get k s.
Proof.
  revert k. induction s as [|c s IH]; intros [|k]; simpl; auto.
Qed.

Lemma list_ascii_append (a b : string) :
  list_ascii_of_string (a +:+ b)
  = (list_ascii_of_string a ++ list_ascii_of_string b)%list.
Proof.
  induction a as [|x a IH]; [reflexivity|].
  rewrite append_cons. simpl. f_equal. exact IH.
Qed.

Lemma scanned_app cs hi l1 l2 :
  scanned cs hi l1 ->
  scanned cs (hi - Z.of_nat (List.length l1)) l2 ->
  scanned cs hi (l1 ++ l2).
Proof.
  revert hi. induction l1 as [|[i c] l1 IH]; intros hi H1 H2.
  - change (scanned cs (hi - 0) l2) in H2. rewrite Z.sub_0_r in H2. exact H2.
  - simpl in H1. destruct H1 as (Hi & H0 & Hn & Hrest).
    change (scanned cs hi ((i, c) :: (l1 ++ l2)%list)).
    simpl. repeat split; auto. apply IH; [exact Hrest|].
    replace (i - Z.of_nat (List.length l1))
      with (hi - Z.of_nat (List.length ((i, c) :: l1))); [exact H2|].
    simpl List.length. lia.
Qed.

Lemma scanned_from (pre cs : list ascii) :
  scanned (pre ++ cs) (Z.of_nat (List.length pre + List.length cs))
    (rev (combine (map Z.of_nat (seq (List.length pre) (List.length cs))) cs)).
Proof.
  revert pre. induction cs as [|c cs IH]; intros pre; [exact I|].
  simpl List.length. simpl seq. simpl map. simpl combine. simpl rev.
  apply scanned_app.
  - specialize (IH (pre ++ [c])%list).
    rewrite <- app_assoc in IH. simpl in IH.
    rewrite List.length_app in IH. simpl List.length in IH.
    replace (List.length pre + 1)%nat with (S (List.length pre)) in IH by lia.
    replace (List.length pre + S (List.length cs))%nat
      with (S (List.length pre) + List.length cs)%nat by lia.
    exact IH.
  - rewrite List.length_rev, List.length_combine, List.length_map, List.length_seq,
      Nat.min_id.
    simpl. repeat split; try lia.
    match goal with
    | |- nth_error _ ?k = _ => replace k with (List.length pre) by lia
    end.
    rewrite nth_error_app2 by lia. now rewrite Nat.sub_diag.
Qed.

Lemma scanned_indexed (path : string) :
  scanned (list_ascii_of_string path)
    (Z.of_nat (List.length (list_ascii_of_string path))) (rev (indexed path)).
Proof. exact (scanned_from [] (list_ascii_of_string path)). Qed.

Lemma scan_ok_init (cs : list ascii) (b : Z) : scan_ok cs b extname_init.
Proof.
  unfold scan_ok, extname_init. simpl.
  repeat split; auto; intros; congruence.
Qed.

Lemma scan_ok_step cs b st i c :
  scan_ok cs b st ->
  i = b - 1 -> 0 <= i -> nth_error cs (Z.to_nat i) = Some c ->
  scan_ok cs i (extname_step st (i, c)).
Proof.
  intros (HA & HB & HC & HD) -> H0 Hn.
  assert (Hlen : b - 1 < Z.of_nat (List.length cs)).
  { assert (Z.to_nat (b - 1) < List.length cs)%nat
      by (apply nth_error_Some; congruence).
    lia. }
  assert (HA' : end_ st = -1 \/ b - 1 < end_ st <= Z.of_nat (List.length cs)).
  { destruct HA as [HA|HA]; [left; exact HA | right; lia]. }
  unfold extname_step.
  destruct (stopped st) eqn:Hstop.
  { unfold scan_ok. rewrite Hstop.
    split; [exact HA'|]. split; [exact HB|]. split; intros; congruence. }
  destruct (Ascii.eqb_spec c "/"%char) as [->|Hc].
  { destruct (matchedSlash st) eqn:Hms; simpl.
    - pose proof (HD eq_refl eq_refl) as Hend.
      unfold scan_ok. rewrite Hstop, Hms.
      split; [exact HA'|]. split; [exact HB|]. split; intros; congruence.
    - unfold scan_ok. simpl.
      split; [exact HA'|]. split; [exact HB|]. split; intros; congruence. }
  set (en := if end_ st =? -1 then b - 1 + 1 else end_ st).
  set (ms := if end_ st =? -1 then false else matchedSlash st).
  assert (Hen : b - 1 < en <= Z.of_nat (List.length cs)
                /\ forall j, b - 1 <= j < en ->
                             nth_error cs (Z.to_nat j) <> Some "/"%char).
  { unfold en. destruct (Z.eqb_spec (end_ st) (-1)) as [He|He].
    - split; [lia|]. intros j Hj. replace j with (b - 1) by lia.
      rewrite Hn. congruence.
    - destruct HA as [HA|HA]; [congruence|]. split; [lia|].
      intros j Hj. destruct (Z.eq_dec j (b - 1)) as [->|Hjb].
      + rewrite Hn. congruence.
      + apply (HC eq_refl He). lia. }
  assert (Hms : ms = true -> en = -1).
  { unfold ms. destruct (Z.eqb_spec (end_ st) (-1)) as [He|He]; [discriminate|].
    intros Hm. exfalso. exact (He (HD eq_refl Hm)). }
  assert (Hkeep : startDot st <> -1 -> en = end_ st).
  { intros Hsd. destruct HB as [HB|(HB & _)]; [congruence|].
    unfold en. destruct (Z.eqb_spec (end_ st) (-1)); [lia | reflexivity]. }
  destruct Hen as (Hrange & Hfree).
  assert (Hold : startDot st = -1
      \/ (0 <= startDot st < en
          /\ nth_error cs (Z.to_nat (startDot st)) = Some "."%char
          /\ forall j, startDot st <= j < en ->
                       nth_error cs (Z.to_nat j) <> Some "/"%char)).
  { destruct (Z.eq_dec (startDot st) (-1)) as [Hsd|Hsd]; [left; exact Hsd|].
    rewrite (Hkeep Hsd). exact HB. }
  clearbody en ms.
  destruct (Ascii.eqb_spec c "."%char) as [->|Hdot].
  - destruct (Z.eqb_spec (startDot st) (-1)) as [Hsd|Hsd];
      unfold scan_ok; simpl.
    + split; [right; exact Hrange|].
      split; [right; split; [lia|]; split; [exact Hn | exact Hfree]|].
      split; [intros _ _; exact Hfree | intros _; exact Hms].
    + split; [right; exact Hrange|]. split; [exact Hold|].
      split; [intros _ _; exact Hfree | intros _; exact Hms].
  - unfold scan_ok; simpl.
    split; [right; exact Hrange|]. split; [exact Hold|].
    split; [intros _ _; exact Hfree | intros _; exact Hms].
Qed.

Lemma scan_ok_fold cs l b st :
  scanned cs b l -> scan_ok cs b st ->
  exists b', scan_ok cs b' (fold_left extname_step l st).
Proof.
  revert b st. induction l as [|[i c] l IH]; intros b st Hl Hst.
  - exists b. exact Hst.
  - destruct Hl as (Hi & H0 & Hn & Hrest). simpl fold_left.
    apply (IH i); [exact Hrest|]. now apply (scan_ok_step cs b).
Qed.

Lemma get_0_cons (s : string) (c : ascii) :
  String.get 0 s = Some c -> exists rest, s = String c rest.
Proof. destruct s as [|x s]; [discriminate|]. intros [= ->]. eauto. Qed.

(** [path.extname] returns the empty string or a dot followed by
    characters of the last path component. *)
Lemma extname_shape (path : string) :
  extname path = ""
  \/ (exists rest, extname path = String "." rest)
     /\ ~ In "/"%char (list_ascii_of_string (extname path)).
Proof.
  unfold extname.
  destruct (scan_ok_fold _ _ _ extname_init (scanned_indexed path)
              (scan_ok_init _ _)) as (b & HA & HB & _).
  set (st := fold_left extname_step (rev (indexed path)) extname_init) in *.
  destruct (_ || _ || _ || _) eqn:Hcond; [left; reflexivity|]. right.
  destruct (Z.eqb_spec (startDot st) (-1)) as [Hsd|Hsd]; [discriminate|].
  destruct HB as [HB | (Hrange & Hdot & Hfree)]; [congruence|].
  destruct HA as [HA|HA]; [lia|].
  set (n := Z.to_nat (startDot st)) in *.
  set (m := Z.to_nat (end_ st - startDot st)).
  assert (Hm : (0 < m)%nat) by (unfold m; lia).
  split.
  - apply get_0_cons.
    rewrite (substring_correct1 path n m 0 Hm), <- nth_error_list_ascii.
    exact Hdot.
  - intros Hin. apply In_nth_error in Hin as [k Hk].
    rewrite nth_error_list_ascii in Hk.
    destruct (Nat.lt_ge_cases k m) as [Hlt|Hge].
    + rewrite (substring_correct1 path n m k Hlt), <- nth_error_list_ascii in Hk.
      apply (Hfree (Z.of_nat (k + n))); [unfold n, m in *; lia|].
      now rewrite Nat2Z.id.
    + rewrite (substring_correct2 path n m k Hge) in Hk. discriminate.
Qed.

Lemma getExtension_shape `{Runtime} (r : Response) (type : string) :
  (exists rest, getExtension r type = String "." rest)
  /\ ~ In "/"%char (list_ascii_of_string (getExtension r type)).
Proof.
  assert (Hconst : forall ext, In ext [".png"; ".jpg"; ".webp"; ".gif"; ".js"] ->
            (exists rest, ext = String "." rest)
            /\ ~ In "/"%char (list_ascii_of_string ext)).
  { intros ext Hin. simpl in Hin.
    repeat (destruct Hin as [<-|Hin];
            [split; [eauto | vm_compute; intuition discriminate]|]).
    contradiction. }
  unfold getExtension.
  repeat (destruct (includes _ _); [apply Hconst; simpl; auto 10|]).
  simpl orb. cbv iota.
  destruct (extname_shape (URL_pathname (response_url r))) as [-> | Hshape].
  - simpl. destruct (type =? "image")%string; apply Hconst; simpl; auto 10.
  - destruct Hshape as ((rest & Hrest) & Hfree).
    rewrite Hrest in *. simpl. split; [eauto | exact Hfree].
Qed.

Lemma hex_digit_not_slash (z : Z) : MD5.hex_digit z <> "/"%char.
Proof.
  unfold MD5.hex_digit. intros Heq.
  destruct (nth_in_or_default (Z.to_nat z)
              (list_ascii_of_string "0123456789abcdef") "0"%char) as [Hin|Hd].
  - rewrite Heq in Hin. vm_compute in Hin. intuition discriminate.
  - rewrite Heq in Hd. discriminate.
Qed.

Lemma hex_no_slash (bs : list Z) :
  ~ In "/"%char (list_ascii_of_string (MD5.hex bs)).
Proof.
  induction bs as [|x bs IH]; simpl; [tauto|].
  intros [Hx | [Hx | Hin]]; [| |exact (IH Hin)];
    exact (hex_digit_not_slash _ Hx).
Qed.

(** X16. An asset's file name is one path component. The extension that
    [getExtension] returns always starts with a dot and contains no slash,
    whatever the headers and the URL are, so that the name, 32 hexadecimal
    digits and the extension, is at least 33 characters long, is neither
    [.] nor [..] and contains no slash: the file lies directly in the
    category directory. *)
Theorem asset_name_is_one_component `{Runtime} (r : Response) (type : string)
        (b : list byte) :
  (exists rest, getExtension r type = String "." rest)
  /\ (String.length (asset_filename r type b) >= 33)%nat
  /\ one_component (asset_filename r type b).
Proof.
  destruct (getExtension_shape r type) as ((rest & Hrest) & Hfree).
  assert (Hlen : (String.length (asset_filename r type b) >= 33)%nat).
  { unfold asset_filename. rewrite length_append, length_md5_hex, Hrest.
    simpl. lia. }
  split; [eauto|]. split; [exact Hlen|].
  unfold one_component.
  repeat split; try (intros Heq; rewrite Heq in Hlen; simpl in Hlen; lia).
  unfold asset_filename. rewrite list_ascii_append, in_app_iff.
  intros [Hin | Hin]; [exact (hex_no_slash _ Hin) | exact (Hfree Hin)].
Qed.

(* ===================================================================== *)
(** * Start-up *)
(* ===================================================================== *)

Lemma grows_refl (t : Startup.Tree) : Startup.grows t t.
Proof. intros p. now left. Qed.

Lemma grows_trans (t1 t2 t3 : Startup.Tree) :
  Startup.grows t1 t2 -> Startup.grows t2 t3 -> Startup.grows t1 t3.
Proof.
  intros H12 H23 p.
  destruct (H12 p) as [E12 | (N1 & D2 & I2)], (H23 p) as [E23 | (N2 & D3 & I3)].
  - left. congruence.
  - right. repeat split; auto. congruence.
  - right. repeat split; auto. congruence.
  - congruence.
Qed.

Lemma grows_exists (t t' : Startup.Tree) (p : string) :
  Startup.grows t t' ->
  Startup.existsSync p t = true -> Startup.existsSync p t' = true.
Proof.
  unfold Startup.existsSync. intros Hg Hp.
  destruct (Hg p) as [-> | (Hn & _)]; [exact Hp|].
  rewrite Hn in Hp. discriminate.
Qed.

(** What was there at the start and is not a directory is still there. *)
Lemma grows_old (t t' : Startup.Tree) (p : string) (k : Startup.Kind) :
  Startup.grows t t' -> k <> Startup.directory ->
  t' !! p = Some k -> t !! p = Some k.
Proof.
  intros Hg Hk Hp. destruct (Hg p) as [<- | (_ & Hd & _)]; [exact Hp | congruence].
Qed.

Lemma grows_directory (t t' : Startup.Tree) (p : string) :
  Startup.grows t t' -> t !! p = Some Startup.directory ->
  t' !! p = Some Startup.directory.
Proof.
  intros Hg Hp. destruct (Hg p) as [-> | (Hn & _)]; [exact Hp | congruence].
Qed.

(** One guarded [mkdirSync]: the path exists and nothing happens, or the
    directory is created, or the call throws and nothing is changed. *)
Lemma ensure_dir_cases refuse dir t :
  (Startup.existsSync dir t = true
   /\ Startup.ensure_dir refuse dir t = (t, Return tt))
  \/ (t !! dir = None /\ refuse dir = None
      /\ (Startup.dirname dir = "."
          \/ t !! Startup.dirname dir = Some Startup.directory)
      /\ Startup.ensure_dir refuse dir t
         = (<[dir := Startup.directory]> t, Return tt))
  \/ (exists e,
        Startup.ensure_dir refuse dir t = (t, Throw e)
        /\ ((e = Startup.EEXIST /\ t !! dir = Some Startup.dangling)
            \/ (t !! dir = None /\ refuse dir = Some e)
            \/ (t !! dir = None /\ e = Startup.ENOTDIR
                /\ Startup.dirname dir <> "."
                /\ t !! Startup.dirname dir = Some Startup.regular)
            \/ (t !! dir = None /\ e = Startup.ENOENT
                /\ Startup.dirname dir <> "."
                /\ Startup.existsSync (Startup.dirname dir) t = false))).
Proof.
  unfold Startup.ensure_dir, Startup.existsSync, Startup.mkdirSync.
  destruct (t !! dir) as [[| |]|] eqn:Hd; cbn [negb].
  - left. auto.
  - left. auto.
  - right; right. exists Startup.EEXIST. auto.
  - destruct (String.eqb_spec (Startup.dirname dir) ".") as [Hdot|Hdot].
    + destruct (refuse dir) as [e|] eqn:Hr.
      * right; right. exists e. auto.
      * right; left. auto.
    + destruct (t !! Startup.dirname dir) as [[| |]|] eqn:Hp.
      * destruct (refuse dir) as [e|] eqn:Hr.
        -- right; right. exists e. auto.
        -- right; left. auto.
      * right; right. exists Startup.ENOTDIR. auto 10.
      * right; right. exists Startup.ENOENT. auto 10.
      * right; right. exists Startup.ENOENT. auto 10.
Qed.

Lemma ensure_dir_grows refuse dir t :
  In dir Startup.output_directories ->
  Startup.grows t (Startup.ensure_dir refuse dir t).1.
Proof.
  intros Hin.
  destruct (ensure_dir_cases refuse dir t)
    as [(_ & ->) | [(Hn & _ & _ & ->) | (e & -> & _)]];
    cbn [fst]; try apply grows_refl.
  intros p. destruct (decide (dir = p)) as [<-|Hne].
  - right. rewrite lookup_insert_eq. auto.
  - left. now rewrite lookup_insert_ne.
Qed.

Lemma ensure_dir_returns refuse dir t :
  (Startup.ensure_dir refuse dir t).2 = Return tt ->
  Startup.existsSync dir (Startup.ensure_dir refuse dir t).1 = true.
Proof.
  destruct (ensure_dir_cases refuse dir t)
    as [(Hs & ->) | [(Hn & _ & _ & ->) | (e & -> & _)]]; cbn [fst snd].
  - auto.
  - intros _. unfold Startup.existsSync. now rewrite lookup_insert_eq.
  - discriminate.
Qed.

Lemma ensure_dir_present refuse dir t :
  Startup.existsSync dir t = true ->
  Startup.ensure_dir refuse dir t = (t, Return tt).
Proof. intros Hs. unfold Startup.ensure_dir. now rewrite Hs. Qed.

Lemma dirname_output_directories :
  Startup.dirname OUTPUT_DIR = "."
  /\ forall dir, In dir [TEXTURES_DIR; SCRIPTS_DIR; SNAPSHOTS_DIR] ->
                 Startup.dirname dir = OUTPUT_DIR /\ In dir Startup.output_directories.
Proof.
  split; [reflexivity|]. intros dir Hin. simpl in Hin.
  destruct Hin as [<- | [<- | [<- | []]]]; split; try reflexivity;
    unfold Startup.output_directories; simpl; auto.
Qed.

(** The first statement: it fails when the system refuses, or when
    [captured_data] is a dangling link. *)
Lemma ensure_output_dir refuse t :
  let t' := (Startup.ensure_dir refuse OUTPUT_DIR t).1 in
  let r := (Startup.ensure_dir refuse OUTPUT_DIR t).2 in
  Startup.grows t t'
  /\ (r = Return tt -> Startup.existsSync OUTPUT_DIR t' = true)
  /\ (forall e, r = Throw e ->
        refuse OUTPUT_DIR = Some e
        \/ (e = Startup.EEXIST /\ t !! OUTPUT_DIR = Some Startup.dangling))
  /\ (t !! OUTPUT_DIR = Some Startup.dangling -> r = Throw Startup.EEXIST)
  /\ (refuse OUTPUT_DIR = None ->
      t !! OUTPUT_DIR <> Some Startup.regular ->
      t !! OUTPUT_DIR <> Some Startup.dangling ->
      r = Return tt /\ t' !! OUTPUT_DIR = Some Startup.directory).
Proof.
  assert (Hin : In OUTPUT_DIR Startup.output_directories) by (left; reflexivity).
  intros t' r. subst t' r.
  split; [now apply ensure_dir_grows|].
  split; [now apply ensure_dir_returns|].
  destruct dirname_output_directories as (Hdot & _).
  destruct (ensure_dir_cases refuse OUTPUT_DIR t)
    as [(Hs & ->) | [(Hn & Hr & _ & ->) | (e & -> & Hwhy)]]; cbn [fst snd].
  - unfold Startup.existsSync in Hs.
    split; [intros e [=]|]. split; [intros Hd; rewrite Hd in Hs; discriminate|].
    intros _ Hreg Hdang. split; [reflexivity|].
    destruct (t !! OUTPUT_DIR) as [[| |]|]; congruence.
  - split; [intros e [=]|]. split; [congruence|].
    intros _ _ _. split; [reflexivity|]. apply lookup_insert_eq.
  - destruct Hwhy as [(-> & Hd) | [(Hn & Hr) | [(_ & _ & Hne & _) | (_ & _ & Hne & _)]]];
      try contradiction.
    + split; [intros e' [= <-]; auto|]. split; [reflexivity|].
      intros _ _ Hdang. contradiction.
    + split; [intros e' [= <-]; auto|]. split; [congruence|].
      intros Hr'. congruence.
Qed.

(** One of the three statements after it, when [captured_data] exists. *)
Lemma ensure_subdirectory refuse dir t :
  In dir [TEXTURES_DIR; SCRIPTS_DIR; SNAPSHOTS_DIR] ->
  Startup.existsSync OUTPUT_DIR t = true ->
  let t' := (Startup.ensure_dir refuse dir t).1 in
  let r := (Startup.ensure_dir refuse dir t).2 in
  Startup.grows t t'
  /\ (r = Return tt -> Startup.existsSync dir t' = true)
  /\ (forall e, r = Throw e ->
        refuse dir = Some e
        \/ (e = Startup.ENOTDIR /\ t !! OUTPUT_DIR = Some Startup.regular)
        \/ (e = Startup.EEXIST /\ t !! dir = Some Startup.dangling))
  /\ (refuse dir = None -> t !! OUTPUT_DIR = Some Startup.directory ->
      t !! dir <> Some Startup.dangling ->
      r = Return tt).
Proof.
  intros Hsub Hout t' r. subst t' r.
  destruct dirname_output_directories as (_ & Hdirs).
  destruct (Hdirs dir Hsub) as (Hparent & Hin).
  split; [now apply ensure_dir_grows|].
  split; [now apply ensure_dir_returns|].
  destruct (ensure_dir_cases refuse dir t)
    as [(Hs & ->) | [(Hn & Hr & _ & ->) | (e & -> & Hwhy)]]; cbn [fst snd].
  - split; [intros e [=] | reflexivity].
  - split; [intros e [=] | reflexivity].
  - rewrite Hparent in Hwhy.
    destruct Hwhy as [(-> & Hd) | [(Hn & Hr) | [(Hn & -> & _ & Hreg) | (_ & _ & _ & Hne)]]].
    + split; [intros e' [= <-]; auto|]. intros _ _ Hdang. contradiction.
    + split; [intros e' [= <-]; auto|]. intros Hr'. congruence.
    + split; [intros e' [= <-]; auto|]. intros _ Hd. congruence.
    + rewrite Hne in Hout. discriminate.
Qed.

(** X17. The start-up code only ever adds directories among its four and
    changes nothing else. When it returns, [existsSync] holds of all four
    paths and running it again changes nothing. It throws only when the
    system refuses a [mkdir], or when [captured_data] exists but is not a
    directory ([ENOTDIR]), or when one of the four paths is a symbolic
    link whose target is missing ([EEXIST]: the guard [existsSync]
    answers [false] for it and [mkdirSync] finds the entry). In
    particular the guard does not keep [EEXIST] away: a dangling link at
    [captured_data] makes start-up throw it. Without refusal, regular
    file at [captured_data] or dangling link, it returns; so it never
    fails because [captured_data] is missing. *)
Theorem startup_ensures_directories (refuse : string -> option Error)
        (t : Startup.Tree) :
  let t' := (Startup.ensure_output_directories refuse t).1 in
  let r := (Startup.ensure_output_directories refuse t).2 in
  Startup.grows t t'
  /\ (r = Return tt ->
      Forall (fun dir => Startup.existsSync dir t' = true)
             Startup.output_directories
      /\ forall refuse', Startup.ensure_output_directories refuse' t'
                         = (t', Return tt))
  /\ (forall e, r = Throw e ->
        (exists dir, In dir Startup.output_directories /\ refuse dir = Some e)
        \/ (e = Startup.ENOTDIR /\ t !! OUTPUT_DIR = Some Startup.regular)
        \/ (e = Startup.EEXIST
            /\ exists dir, In dir Startup.output_directories
                           /\ t !! dir = Some Startup.dangling))
  /\ (t !! OUTPUT_DIR = Some Startup.dangling ->
      r = Throw Startup.EEXIST /\ t' = t)
  /\ ((forall dir, In dir Startup.output_directories ->
                   refuse dir = None /\ t !! dir <> Some Startup.dangling) ->
      t !! OUTPUT_DIR <> Some Startup.regular ->
      r = Return tt).
Proof.
  intros t' r. subst t' r.
  assert (Hidem : forall refuse' t4,
    Forall (fun dir => Startup.existsSync dir t4 = true)
           Startup.output_directories ->
    Startup.ensure_output_directories refuse' t4 = (t4, Return tt)).
  { intros refuse' t4 Hall.
    apply Forall_cons in Hall as (H1 & Hall).
    apply Forall_cons in Hall as (H2 & Hall).
    apply Forall_cons in Hall as (H3 & Hall).
    apply Forall_cons in Hall as (H4 & _).
    unfold Startup.ensure_output_directories, Startup.and_then.
    now rewrite !ensure_dir_present. }
  assert (Hdangling : forall ta tb dir,
            Startup.grows ta tb -> tb !! dir = Some Startup.dangling ->
            ta !! dir = Some Startup.dangling).
  { intros ta tb dir Hg. now apply grows_old. }
  assert (Hregular : forall ta tb dir,
            Startup.grows ta tb -> tb !! dir = Some Startup.regular ->
            ta !! dir = Some Startup.regular).
  { intros ta tb dir Hg. now apply grows_old. }
  destruct (Startup.ensure_output_directories refuse t) as [t' r] eqn:Hrun.
  cbn [fst snd].
  unfold Startup.ensure_output_directories, Startup.and_then in Hrun.
  assert (Hsub : forall dir, In dir [TEXTURES_DIR; SCRIPTS_DIR; SNAPSHOTS_DIR] ->
                             In dir Startup.output_directories)
    by (intros dir Hd; right; exact Hd).
  assert (I1 : In OUTPUT_DIR Startup.output_directories) by (left; reflexivity).
  assert (I2 : In TEXTURES_DIR Startup.output_directories)
    by (apply Hsub; simpl; auto).
  assert (I3 : In SCRIPTS_DIR Startup.output_directories)
    by (apply Hsub; simpl; auto).
  assert (I4 : In SNAPSHOTS_DIR Startup.output_directories)
    by (apply Hsub; simpl; auto).
  pose proof (ensure_output_dir refuse t) as (G1 & R1 & T1 & D1 & S1).
  destruct (Startup.ensure_dir refuse OUTPUT_DIR t) as [t1 [[]|e1]] eqn:E1;
    cbn [fst snd] in *.
  2:{ injection Hrun as <- <-.
      split; [exact G1|]. split; [intros [=]|]. split; [|split].
      - intros e [= <-]. destruct (T1 _ eq_refl) as [Hr | (He & Hd)].
        + left. exists OUTPUT_DIR. auto.
        + right; right. split; [exact He|]. exists OUTPUT_DIR. auto.
      - intros Hd. split; [exact (D1 Hd)|].
        destruct (ensure_dir_cases refuse OUTPUT_DIR t)
          as [(_ & E) | [(_ & _ & _ & E) | (e & E & _)]];
          rewrite E in E1; congruence.
      - intros Hno Hreg. destruct (Hno _ I1) as (Hr & Hd).
        destruct (S1 Hr Hreg Hd) as ([=] & _). }
  specialize (R1 eq_refl).
  assert (Hnot1 : t !! OUTPUT_DIR <> Some Startup.dangling).
  { intros Hd. specialize (D1 Hd). discriminate. }
  pose proof (ensure_subdirectory refuse TEXTURES_DIR t1 (or_introl eq_refl) R1)
    as (G2 & R2 & T2 & S2).
  destruct (Startup.ensure_dir refuse TEXTURES_DIR t1) as [t2 [[]|e2]];
    cbn [fst snd] in *.
  2:{ injection Hrun as <- <-.
      split; [exact (grows_trans _ _ _ G1 G2)|]. split; [intros [=]|].
      split; [|split].
      - intros e [= <-].
        destruct (T2 _ eq_refl) as [Hr | [(He & Hreg) | (He & Hd)]].
        + left. exists TEXTURES_DIR. auto.
        + right; left. split; [exact He | exact (Hregular _ _ _ G1 Hreg)].
        + right; right. split; [exact He|]. exists TEXTURES_DIR.
          split; [exact I2 | exact (Hdangling _ _ _ G1 Hd)].
      - intros Hd. contradiction.
      - intros Hno Hreg. destruct (Hno _ I1) as (Hr1 & Hd1).
        destruct (S1 Hr1 Hreg Hd1) as (_ & Hdir1).
        destruct (Hno _ I2) as (Hr2 & Hd2).
        apply S2; [exact Hr2 | exact Hdir1|].
        intros Hd. exact (Hd2 (Hdangling _ _ _ G1 Hd)). }
  specialize (R2 eq_refl).
  assert (R1' : Startup.existsSync OUTPUT_DIR t2 = true)
    by exact (grows_exists _ _ _ G2 R1).
  pose proof (ensure_subdirectory refuse SCRIPTS_DIR t2
                (or_intror (or_introl eq_refl)) R1') as (G3 & R3 & T3 & S3).
  pose proof (grows_trans _ _ _ G1 G2) as G12.
  destruct (Startup.ensure_dir refuse SCRIPTS_DIR t2) as [t3 [[]|e3]];
    cbn [fst snd] in *.
  2:{ injection Hrun as <- <-.
      split; [exact (grows_trans _ _ _ G12 G3)|].
      split; [intros [=]|]. split; [|split].
      - intros e [= <-].
        destruct (T3 _ eq_refl) as [Hr | [(He & Hreg) | (He & Hd)]].
        + left. exists SCRIPTS_DIR. auto.
        + right; left. split; [exact He | exact (Hregular _ _ _ G12 Hreg)].
        + right; right. split; [exact He|]. exists SCRIPTS_DIR.
          split; [exact I3 | exact (Hdangling _ _ _ G12 Hd)].
      - intros Hd. contradiction.
      - intros Hno Hreg. destruct (Hno _ I1) as (Hr1 & Hd1).
        destruct (S1 Hr1 Hreg Hd1) as (_ & Hdir1).
        destruct (Hno _ I3) as (Hr3 & Hd3).
        apply S3; [exact Hr3 | exact (grows_directory _ _ _ G2 Hdir1)|].
        intros Hd. exact (Hd3 (Hdangling _ _ _ G12 Hd)). }
  specialize (R3 eq_refl).
  assert (R1'' : Startup.existsSync OUTPUT_DIR t3 = true)
    by exact (grows_exists _ _ _ G3 R1').
  pose proof (ensure_subdirectory refuse SNAPSHOTS_DIR t3
                (or_intror (or_intror (or_introl eq_refl))) R1'')
    as (G4 & R4 & T4 & S4).
  pose proof (grows_trans _ _ _ G12 G3) as G13.
  rewrite Hrun in G4, R4, T4, S4. cbn [fst snd] in *.
  split; [exact (grows_trans _ _ _ G13 G4)|].
  split; [|split; [|split]].
  - intros Hr. specialize (R4 Hr).
    assert (Hall : Forall (fun dir => Startup.existsSync dir t' = true)
                          Startup.output_directories).
    { repeat constructor.
      - exact (grows_exists _ _ _ G4 R1'').
      - exact (grows_exists _ _ _ G4 (grows_exists _ _ _ G3 R2)).
      - exact (grows_exists _ _ _ G4 R3).
      - exact R4. }
    split; [exact Hall|]. intros refuse'. now apply Hidem.
  - intros e He.
    destruct (T4 _ He) as [Hr | [(Hen & Hreg) | (Hen & Hd)]].
    + left. exists SNAPSHOTS_DIR. auto.
    + right; left. split; [exact Hen | exact (Hregular _ _ _ G13 Hreg)].
    + right; right. split; [exact Hen|]. exists SNAPSHOTS_DIR.
      split; [exact I4 | exact (Hdangling _ _ _ G13 Hd)].
  - intros Hd. contradiction.
  - intros Hno Hreg. destruct (Hno _ I1) as (Hr1 & Hd1).
    destruct (S1 Hr1 Hreg Hd1) as (_ & Hdir1).
    destruct (Hno _ I4) as (Hr4 & Hd4).
    apply S4; [exact Hr4 | exact (grows_directory _ _ _ G3 (grows_directory _ _ _ G2 Hdir1))|].
    intros Hd. exact (Hd4 (Hdangling _ _ _ G13 Hd)).
Qed.

(** The first run in an empty working directory returns with all four
    directories; with a dangling link at [captured_data] it throws. *)
Lemma startup_ensures_directories_witness :
  let fresh := Startup.ensure_output_directories (fun _ => None) ∅ in
  let link : Startup.Tree := {[ OUTPUT_DIR := Startup.dangling ]} in
  fresh.2 = Return tt
  /\ Forall (fun dir => Startup.existsSync dir fresh.1 = true)
            Startup.output_directories
  /\ (Startup.ensure_output_directories (fun _ => None) link).2
     = Throw Startup.EEXIST.
Proof.
  intros fresh link.
  destruct (startup_ensures_directories (fun _ => None) ∅)
    as (_ & Hreturns & _ & _ & Hok).
  assert (Hr : fresh.2 = Return tt).
  { apply Hok.
    - intros dir _. split; [reflexivity|]. rewrite lookup_empty. discriminate.
    - rewrite lookup_empty. discriminate. }
  split; [exact Hr|]. split; [exact (proj1 (Hreturns Hr))|].
  destruct (startup_ensures_directories (fun _ => None) link)
    as (_ & _ & _ & Hlink & _).
  exact (proj1 (Hlink (lookup_singleton_eq _ _))).
Defined.
